(** * gb-webArchiver: the crawl-and-snapshot engine of [backend/server.js]

    A shallow embedding of [getLocalFilePathForPage], [fetchPageAndAssets],
    [startCrawl] and the [POST /api/archive] handler, and the properties of
    the engine proved on it; with them the [GET /api/archives/:domain]
    handler and the helpers of the page, [frontend/src/App.js], that prepare
    a request and read a version id.

    What the platform provides (the WHATWG [URL] class, Node's [path] module,
    cheerio's parser, axios and the clock) is not code of the repository: it
    is an interface, [Platform], over which the embedding is parametric.
    The module [Demo] instantiates it with a small concrete platform, on
    which the embedding runs.

    A JavaScript string is embedded as a [string], one character for each
    UTF-16 code unit, in the order of the code units: the strings embedded
    are those whose code units lie below 256. A JSON number is embedded as a
    rational, [Q]: every finite double is one. A thrown exception is
    embedded as [None]; the document behind cheerio's [$] as the list of its
    elements in document order, which is all the selectors used by the code
    observe. *)

From Stdlib Require Import String Ascii List ZArith QArith Qround Lia Lqa Bool Arith.
From Stdlib Require Import DecimalString DecimalNat.
From Stdlib Require Import Sorting.Mergesort Sorting.Sorted Sorting.Permutation.
From Stdlib Require Import Relations.Relation_Operators Relations.Operators_Properties.
From Stdlib Require Import Wellfounded.
From Equations Require Import Equations.
From Equations.Prop Require Import Logic.
Import ListNotations.

Close Scope Q_scope.
Open Scope string_scope.
Open Scope list_scope.

Set Implicit Arguments.

(** ** Exceptions: a computation that may throw *)

Definition bind {A B : Type} (m : option A) (k : A -> option B) : option B :=
  match m with
  | Some a => k a
  | None => None
  end.

Notation "x <- m ;; k" := (bind m (fun x => k))
  (at level 61, m at next level, right associativity).

(** ** JavaScript strings and arrays *)

Module Js.

Definition is_empty (s : string) : bool :=
  match s with
  | EmptyString => true
  | String _ _ => false
  end.

(** [s.startsWith(p)] *)
Definition startsWith (s p : string) : bool := String.prefix p s.

(** [s.split(sep)[0]] for a one-character separator: what precedes the
    first occurrence of [sep]. *)
Fixpoint split_first (sep : ascii) (s : string) : string :=
  match s with
  | EmptyString => EmptyString
  | String c rest =>
      if Ascii.eqb c sep then EmptyString else String c (split_first sep rest)
  end.

(** [s.replace(/[...]/g, r)] for a character class [cls]. *)
Fixpoint replace_class (cls : ascii -> bool) (r : string) (s : string) : string :=
  match s with
  | EmptyString => EmptyString
  | String c rest =>
      if cls c then (r ++ replace_class cls r rest)%string
      else String c (replace_class cls r rest)
  end.

Definition is_slash (c : ascii) : bool := Ascii.eqb c "/"%char.

(** [s.replace(/^\/|\/$/g, '')]: scanning left to right, a slash is
    matched, and deleted, when it stands at index 0 (first alternative) or
    at the last index (second alternative). [first] tells whether the scan
    is at index 0. *)
Fixpoint strip_slashes_from (first : bool) (s : string) : string :=
  match s with
  | EmptyString => EmptyString
  | String c rest =>
      if is_slash c && (first || is_empty rest)
      then strip_slashes_from false rest
      else String c (strip_slashes_from false rest)
  end.

Definition strip_slashes (s : string) : string := strip_slashes_from true s.

(** The lower case of an ASCII letter. No code unit below 256 other than
    the ASCII letters has an ASCII letter as its lower case, or matches one
    under the [i] flag of a regular expression: where the code compares
    with an ASCII word without regard to case, lowering the ASCII letters
    decides the comparison. *)
Definition lower (c : ascii) : ascii :=
  let n := nat_of_ascii c in
  if ((65 <=? n)%nat && (n <=? 90)%nat)%bool then ascii_of_nat (n + 32) else c.

Fixpoint lower_case (s : string) : string :=
  match s with
  | EmptyString => EmptyString
  | String c rest => String (lower c) (lower_case rest)
  end.

(** The white space and line terminators that [trim] removes, among the
    code units below 256: U+0009 to U+000D, U+0020 and U+00A0. *)
Definition is_space (c : ascii) : bool :=
  let n := nat_of_ascii c in
  ((9 <=? n)%nat && (n <=? 13)%nat) || (n =? 32)%nat || (n =? 160)%nat.

Fixpoint trim_start (s : string) : string :=
  match s with
  | EmptyString => EmptyString
  | String c rest => if is_space c then trim_start rest else s
  end.

Fixpoint trim_end (s : string) : string :=
  match s with
  | EmptyString => EmptyString
  | String c rest =>
      match trim_end rest with
      | EmptyString => if is_space c then EmptyString else String c EmptyString
      | rest' => String c rest'
      end
  end.

Definition trim (s : string) : string := trim_end (trim_start s).

(** [a < b] and [a > b] on numbers. *)
Definition lt (a b : Q) : bool := (Qnum a * QDen b <? Qnum b * QDen a)%Z.
Definition gt (a b : Q) : bool := lt b a.

(** The size of an array or a set, as a number. *)
Definition size {A : Type} (l : list A) : Q := inject_Z (Z.of_nat (length l)).

(** [x || d] on strings: the empty string is falsy. *)
Definition or_else (s d : string) : string := if is_empty s then d else s.

(** Template literal of a number. *)
Definition of_nat (n : nat) : string := NilEmpty.string_of_uint (Nat.to_uint n).

(** [String(v)] of a value that may be [undefined]. *)
Definition to_string (v : option string) : string :=
  match v with
  | Some s => s
  | None => "undefined"
  end.

(** Truthiness of a value that is a string or [undefined]. *)
Definition truthy (v : option string) : bool :=
  match v with
  | Some s => negb (is_empty s)
  | None => false
  end.

(** [arr.includes(x)], also [set.has(x)] on the insertion-ordered list of
    the elements of a [Set]. *)
Definition includes (arr : list string) (x : string) : bool :=
  existsb (String.eqb x) arr.

(** [set.add(x)]: a [Set] keeps its elements in insertion order, once each. *)
Definition set_add (set : list string) (x : string) : list string :=
  if includes set x then set else set ++ [x].

(** [[...new Set(arr)]]: first occurrences, in order. *)
Definition dedupe (arr : list string) : list string :=
  fold_left set_add arr [].

(** [map.set(k, v)] on the insertion-ordered entries of a [Map]. *)
Fixpoint map_set {V : Type} (m : list (string * V)) (k : string) (v : V)
  : list (string * V) :=
  match m with
  | [] => [(k, v)]
  | (k', v') :: rest =>
      if String.eqb k' k then (k', v) :: rest else (k', v') :: map_set rest k v
  end.

End Js.

(** [Array.prototype.sort()] without a comparator orders strings by code
    units; on [string] that is [String.leb]. Any sort on a total order
    returns the same array, so Stdlib's merge sort stands for it. *)

Module StringOrder <: Orders.TotalLeBool.
Definition t := string.
Definition leb := String.leb.
Theorem leb_total : forall a1 a2, leb a1 a2 = true \/ leb a2 a1 = true.
Proof. exact String.leb_total. Qed.
End StringOrder.

Module StringSort := Mergesort.Sort StringOrder.

Definition array_sort (arr : list string) : list string := StringSort.sort arr.

(** ** The document behind cheerio's [$] *)

Record element := mkElement {
  tagName : string;                    (* lower case, as cheerio parses it *)
  attribs : list (string * string)     (* names in lower case, likewise *)
}.

Definition document := list element.

Module Dom.

(** [el.attr(name)]: [undefined] when the attribute is missing. *)
Fixpoint lookup (name : string) (l : list (string * string)) : option string :=
  match l with
  | [] => None
  | (k, v) :: rest => if String.eqb k name then Some v else lookup name rest
  end.

Definition attr (name : string) (el : element) : option string :=
  lookup name (attribs el).

Fixpoint assign (name value : string) (l : list (string * string))
  : list (string * string) :=
  match l with
  | [] => [(name, value)]
  | (k, v) :: rest =>
      if String.eqb k name then (k, value) :: rest
      else (k, v) :: assign name value rest
  end.

(** [el.attr(name, value)] *)
Definition set_attr (name value : string) (el : element) : element :=
  mkElement (tagName el) (assign name value (attribs el)).

(** [el.removeAttr(name)] *)
Definition removeAttr (name : string) (el : element) : element :=
  mkElement (tagName el)
            (filter (fun kv => negb (String.eqb (fst kv) name)) (attribs el)).

(** The selector ['a']. *)
Definition is_anchor (el : element) : bool := String.eqb (tagName el) "a".

(** The selector ['link[rel="stylesheet"], img, script']. In an HTML
    document the value of [rel] is matched without regard to case: the
    selector engine compares the lower case of the value with
    [stylesheet]. *)
Definition is_asset (el : element) : bool :=
  (String.eqb (tagName el) "link" &&
     match attr "rel" el with
     | Some r => String.eqb (Js.lower_case r) "stylesheet"
     | None => false
     end)
  || String.eqb (tagName el) "img"
  || String.eqb (tagName el) "script".

End Dom.

(** ** The platform *)

(** What the code reads of a [URL] object. *)
Record URL := mkURL {
  href : string;
  hostname : string;
  pathname : string
}.

(** What a file written by the engine holds. Serialisation ([$.html()],
    [JSON.stringify]) is left to the platform: a file holds the value that
    is serialised into it. *)
Record manifest := mkManifest {
  m_startUrl : string;
  m_entrypoint : string;
  m_archivedAt : string;
  m_crawledPages : list string
}.

Inductive file_content :=
| AssetData (data : string)
| Html (doc : document)
| ManifestJson (m : manifest).

Inductive fs_op :=
| EnsureDir (dir : string)
| WriteFile (file : string) (content : file_content).

(** The state of the world, over the states [W] of the network. *)
Record system_on (W : Type) := mkSystem {
  net : W;
  disk : list fs_op
}.

Class Platform := {
  (** [new URL(s)] and [new URL(s, base)]; [None] when the constructor throws *)
  URL_new : string -> option URL;
  URL_new_base : string -> string -> option URL;
  (** Node's [path] *)
  path_join : list string -> string;
  path_dirname : string -> string;
  path_extname : string -> string;
  path_relative : string -> string -> string;
  (** [cheerio.load] *)
  cheerio_load : string -> document;
  (** the network: [axios.get] answers with the body of a 2xx response or
      fails; every request settles *)
  World : Type;
  axios_get : World -> string -> World * option string;
  (** [new Date().toISOString()] *)
  toISOString : World -> string;
  (** [__dirname] *)
  dirname__ : string
}.

(** ** The engine *)

Section Engine.

Context {P : Platform}.

(** The world the engine acts on: the network and the operations it has
    performed on the file system, oldest first. File-system operations are
    taken to succeed. *)
Definition system : Type := system_on World.

(** The character class of the file-name sanitiser: [<], [>], [:], the
    double quote, [/], the backslash, [|], [?] and [*]. *)
Definition unsafe_path_char (c : ascii) : bool :=
  existsb (Ascii.eqb c) ["<"; ">"; ":"; "034"; "/"; "\"; "|"; "?"; "*"]%char.

(** The character class of the asset-folder sanitiser: [/], [?], [%], [*],
    [:], [|], the double quote, [<] and [>]. *)
Definition unsafe_id_char (c : ascii) : bool :=
  existsb (Ascii.eqb c) ["/"; "?"; "%"; "*"; ":"; "|"; "034"; "<"; ">"]%char.

(** [s.replace(/\\/g, '/')] *)
Definition forward_slashes (s : string) : string :=
  Js.replace_class (Ascii.eqb "\"%char) "/" s.

(** *** [getLocalFilePathForPage] *)

Definition getLocalFilePathForPage (pageUrl startUrl archivePath : string)
  : option string :=
  urlObject <- URL_new pageUrl ;;
  startUrlObject <- URL_new startUrl ;;
  let pageFilename := Js.strip_slashes (pathname urlObject) in
  let pageFilename := Js.replace_class unsafe_path_char "_" pageFilename in
  let pageFilename :=
    if Js.is_empty pageFilename
       || negb (hostname urlObject =? hostname startUrlObject)
    then "index.html"
    else if Js.is_empty (path_extname pageFilename)
         then path_join [pageFilename; "index.html"]
         else pageFilename in
  Some (path_join [archivePath; pageFilename]).

(** *** [fetchPageAndAssets] *)

(** The body of [$('a').each] in link discovery: what one anchor pushes
    onto [discoveredLinks]. *)
Definition discover_link (url startDomain : string) (el : element) : list string :=
  match Dom.attr "href" el with
  | Some link =>
      if Js.is_empty link then []
      else
        match
          (u <- URL_new_base link url ;;
           let absoluteLink := Js.split_first "#" (href u) in
           u' <- URL_new absoluteLink ;;
           Some (if hostname u' =? startDomain then [absoluteLink] else []))
        with
        | Some pushed => pushed
        | None => []                    (* catch: ignore invalid links *)
        end
  | None => []
  end.

Definition discoverLinks (url startDomain : string) (doc : document) : list string :=
  flat_map (discover_link url startDomain) (filter Dom.is_anchor doc).

Record counters := mkCounters { css : nat; img : nat; js : nat }.

(** An asset download that has been issued, as the promise pushed onto
    [assetPromises] holds it: the tag of the element it belongs to, the
    attribute to rewrite, the URL requested and the file to save. *)
Record download := mkDownload {
  d_tag : string;
  d_attr : string;
  d_absoluteUrl : string;
  d_savePath : string
}.

(** [el.attr('srcset').split(',')[0].trim().split(' ')[0]] *)
Definition first_srcset_candidate (srcset : string) : string :=
  Js.split_first " " (Js.trim (Js.split_first "," srcset)).

(** The synchronous part of the body of
    [$('link[rel="stylesheet"], img, script').each]: the counters after it
    and the download it issues, if any. [None]: a [new URL] threw. *)
Definition prepare_asset (url archivePath safePageIdentifier : string)
           (el : element) (c : counters)
  : option (counters * option download) :=
  let tag := tagName el in
  named <-
    (if tag =? "link" then
       Some (mkCounters (S (css c)) (img c) (js c), "href", Dom.attr "href" el,
             "style-" ++ Js.of_nat (S (css c)) ++ ".css")%string
     else if tag =? "img" then
       let fileUrl :=
         if Js.truthy (Dom.attr "srcset" el)
         then Some (first_srcset_candidate (Js.to_string (Dom.attr "srcset" el)))
         else Dom.attr "src" el in
       u <- URL_new_base (Js.to_string fileUrl) url ;;
       let extension := Js.or_else (path_extname (pathname u)) ".jpg" in
       Some (mkCounters (css c) (S (img c)) (js c), "src", fileUrl,
             "image-" ++ Js.of_nat (S (img c)) ++ extension)%string
     else if tag =? "script" then
       let fileUrl := Dom.attr "src" el in
       u <- URL_new_base (Js.to_string fileUrl) url ;;
       let extension := Js.or_else (path_extname (pathname u)) ".js" in
       Some (mkCounters (css c) (img c) (S (js c)), "src", fileUrl,
             "script-" ++ Js.of_nat (S (js c)) ++ extension)%string
     else Some (c, EmptyString, Some EmptyString, EmptyString)) ;;
  let '(c', attr, fileUrl, filename) := named in
  if Js.truthy fileUrl && negb (Js.startsWith (Js.to_string fileUrl) "data:") then
    u <- URL_new_base (Js.to_string fileUrl) url ;;
    let assetSavePath :=
      path_join [archivePath; "assets"; safePageIdentifier; filename] in
    Some (c', Some (mkDownload tag attr (href u) assetSavePath))
  else Some (c', None).

(** The whole [each] over the asset elements. A promise closes over the
    element it rewrites: the result lists, for every element of the
    document in order, the download issued for it, if any. *)
Fixpoint collect_assets (url archivePath safePageIdentifier : string)
         (doc : document) (c : counters) : option (list (option download)) :=
  match doc with
  | [] => Some []
  | el :: rest =>
      if Dom.is_asset el then
        r <- prepare_asset url archivePath safePageIdentifier el c ;;
        ds <- collect_assets url archivePath safePageIdentifier rest (fst r) ;;
        Some (snd r :: ds)
      else
        ds <- collect_assets url archivePath safePageIdentifier rest c ;;
        Some (None :: ds)
  end.

(** What the [.then] handler does to the element once the asset is saved. *)
Definition point_to_local (d : download) (relativePath : string) (el : element)
  : element :=
  let el' := Dom.set_attr (d_attr d) (forward_slashes relativePath) el in
  if d_tag d =? "img" then Dom.removeAttr "srcset" el' else el'.

(** One download settling: [.then] on success, [.catch] (a log line) on
    failure. *)
Definition settle (localPagePath : string) (s : system) (el : element)
           (task : option download) : system * element :=
  match task with
  | None => (s, el)
  | Some d =>
      let '(w, res) := axios_get (net s) (d_absoluteUrl d) in
      match res with
      | Some data =>
          let relativePath :=
            path_relative (path_dirname localPagePath) (d_savePath d) in
          (mkSystem w (disk s ++
                         [EnsureDir (path_dirname (d_savePath d));
                          WriteFile (d_savePath d) (AssetData data)]),
           point_to_local d relativePath el)
      | None => (mkSystem w (disk s), el)
      end
  end.

(** [await Promise.all(assetPromises)]. The downloads of a page run
    concurrently in the code; each touches its own element and its own
    file, and they are settled here in the order they were issued. *)
Fixpoint settle_all (localPagePath : string) (s : system) (doc : document)
         (tasks : list (option download)) : system * document :=
  match doc, tasks with
  | el :: doc', task :: tasks' =>
      let r := settle localPagePath s el task in
      let rest := settle_all localPagePath (fst r) doc' tasks' in
      (fst rest, snd r :: snd rest)
  | _, _ => (s, doc)
  end.

Record fetch_result := mkFetchResult {
  fr_doc : document;                 (* [$] *)
  discoveredLinks : list string
}.

(** Everything between [cheerio.load] and [Promise.all]: no network traffic
    completes here, and any [new URL] that throws outside the inner [try]
    of link discovery sends control to the outer [catch]. *)
Definition analyse_page (url archivePath startUrl : string) (doc : document)
  : option (list string * string * list (option download)) :=
  startUrlObject <- URL_new startUrl ;;
  let startDomain := hostname startUrlObject in
  let discovered := discoverLinks url startDomain doc in
  localPagePath <- getLocalFilePathForPage url startUrl archivePath ;;
  pageUrlObject <- URL_new url ;;
  let safePageIdentifier :=
    Js.replace_class unsafe_id_char "_"
      (Js.or_else (Js.strip_slashes (pathname pageUrlObject)) "index") in
  downloads <-
    collect_assets url archivePath safePageIdentifier doc (mkCounters 0 0 0) ;;
  Some (discovered, localPagePath, downloads).

(** The downloads that the asset loop has issued when it stops, at the
    end of the document or at the element where [new URL] throws. *)
Fixpoint issued_assets (url archivePath safePageIdentifier : string)
         (doc : document) (c : counters) : list download :=
  match doc with
  | [] => []
  | el :: rest =>
      if Dom.is_asset el then
        match prepare_asset url archivePath safePageIdentifier el c with
        | Some (c', Some d) =>
            d :: issued_assets url archivePath safePageIdentifier rest c'
        | Some (c', None) =>
            issued_assets url archivePath safePageIdentifier rest c'
        | None => []
        end
      else issued_assets url archivePath safePageIdentifier rest c
  end.

(** The downloads that have been issued for a page by the time control
    reaches the outer [catch]: none when a [new URL] throws before the
    asset loop. *)
Definition issued (url archivePath startUrl : string) (doc : document)
  : list download :=
  match
    (startUrlObject <- URL_new startUrl ;;
     localPagePath <- getLocalFilePathForPage url startUrl archivePath ;;
     pageUrlObject <- URL_new url ;;
     let safePageIdentifier :=
       Js.replace_class unsafe_id_char "_"
         (Js.or_else (Js.strip_slashes (pathname pageUrlObject)) "index") in
     Some (issued_assets url archivePath safePageIdentifier doc
                         (mkCounters 0 0 0)))
  with
  | Some downloads => downloads
  | None => []
  end.

(** A download whose page has been given up settles all the same: [.then]
    writes the file, and rewrites an element of a document that nothing
    reads any more; [.catch] logs. *)
Definition settle_stray (s : system) (d : download) : system :=
  let '(w, res) := axios_get (net s) (d_absoluteUrl d) in
  match res with
  | Some data =>
      mkSystem w (disk s ++
                    [EnsureDir (path_dirname (d_savePath d));
                     WriteFile (d_savePath d) (AssetData data)])
  | None => mkSystem w (disk s)
  end.

(** What [fetchPageAndAssets] does once the document is loaded. [None] is
    the [null] returned by the outer [catch]. When an element of the asset
    loop makes [new URL] throw, the downloads issued for the elements
    before it are not awaited: the code lets them settle while the session
    goes on, at a time that the network decides, which may be after the
    manifest is written. Their requests are made here where the code
    makes them, and their files are written with them, in the order they
    were issued: no property of a session stated below places the writes
    of a session after or before these files. *)
Definition process_page (s : system) (url archivePath startUrl : string)
           (doc : document) : system * option fetch_result :=
  match analyse_page url archivePath startUrl doc with
  | None => (fold_left settle_stray (issued url archivePath startUrl doc) s, None)
  | Some (discovered, localPagePath, downloads) =>
      let st := settle_all localPagePath s doc downloads in
      (fst st, Some (mkFetchResult (snd st) (Js.dedupe discovered)))
  end.

Definition fetchPageAndAssets (s : system) (url archivePath startUrl : string)
  : system * option fetch_result :=
  let '(w, response) := axios_get (net s) url in
  match response with
  | None => (mkSystem w (disk s), None)
  | Some htmlContent =>
      process_page (mkSystem w (disk s)) url archivePath startUrl
                   (cheerio_load htmlContent)
  end.

End Engine.

(** ** [startCrawl] *)

Section Session.

Context {P : Platform}.

(** The variables of [startCrawl] that the two passes change. [fetchLog]
    is not in the code: it records, oldest first, every invocation of the
    page fetcher by the loop and whether it returned a result. *)
Record crawl_state := mkState {
  queue : list string;
  visited : list string;                      (* a [Set] *)
  pageDataMap : list (string * document);     (* a [Map] *)
  sys : system;
  fetchLog : list (string * bool)
}.

Section Passes.

Variables (startUrl domain archivePath : string) (maxPagesToCrawl : Q).

(** The [forEach] over the discovered links. *)
Definition enqueue (visited : list string) (queue : list string) (link : string)
  : list string :=
  if negb (Js.includes visited link) && negb (Js.includes queue link)
  then queue ++ [link]
  else queue.

(** The loop condition. *)
Definition loop_cond (st : crawl_state) : bool :=
  (0 <? length (queue st))%nat
  && Js.lt (Js.size (visited st)) maxPagesToCrawl.

(** The loop body, run on a state in which the condition holds. *)
Definition loop_body (st : crawl_state) : crawl_state :=
  match queue st with
  | [] => st
  | currentUrl :: rest =>                   (* [queue.shift()] *)
      if Js.includes (visited st) currentUrl
      then mkState rest (visited st) (pageDataMap st) (sys st) (fetchLog st)
      else
        let r := fetchPageAndAssets (sys st) currentUrl archivePath startUrl in
        match snd r with
        | None =>
            mkState rest (visited st) (pageDataMap st) (fst r)
                    (fetchLog st ++ [(currentUrl, false)])
        | Some fetchResult =>
            let visited' := Js.set_add (visited st) currentUrl in
            mkState (fold_left (enqueue visited') (discoveredLinks fetchResult) rest)
                    visited'
                    (Js.map_set (pageDataMap st) currentUrl (fr_doc fetchResult))
                    (fst r)
                    (fetchLog st ++ [(currentUrl, true)])
        end
  end.

(** One iteration of the [while] loop; [None] when the loop exits. *)
Definition loop_step (st : crawl_state) : option crawl_state :=
  if loop_cond st then Some (loop_body st) else None.

(** [st'] follows [st] by one iteration. *)
Definition iterates (st' st : crawl_state) : Prop := loop_step st = Some st'.

(** The loop terminates: an iteration either grows [visited], which the
    budget bounds, or leaves it as it is and shortens the queue. *)
Definition budget_left (st : crawl_state) : nat * nat :=
  (Z.to_nat (Qceiling maxPagesToCrawl - Z.of_nat (length (visited st))),
   length (queue st)).

Lemma js_lt_spec (a b : Q) : Js.lt a b = true <-> (a < b)%Q.
Proof. unfold Js.lt, Qlt. apply Z.ltb_lt. Qed.

(** A size below a number is below its ceiling. *)
Lemma size_below_ceiling {A : Type} (l : list A) (q : Q) :
  (Js.size l < q)%Q -> (Z.of_nat (length l) < Qceiling q)%Z.
Proof.
  unfold Js.size. intros Hlt. rewrite Zlt_Qlt.
  eapply Qlt_le_trans; [ exact Hlt | apply Qle_ceiling ].
Qed.

Lemma set_add_fresh_length (set : list string) (x : string) :
  Js.includes set x = false -> length (Js.set_add set x) = S (length set).
Proof.
  intros Hx. unfold Js.set_add. rewrite Hx, length_app. simpl. lia.
Qed.

Lemma iterates_decreases (st' st : crawl_state) :
  iterates st' st -> slexprod _ _ lt lt (budget_left st') (budget_left st).
Proof.
  unfold iterates, loop_step, budget_left.
  destruct (loop_cond st) eqn:Hc; [ | discriminate ].
  intros [= <-]. unfold loop_cond in Hc.
  apply andb_true_iff in Hc. destruct Hc as [Hq Hv].
  apply Nat.ltb_lt in Hq. apply js_lt_spec in Hv. apply size_below_ceiling in Hv.
  unfold loop_body. destruct (queue st) as [ | u rest ] eqn:Eq.
  - simpl in Hq. lia.
  - destruct (Js.includes (visited st) u) eqn:Hin.
    + simpl. apply right_slex. lia.
    + destruct (snd (fetchPageAndAssets (sys st) u archivePath startUrl)).
      * simpl. rewrite (set_add_fresh_length _ _ Hin).
        apply left_slex. lia.
      * simpl. apply right_slex. lia.
Qed.

Lemma iterates_wf : well_founded iterates.
Proof.
  apply (wf_incl _ _ (fun a b => slexprod _ _ lt lt (budget_left a) (budget_left b))).
  - intros a b. apply iterates_decreases.
  - apply wf_inverse_image. apply wf_slexprod; apply lt_wf.
Qed.

(** The accessibility proofs are guarded so that [phase1] computes on
    closed states. *)
Definition iterates_guarded : well_founded iterates :=
  Acc_intro_generator 48 iterates_wf.

#[local] Opaque iterates_guarded.

#[local] Instance iterates_WellFounded : WellFounded iterates :=
  iterates_guarded.

(** Pass 1: the [while] loop, run to its exit. *)
Equations phase1 (st : crawl_state) : crawl_state by wf st iterates :=
  phase1 st with inspect (loop_step st) := {
    | exist _ (Some st') Hstep := phase1 st' ;
    | exist _ None _ := st }.

(** Pass 2: the body of [$('a').each]. *)
Definition rewrite_anchor (visited : list string)
           (currentUrl localPagePath : string) (el : element) : element :=
  match Dom.attr "href" el with
  | Some h =>
      if negb (Js.is_empty h) && negb (Js.startsWith h "#")
         && negb (Js.startsWith h "mailto:") && negb (Js.startsWith h "tel:")
      then
        match
          (u <- URL_new_base h currentUrl ;;
           let absoluteLinkUrl := Js.split_first "#" (href u) in
           u' <- URL_new absoluteLinkUrl ;;
           if (hostname u' =? domain) && Js.includes visited absoluteLinkUrl
           then
             linkedPageLocalPath <-
               getLocalFilePathForPage absoluteLinkUrl startUrl archivePath ;;
             let relativePath :=
               path_relative (path_dirname localPagePath) linkedPageLocalPath in
             Some (Dom.set_attr "href"
                     (Js.or_else (forward_slashes relativePath) "./index.html") el)
           else Some (Dom.set_attr "href" absoluteLinkUrl el))
        with
        | Some el' => el'
        | None => el                        (* catch: ignore invalid hrefs *)
        end
      else el
  | None => el
  end.

Definition rewrite_links (visited : list string)
           (currentUrl localPagePath : string) (doc : document) : document :=
  map (fun el => if Dom.is_anchor el
                 then rewrite_anchor visited currentUrl localPagePath el
                 else el) doc.

(** Pass 2: the [for] loop over the entries of [pageDataMap]. *)
Fixpoint save_pages (visited : list string) (entries : list (string * document))
         (d : list fs_op) : option (list fs_op) :=
  match entries with
  | [] => Some d
  | (currentUrl, doc) :: rest =>
      localPagePath <- getLocalFilePathForPage currentUrl startUrl archivePath ;;
      save_pages visited rest
        (d ++ [EnsureDir (path_dirname localPagePath);
               WriteFile localPagePath
                 (Html (rewrite_links visited currentUrl localPagePath doc))])
  end.

(** The manifest. *)
Definition make_manifest (visited : list string) (w : World) : option manifest :=
  entryPointPath <- getLocalFilePathForPage startUrl startUrl archivePath ;;
  let relativeEntryPoint :=
    forward_slashes (path_relative archivePath entryPointPath) in
  Some (mkManifest startUrl relativeEntryPoint (toISOString w)
                   (array_sort visited)).

End Passes.

(** [path.join(__dirname, 'archives', domain, timestamp)] *)
Definition session_root (w : World) (domain : string) : string :=
  path_join [dirname__; "archives"; domain;
             Js.replace_class (Ascii.eqb ":"%char) "-" (toISOString w)].

(** The state in which the loop is entered. *)
Definition initial_state (s : system) (startUrl archivePath : string) : crawl_state :=
  mkState [startUrl] [] [] (mkSystem (net s) (disk s ++ [EnsureDir archivePath])) [].

(** What a completed session leaves: the system, the state in which the
    loop exited and the manifest written. *)
Record session := mkSession {
  s_system : system;
  s_root : string;
  s_crawl : crawl_state;
  s_manifest : manifest
}.

(** [None]: the promise returned by [startCrawl] is rejected. *)
Definition startCrawl (s : system) (startUrl : string) (maxPagesToCrawl : Q)
  : option session :=
  urlObject <- URL_new startUrl ;;
  let domain := hostname urlObject in
  let archivePath := session_root (net s) domain in
  let st := phase1 startUrl archivePath maxPagesToCrawl
                   (initial_state s startUrl archivePath) in
  d <- save_pages startUrl domain archivePath (visited st) (pageDataMap st)
                  (disk (sys st)) ;;
  m <- make_manifest startUrl archivePath (visited st) (net (sys st)) ;;
  Some (mkSession
          (mkSystem (net (sys st))
                    (d ++ [WriteFile (path_join [archivePath; "_manifest.json"])
                                     (ManifestJson m)]))
          archivePath st m).

End Session.

(** ** [POST /api/archive] *)

(** The request body, [{url: string, maxPages?: number}]; a missing
    property reads as [undefined]. The specification has [maxPages] an
    integer; the handler does not look, and takes any number. *)
Record request_body := mkBody {
  body_url : option string;
  body_maxPages : option Q
}.

Inductive response :=
| Status (code : nat) (message : string)
| Json (message : string).

(** What the handler does: its response, and the call of [startCrawl] it
    makes, if any. The call is not awaited and [startCrawl] is [async], so
    nothing is thrown into the handler's [try]. *)
Record handled := mkHandled {
  h_response : response;
  h_launched : option (string * Q)
}.

Definition post_api_archive (body : request_body) : handled :=
  if negb (Js.truthy (body_url body)) then
    mkHandled (Status 400 "URL is required") None
  else
    let url := Js.to_string (body_url body) in
    let maxPagesToCrawl :=
      match body_maxPages body with
      | Some maxPages => if Js.gt maxPages 0 then maxPages else 10%Q
      | None => 10%Q
      end in
    mkHandled (Json ("Archiving process for " ++ url ++ " has started."))
              (Some (url, maxPagesToCrawl)).

(** ** The path mapper, in the words of the specification

    The name under the archive root: the path component of the URL, one
    leading and one trailing slash stripped, every unsafe character replaced
    by an underscore; [index.html] when that is empty or the host is not the
    start host; [index.html] beneath it when it has no extension. *)

Module PathMapperSpec.

Definition strip_leading_slash (s : string) : string :=
  match s with
  | String c rest => if Js.is_slash c then rest else s
  | EmptyString => EmptyString
  end.

Fixpoint strip_trailing_slash (s : string) : string :=
  match s with
  | EmptyString => EmptyString
  | String c rest =>
      if Js.is_slash c && Js.is_empty rest then EmptyString
      else String c (strip_trailing_slash rest)
  end.

Definition unsafe : list ascii :=
  ["<"; ">"; ":"; "034"; "/"; "\"; "|"; "?"; "*"]%char.

Definition underscore_unsafe (c : ascii) : ascii :=
  if in_dec ascii_dec c unsafe then "_"%char else c.

Definition sanitise (s : string) : string :=
  string_of_list_ascii (map underscore_unsafe (list_ascii_of_string s)).

Definition name {P : Platform} (u start : URL) : string :=
  let n := sanitise (strip_trailing_slash (strip_leading_slash (pathname u))) in
  if string_dec n EmptyString then "index.html"
  else if string_dec (hostname u) (hostname start) then
         if string_dec (path_extname n) EmptyString
         then path_join [n; "index.html"]
         else n
       else "index.html".

End PathMapperSpec.

(** ** Runs of the frontier loop *)

Section Runs.

Context {P : Platform}.
Variables (startUrl archivePath : string) (maxPagesToCrawl : Q).

(** [reaches st st']: the loop, entered in [st], is in [st'] after some
    number of iterations. *)
Inductive reaches (st : crawl_state) : crawl_state -> Prop :=
| reaches_here : reaches st st
| reaches_next st' st'' :
    reaches st st' ->
    loop_step startUrl archivePath maxPagesToCrawl st' = Some st'' ->
    reaches st st''.

(** The host of a URL given as a string. *)
Definition host_of (url : string) : option string :=
  option_map hostname (URL_new url).

(** The fetch log has no successful fetch of a URL before a later fetch of
    the same URL. *)
Definition no_refetch (log : list (string * bool)) : Prop :=
  forall before url ok after,
    log = before ++ (url, ok) :: after -> ~ In (url, true) before.

End Runs.

(** ** Pages without their malformed links *)

(** The platform [P] with another parser. *)
Definition with_parser (P : Platform) (load : string -> document) : Platform :=
  {| URL_new := @URL_new P;
     URL_new_base := @URL_new_base P;
     path_join := @path_join P;
     path_dirname := @path_dirname P;
     path_extname := @path_extname P;
     path_relative := @path_relative P;
     cheerio_load := load;
     World := @World P;
     axios_get := @axios_get P;
     toISOString := @toISOString P;
     dirname__ := @dirname__ P |}.

Section Dropped.

Context {P : Platform}.

(** An anchor whose href does not resolve against the URL of its page. *)
Definition malformed (url : string) (el : element) : bool :=
  Dom.is_anchor el
  && match Dom.attr "href" el with
     | Some h =>
         match URL_new_base h url with
         | None => true
         | Some _ => false
         end
     | None => false
     end.

(** [drops url d d']: the document [d'] is [d] without some of its anchors
    that are malformed on the page [url]. *)
Inductive drops (url : string) : document -> document -> Prop :=
| drops_nil : drops url [] []
| drops_keep el d d' : drops url d d' -> drops url (el :: d) (el :: d')
| drops_skip a d d' :
    malformed url a = true -> drops url d d' -> drops url (a :: d) d'.

(** Two operations on the disk that are the same but for malformed links
    left out of the page written. *)
Inductive same_file : fs_op -> fs_op -> Prop :=
| same_op o : same_file o o
| same_page file url d d' :
    drops url d d' ->
    same_file (WriteFile file (Html d)) (WriteFile file (Html d')).

(** What two fetches of a page return to the loop: the same, but for
    malformed links left out of the document. *)
Definition same_fetch (url : string) (r r' : system * option fetch_result) : Prop :=
  fst r = fst r'
  /\ match snd r, snd r' with
     | Some fr, Some fr' =>
         discoveredLinks fr = discoveredLinks fr'
         /\ drops url (fr_doc fr) (fr_doc fr')
     | None, None => True
     | _, _ => False
     end.

(** Two stores that hold the same pages but for malformed links left out. *)
Definition same_pages (m m' : list (string * document)) : Prop :=
  Forall2 (fun e e' => fst e = fst e' /\ drops (fst e) (snd e) (snd e')) m m'.

End Dropped.

(** Sessions on a platform and on the same platform with a parser that
    leaves malformed links out. *)

Section Compared.

Context {P : Platform}.
Variable load : string -> document.

(** Two states of the loop that agree but for malformed links left out of
    the pages stored. *)
Definition agree (st : @crawl_state P) (st' : @crawl_state (with_parser P load))
  : Prop :=
  queue st = queue st'
  /\ visited st = visited st'
  /\ sys st = sys st'
  /\ fetchLog st = fetchLog st'
  /\ same_pages (pageDataMap st) (pageDataMap st').

(** Two outcomes of [startCrawl] that agree but for malformed links left
    out of the pages stored and written. *)
Definition same_session (r : option (@session P))
           (r' : option (@session (with_parser P load))) : Prop :=
  match r, r' with
  | Some sess, Some sess' =>
      s_root sess = s_root sess'
      /\ agree (s_crawl sess) (s_crawl sess')
      /\ s_manifest sess = s_manifest sess'
      /\ net (s_system sess) = net (s_system sess')
      /\ Forall2 same_file (disk (s_system sess)) (disk (s_system sess'))
  | None, None => True
  | _, _ => False
  end.

End Compared.

(** ** Reading the disk *)

(** The paths of the HTML files written, oldest first. *)
Fixpoint html_files (d : list fs_op) : list string :=
  match d with
  | [] => []
  | WriteFile file (Html _) :: rest => file :: html_files rest
  | _ :: rest => html_files rest
  end.

(** ** Asset references *)

(** The [fileUrl] that the asset loop of [fetchPageAndAssets] reads off an
    element: the href of a stylesheet link, the first candidate of the
    srcset of an image or else its src, the src of a script. *)
Definition asset_reference (el : element) : option string :=
  if tagName el =? "link" then Dom.attr "href" el
  else if tagName el =? "img" then
    if Js.truthy (Dom.attr "srcset" el)
    then Some (first_srcset_candidate (Js.to_string (Dom.attr "srcset" el)))
    else Dom.attr "src" el
  else if tagName el =? "script" then Dom.attr "src" el
  else Some EmptyString.

(** The negation of [fileUrl && !fileUrl.startsWith('data:')]: the element
    has no reference, an empty one or a data URI. *)
Definition inline (el : element) : bool :=
  negb (Js.truthy (asset_reference el)
        && negb (Js.startsWith (Js.to_string (asset_reference el)) "data:")).

(** [s] has no occurrence of a character of the class [cls]. *)
Definition free_of (cls : ascii -> bool) (s : string) : Prop :=
  forall c, In c (list_ascii_of_string s) -> cls c = false.

(** ** The listing of the versions of a site

    [GET /api/archives/:domain]. *)

(** What the handler reads of the file system, taken not to change while
    the handler runs. *)
Class Storage := {
  (** [fs.readdir(dir)]: the names in [dir]; [None] when it rejects *)
  readdir : string -> option (list string);
  (** [fs.existsSync(path)] *)
  existsSync : string -> bool;
  (** [fs.readJson(path)]: [None] when it rejects; a file that parses holds
      a manifest as [startCrawl] writes them *)
  readJson : string -> option manifest;
  (** [a.localeCompare(b)]: negative, zero or positive *)
  localeCompare : string -> string -> Z
}.

Record version := mkVersion {
  v_id : string;
  v_startUrl : string;
  v_entrypoint : string;
  v_crawledPages : list string
}.

Inductive versions_reply :=
| Versions (versions : list version)
| Failure (code : nat) (message : string).

(** [arr.sort(compare)]: a stable sort, as the language requires. An
    element is placed before the first element of the sorted rest that
    [compare] does not put before it. *)
Fixpoint sort_insert {A : Type} (compare : A -> A -> Z) (x : A) (sorted : list A)
  : list A :=
  match sorted with
  | [] => [x]
  | y :: rest =>
      if (compare x y <=? 0)%Z then x :: sorted
      else y :: sort_insert compare x rest
  end.

Definition sort_by {A : Type} (compare : A -> A -> Z) (arr : list A) : list A :=
  fold_right (sort_insert compare) [] arr.

Section Listing.

Context {P : Platform} {F : Storage}.

Definition manifestPath (domainDir folder : string) : string :=
  path_join [domainDir; folder; "_manifest.json"].

(** The [for] loop over the version folders; [None] when [readJson]
    rejects. *)
Fixpoint collect_versions (domainDir : string) (versionFolders : list string)
  : option (list version) :=
  match versionFolders with
  | [] => Some []
  | folder :: rest =>
      if existsSync (manifestPath domainDir folder) then
        m <- readJson (manifestPath domainDir folder) ;;
        versionsWithData <- collect_versions domainDir rest ;;
        Some (mkVersion folder (m_startUrl m) (m_entrypoint m) (m_crawledPages m)
                :: versionsWithData)
      else collect_versions domainDir rest
  end.

Definition get_api_archives_domain (domain : string) : versions_reply :=
  let domainDir := path_join [dirname__; "archives"; domain] in
  match
    (versionFolders <- readdir domainDir ;;
     collect_versions domainDir versionFolders)
  with
  | Some versionsWithData =>
      Versions (sort_by (fun a b => localeCompare (v_id b) (v_id a))
                        versionsWithData)
  | None => Failure 500 "Failed to fetch versions."
  end.

End Listing.

(** ** The page

    The helpers of [App.js]. *)

Module App.

(** [/^https?:\/\//i.test(s)] *)
Definition has_http_scheme (s : string) : bool :=
  String.prefix "http://" (Js.lower_case s)
  || String.prefix "https://" (Js.lower_case s).

Definition normalizeUrl (urlString : string) : string :=
  let trimmedUrl := Js.trim urlString in
  if Js.is_empty trimmedUrl then EmptyString
  else if negb (has_http_scheme trimmedUrl) then ("https://" ++ trimmedUrl)%string
  else trimmedUrl.

(** The [url] of the body that [triggerArchive] posts to [/api/archive];
    [None]: the alert that the URL is empty, and no request. *)
Definition triggerArchive (urlToArchive : string) : option string :=
  let normalizedUrl := normalizeUrl urlToArchive in
  if Js.is_empty normalizedUrl then None else Some normalizedUrl.

(** [s.split(sep)[1]] for a one-character separator: what lies between the
    first and the second occurrence of [sep]; [None] is [undefined]. *)
Fixpoint split_second (sep : ascii) (s : string) : option string :=
  match s with
  | EmptyString => None
  | String c rest =>
      if Ascii.eqb c sep then Some (Js.split_first sep rest)
      else split_second sep rest
  end.

(** The [parsableDateString] of [formatTimestamp]; [None]: the
    [TypeError] of [undefined.replace]. *)
Definition parsableDateString (timestamp : string) : option string :=
  time <- split_second "T" timestamp ;;
  Some (Js.split_first "T" timestamp ++ "T"
          ++ Js.replace_class (Ascii.eqb "-"%char) ":" time)%string.

End App.

(** The [timestamp] of [startCrawl]: the name of the folder of a session,
    and its version id in the listing. *)
Definition timestamp {P : Platform} (w : World) : string :=
  Js.replace_class (Ascii.eqb ":"%char) "-" (toISOString w).

(** ** The names of asset files *)

(** The name that the asset loop gives to a file, read off the counters
    before and after. *)
Inductive named (c : counters) : counters -> string -> Prop :=
| named_style :
    named c (mkCounters (S (css c)) (img c) (js c))
          ("style-" ++ Js.of_nat (S (css c)) ++ ".css")
| named_image r :
    named c (mkCounters (css c) (S (img c)) (js c))
          ("image-" ++ Js.of_nat (S (img c)) ++ String "." r)
| named_script r :
    named c (mkCounters (css c) (img c) (S (js c)))
          ("script-" ++ Js.of_nat (S (js c)) ++ String "." r).

(** A name numbered above the counters. *)
Inductive later (c : counters) : string -> Prop :=
| later_style n :
    css c < n -> later c ("style-" ++ Js.of_nat n ++ ".css")
| later_image n r :
    img c < n -> later c ("image-" ++ Js.of_nat n ++ String "." r)
| later_script n r :
    js c < n -> later c ("script-" ++ Js.of_nat n ++ String "." r).

(** ** A concrete platform

    Enough of the platform to run the engine on small sites: URLs of the
    form [http://host/path?query#fragment] (no port, no dot segments, no
    escaping), POSIX paths without [.] and [..] segments, and markup made of
    tags whose attribute values are written between single quotes. On such
    inputs the functions below compute what the real platform computes. *)

Module Demo.

Definition chars := list ascii.

Fixpoint span (stop : ascii -> bool) (l : chars) : chars * chars :=
  match l with
  | [] => ([], [])
  | c :: rest =>
      if stop c then ([], l)
      else let r := span stop rest in (c :: fst r, snd r)
  end.

Definition str := string_of_list_ascii.
Definition lst := list_ascii_of_string.

Definition one_of (cs : chars) (c : ascii) : bool := existsb (Ascii.eqb c) cs.

(** *** URLs *)

Definition after_scheme (s : string) : option (string * string) :=
  if String.prefix "http://" s then Some ("http://", substring 7 (String.length s - 7) s)
  else if String.prefix "https://" s then Some ("https://", substring 8 (String.length s - 8) s)
  else None.

Definition url_new (s : string) : option URL :=
  sr <- after_scheme s ;;
  let host := span (one_of ["/"; "?"; "#"]%char) (lst (snd sr)) in
  if Js.is_empty (str (fst host)) then None
  else
    let path := span (one_of ["?"; "#"]%char) (snd host) in
    let pathname := Js.or_else (str (fst path)) "/" in
    Some (mkURL (fst sr ++ str (fst host) ++ pathname ++ str (snd path))%string
                (str (fst host)) pathname).

(** The directory of a URL path: up to and including its last slash. *)
Fixpoint url_dir (p : chars) : chars :=
  match p with
  | [] => []
  | c :: rest =>
      if one_of ["/"%char] c then
        if existsb (one_of ["/"%char]) rest then c :: url_dir rest else [c]
      else
        if existsb (one_of ["/"%char]) rest then c :: url_dir rest else []
  end.

Definition url_new_base (s base : string) : option URL :=
  match after_scheme s with
  | Some _ => url_new s
  | None =>
      b <- url_new base ;;
      sr <- after_scheme (href b) ;;
      let origin := (fst sr ++ hostname b)%string in
      let no_fragment := Js.split_first "#" (href b) in
      if Js.is_empty s then url_new no_fragment
      else if String.prefix "#" s then url_new (no_fragment ++ s)%string
      else if String.prefix "/" s then url_new (origin ++ s)%string
      else url_new (origin ++ str (url_dir (lst (pathname b))) ++ s)%string
  end.

(** *** Paths *)

Fixpoint segments (l : chars) : list string :=
  match l with
  | [] => [EmptyString]
  | c :: rest =>
      if one_of ["/"%char] c then EmptyString :: segments rest
      else match segments rest with
           | [] => [String c EmptyString]
           | s :: ss => String c s :: ss
           end
  end.

Definition split_path (p : string) : list string := segments (lst p).

Definition join (parts : list string) : string :=
  String.concat "/" (filter (fun s => negb (Js.is_empty s)) parts).

Definition dirname (p : string) : string :=
  String.concat "/" (removelast (split_path p)).

Fixpoint last_dot (l : chars) : option chars :=
  match l with
  | [] => None
  | c :: rest =>
      match last_dot rest with
      | Some e => Some e
      | None => if one_of ["."%char] c then Some l else None
      end
  end.

Definition extname (p : string) : string :=
  match lst (last (split_path p) EmptyString) with
  | [] => EmptyString
  | c :: rest =>
      match last_dot rest with
      | Some e => str e
      | None => EmptyString
      end
  end.

Fixpoint relative_segments (from to : list string) : list string :=
  match from, to with
  | f :: from', t :: to' =>
      if String.eqb f t then relative_segments from' to'
      else map (fun _ => "..") from ++ to
  | _, _ => map (fun _ => "..") from ++ to
  end.

Definition relative (from to : string) : string :=
  String.concat "/" (relative_segments (split_path from) (split_path to)).

(** *** Markup *)

Inductive lexer :=
| Text
| Closing
| TagName (name : chars)
| Attrs (tag : string) (attrs : list (string * string))
| AttrName (tag : string) (attrs : list (string * string)) (name : chars)
| AttrValue (tag : string) (attrs : list (string * string)) (name : string)
            (value : chars).

Definition quote : ascii := "'"%char.

Definition lex (st : lexer * document) (c : ascii) : lexer * document :=
  let doc := snd st in
  match fst st with
  | Text => if one_of ["<"%char] c then (TagName [], doc) else (Text, doc)
  | Closing => if one_of [">"%char] c then (Text, doc) else (Closing, doc)
  | TagName name =>
      if one_of ["/"%char] c then (Closing, doc)
      else if one_of [">"%char] c then (Text, doc ++ [mkElement (str name) []])
      else if one_of [" "%char] c then (Attrs (str name) [], doc)
      else (TagName (name ++ [c]), doc)
  | Attrs tag attrs =>
      if one_of [">"%char] c then (Text, doc ++ [mkElement tag attrs])
      else if one_of [" "%char] c then (Attrs tag attrs, doc)
      else (AttrName tag attrs [c], doc)
  | AttrName tag attrs name =>
      if one_of ["="%char] c then (AttrName tag attrs name, doc)
      else if Ascii.eqb c quote then (AttrValue tag attrs (str name) [], doc)
      else (AttrName tag attrs (name ++ [c]), doc)
  | AttrValue tag attrs name value =>
      if Ascii.eqb c quote then (Attrs tag (attrs ++ [(name, str value)]), doc)
      else (AttrValue tag attrs name (value ++ [c]), doc)
  end.

Definition load (html : string) : document :=
  snd (fold_left lex (lst html) (Text, [])).

(** *** The network

    The world is the number of requests made so far; [web n url] is the
    answer to a request for [url] made when [n] requests came before. *)

Definition platform (web : nat -> string -> option string) : Platform :=
  {| URL_new := url_new;
     URL_new_base := url_new_base;
     path_join := join;
     path_dirname := dirname;
     path_extname := extname;
     path_relative := relative;
     cheerio_load := load;
     World := nat;
     axios_get := fun n url => (S n, web n url);
     toISOString := fun _ => "2025-09-14T10:00:00.000Z";
     dirname__ := "/srv/backend" |}.

(** A site that always answers the same. *)
Definition static (pages : list (string * string)) : nat -> string -> option string :=
  fun _ url => Dom.lookup url pages.

Definition boot {P : Platform} (w : World) : system := mkSystem w [].

End Demo.


(** ** Small sites

    Sites on the host [h], served by the concrete platform, on which the
    engine is run below. *)

Module Sites.

(** The home page links to [/a], which does not exist, and to [/b], which
    links back to [/a] and to the home page. *)
Definition two_pages : Platform :=
  Demo.platform
    (Demo.static
       [("http://h/", "<a href='/a'>x</a><a href='/b#f'>y</a><img src='/i.png'>");
        ("http://h/b", "<a href='/a'>x</a><a href='/'>y</a>");
        ("http://h/i.png", "PNG")]).

(** The home page holds an anchor whose href is empty. *)
Definition empty_href : Platform :=
  Demo.platform (Demo.static [("http://h/", "<a href=''>top</a>")]).

(** The home page holds an image whose source is not a URL: [http://] has
    no host. *)
Definition bad_asset : Platform :=
  Demo.platform (Demo.static [("http://h/", "<img src='http://'>")]).

(** Nothing answers. *)
Definition dead : Platform := Demo.platform (Demo.static []).

Definition home : string := "http://h/".

(** The session directory of a session started at [home]. *)
Definition root : string := "/srv/backend/archives/h/2025-09-14T10-00-00.000Z".

(** The state in which a session started at [home] on [two_pages] enters
    the loop. *)
Definition entered : @crawl_state two_pages :=
  @initial_state two_pages (@Demo.boot two_pages 0) home root.

End Sites.

(** ** More sites *)

Module MoreSites.

(** The home page holds an inline image and a link to [/b], which does not
    exist. *)
Definition inline_image : Platform :=
  Demo.platform
    (Demo.static
       [("http://h/", "<img src='data:image/png;base64,AAAA'><a href='/b'>b</a>")]).

(** The home page holds a link with no host and a link to [/b], which
    links back. *)
Definition hostless_link : Platform :=
  Demo.platform
    (Demo.static
       [("http://h/", "<a href='http://'>x</a><a href='/b'>y</a>");
        ("http://h/b", "<a href='/'>home</a>")]).


(** The home page holds an image that exists and, after it, an image
    whose source is not a URL. *)
Definition stray_image : Platform :=
  Demo.platform
    (Demo.static
       [("http://h/", "<img src='/i.png'><img src='http://'>");
        ("http://h/i.png", "PNG")]).

(** The home page holds a stylesheet whose [rel] is not in lower case. *)
Definition styled : Platform :=
  Demo.platform
    (Demo.static
       [("http://h/", "<link rel='Stylesheet' href='/s.css'>");
        ("http://h/s.css", "CSS")]).

(** The home page links to two pages that differ in their query only. *)
Definition queries : Platform :=
  Demo.platform
    (Demo.static
       [("http://h/", "<a href='/p?x=1'>one</a><a href='/p?x=2'>two</a>");
        ("http://h/p?x=1", "<p>");
        ("http://h/p?x=2", "<p>")]).

(** An anchor whose href is [http://]. *)
Definition hostless (el : element) : bool :=
  Dom.is_anchor el
  && match Dom.attr "href" el with
     | Some h => h =? "http://"
     | None => false
     end.

(** The parser of the concrete platform, leaving the anchors without a
    host out. *)
Definition load_with_host (html : string) : document :=
  filter (fun el => negb (hostless el)) (Demo.load html).

(** The home page holds two images and a stylesheet. *)
Definition gallery : document :=
  [mkElement "img" [("src", "/a.png")];
   mkElement "link" [("rel", "stylesheet"); ("href", "/s.css")];
   mkElement "img" [("src", "/b")]].

(** The archives of the host [h]: two sessions with their manifests and a
    folder without one. *)
Definition first_manifest : manifest :=
  mkManifest "http://h/" "index.html" "2025-09-14T10:00:03.000Z"
             ["http://h/"; "http://h/b"].

Definition second_manifest : manifest :=
  mkManifest "http://h/b" "b/index.html" "2025-09-15T10:00:01.000Z" ["http://h/b"].

Definition shelf : Storage :=
  {| readdir := fun dir =>
       if dir =? "/srv/backend/archives/h"
       then Some ["2025-09-14T10-00-00.000Z"; "running";
                  "2025-09-15T10-00-00.000Z"]
       else None;
     existsSync := fun path =>
       (path =? "/srv/backend/archives/h/2025-09-14T10-00-00.000Z/_manifest.json")
       || (path =? "/srv/backend/archives/h/2025-09-15T10-00-00.000Z/_manifest.json");
     readJson := fun path =>
       if path =? "/srv/backend/archives/h/2025-09-14T10-00-00.000Z/_manifest.json"
       then Some first_manifest
       else if path =? "/srv/backend/archives/h/2025-09-15T10-00-00.000Z/_manifest.json"
            then Some second_manifest
            else None;
     localeCompare := fun a b =>
       match String.compare a b with
       | Lt => (-1)%Z
       | Eq => 0%Z
       | Gt => 1%Z
       end |}.

End MoreSites.

(** * Properties *)

(** ** Strings, sets, maps *)

Section JsFacts.

Lemma includes_In (arr : list string) (x : string) :
  Js.includes arr x = true <-> In x arr.
Proof.
  unfold Js.includes. rewrite existsb_exists. split.
  - intros (y & Hy & Heq). apply String.eqb_eq in Heq. now subst.
  - intros Hx. exists x. split; [ assumption | apply String.eqb_refl ].
Qed.

Lemma includes_not_In (arr : list string) (x : string) :
  Js.includes arr x = false <-> ~ In x arr.
Proof.
  rewrite <- includes_In. destruct (Js.includes arr x); intuition congruence.
Qed.

Lemma set_add_In (set : list string) (x y : string) :
  In y (Js.set_add set x) <-> In y set \/ y = x.
Proof.
  unfold Js.set_add. destruct (Js.includes set x) eqn:Hx.
  - apply includes_In in Hx. split; [ tauto | ].
    intros [ H | -> ]; assumption.
  - rewrite in_app_iff. simpl. intuition congruence.
Qed.

Lemma set_add_NoDup (set : list string) (x : string) :
  NoDup set -> NoDup (Js.set_add set x).
Proof.
  intros Hnd. unfold Js.set_add. destruct (Js.includes set x) eqn:Hx.
  - assumption.
  - apply includes_not_In in Hx.
    apply NoDup_rev in Hnd. rewrite <- (rev_involutive (set ++ [x])).
    apply NoDup_rev. rewrite rev_app_distr. simpl. constructor.
    + now rewrite <- in_rev.
    + assumption.
Qed.

Lemma set_add_grows (set : list string) (x : string) :
  exists more, Js.set_add set x = set ++ more.
Proof.
  unfold Js.set_add. destruct (Js.includes set x).
  - exists []. now rewrite app_nil_r.
  - now exists [x].
Qed.

Lemma fold_set_add_In (arr acc : list string) (y : string) :
  In y (fold_left Js.set_add arr acc) <-> In y acc \/ In y arr.
Proof.
  revert acc. induction arr as [ | x arr IH ]; intros acc; simpl.
  - tauto.
  - rewrite IH, set_add_In. intuition congruence.
Qed.

Lemma dedupe_In (arr : list string) (y : string) :
  In y (Js.dedupe arr) <-> In y arr.
Proof.
  unfold Js.dedupe. rewrite fold_set_add_In. simpl. tauto.
Qed.

Lemma map_set_keys {V : Type} (m : list (string * V)) (k : string) (v : V) :
  map fst (Js.map_set m k v) = Js.set_add (map fst m) k.
Proof.
  induction m as [ | [k' v'] m IH ]; [ reflexivity | ].
  unfold Js.set_add, Js.includes in *. simpl.
  rewrite (String.eqb_sym k k'). destruct (String.eqb k' k); simpl.
  - reflexivity.
  - rewrite IH. destruct (existsb (String.eqb k) (map fst m)); reflexivity.
Qed.

Lemma map_set_In {V : Type} (m : list (string * V)) (k : string) (v : V)
      (k0 : string) (v0 : V) :
  In (k0, v0) (Js.map_set m k v) -> In (k0, v0) m \/ (k0 = k /\ v0 = v).
Proof.
  induction m as [ | [k' v'] m IH ]; simpl.
  - intros [ [= <- <-] | [] ]. now right.
  - destruct (String.eqb k' k) eqn:Hk; simpl.
    + apply String.eqb_eq in Hk. subst k'.
      intros [ [= <- <-] | H ]; [ now right | left; now right ].
    + intros [ H | H ]; [ left; now left | ].
      destruct (IH H) as [ H' | H' ]; [ left; now right | now right ].
Qed.

(** The order of [Array.prototype.sort] is transitive. *)
Lemma string_compare_Lt_trans (a b c : string) :
  String.compare a b = Lt -> String.compare b c = Lt -> String.compare a c = Lt.
Proof.
  revert b c. induction a as [ | x a IH ]; intros [ | y b ] [ | z c ];
    simpl; try congruence.
  unfold Ascii.compare.
  destruct (N.compare_spec (N_of_ascii x) (N_of_ascii y)) as [ Hxy | Hxy | Hxy ];
    destruct (N.compare_spec (N_of_ascii y) (N_of_ascii z)) as [ Hyz | Hyz | Hyz ];
    try congruence; intros H1 H2.
  - rewrite Hxy, Hyz, N.compare_refl. eauto.
  - now rewrite Hxy, (proj2 (N.compare_lt_iff _ _) Hyz).
  - now rewrite <- Hyz, (proj2 (N.compare_lt_iff _ _) Hxy).
  - assert (Hxz : (N_of_ascii x < N_of_ascii z)%N) by lia.
    now rewrite (proj2 (N.compare_lt_iff _ _) Hxz).
Qed.

Lemma string_compare_refl (a : string) : String.compare a a = Eq.
Proof.
  induction a as [ | x a IH ]; simpl; [ reflexivity | ].
  unfold Ascii.compare. now rewrite N.compare_refl.
Qed.

Lemma string_leb_trans (a b c : string) :
  String.leb a b = true -> String.leb b c = true -> String.leb a c = true.
Proof.
  unfold String.leb.
  destruct (String.compare a b) eqn:Hab; try discriminate;
    destruct (String.compare b c) eqn:Hbc; try discriminate; intros _ _.
  - apply String.compare_eq_iff in Hab, Hbc. subst.
    now rewrite string_compare_refl.
  - apply String.compare_eq_iff in Hab. subst. now rewrite Hbc.
  - apply String.compare_eq_iff in Hbc. subst. now rewrite Hab.
  - now rewrite (string_compare_Lt_trans _ _ _ Hab Hbc).
Qed.

End JsFacts.

(** ** The path mapper *)

Section PathMapper.

Context {P : Platform}.

Lemma strip_slashes_inner (s : string) :
  Js.strip_slashes_from false s = PathMapperSpec.strip_trailing_slash s.
Proof.
  induction s as [ | c rest IH ]; simpl; [ reflexivity | ].
  destruct (Js.is_slash c && Js.is_empty rest) eqn:Hlast.
  - apply andb_true_iff in Hlast. destruct Hlast as [_ Hrest].
    destruct rest; [ reflexivity | discriminate ].
  - now rewrite IH.
Qed.

Lemma strip_slashes_both_ends (s : string) :
  Js.strip_slashes s
  = PathMapperSpec.strip_trailing_slash (PathMapperSpec.strip_leading_slash s).
Proof.
  unfold Js.strip_slashes. destruct s as [ | c rest ]; simpl; [ reflexivity | ].
  destruct (Js.is_slash c) eqn:Hc; simpl.
  - apply strip_slashes_inner.
  - rewrite Hc. simpl. now rewrite strip_slashes_inner.
Qed.

Lemma unsafe_path_char_spec (c : ascii) :
  unsafe_path_char c = true <-> In c PathMapperSpec.unsafe.
Proof.
  unfold unsafe_path_char. rewrite existsb_exists. split.
  - intros (x & Hx & Heq). apply Ascii.eqb_eq in Heq. now subst.
  - intros Hc. exists c. split; [ assumption | apply Ascii.eqb_refl ].
Qed.

Lemma replace_unsafe_sanitise (s : string) :
  Js.replace_class unsafe_path_char "_" s = PathMapperSpec.sanitise s.
Proof.
  unfold PathMapperSpec.sanitise.
  induction s as [ | c rest IH ]; simpl; [ reflexivity | ].
  unfold PathMapperSpec.underscore_unsafe at 1.
  destruct (in_dec ascii_dec c PathMapperSpec.unsafe) as [ Hc | Hc ].
  - apply unsafe_path_char_spec in Hc. rewrite Hc. simpl. now rewrite IH.
  - destruct (unsafe_path_char c) eqn:Hu.
    + apply unsafe_path_char_spec in Hu. contradiction.
    + now rewrite IH.
Qed.

Lemma is_empty_dec (s : string) :
  Js.is_empty s = if string_dec s EmptyString then true else false.
Proof. destruct s; reflexivity. Qed.

(** C6. For URLs that parse, the path mapper returns the archive path
    joined with the name the specification describes: the path component
    with one leading and one trailing slash stripped and every unsafe
    character replaced by an underscore; [index.html] when that is empty
    or the host differs from the start host; [index.html] beneath it when
    it has no extension; the name itself otherwise. *)
Theorem getLocalFilePathForPage_as_specified
        (url startUrl archivePath : string) (u start : URL) :
  URL_new url = Some u ->
  URL_new startUrl = Some start ->
  getLocalFilePathForPage url startUrl archivePath
  = Some (path_join [archivePath; PathMapperSpec.name u start]).
Proof.
  intros Hu Hs. unfold getLocalFilePathForPage. rewrite Hu, Hs. simpl.
  do 2 f_equal. f_equal. unfold PathMapperSpec.name.
  rewrite strip_slashes_both_ends, replace_unsafe_sanitise.
  set (n := PathMapperSpec.sanitise _).
  rewrite !is_empty_dec.
  destruct (string_dec n EmptyString) as [ Hn | Hn ]; simpl; [ reflexivity | ].
  destruct (string_dec (hostname u) (hostname start)) as [ Hh | Hh ].
  - rewrite Hh, String.eqb_refl. simpl.
    destruct (string_dec (path_extname n) EmptyString); reflexivity.
  - apply String.eqb_neq in Hh. now rewrite Hh.
Qed.

Lemma getLocalFilePathForPage_defined (url startUrl archivePath : string) :
  URL_new url <> None -> URL_new startUrl <> None ->
  getLocalFilePathForPage url startUrl archivePath <> None.
Proof.
  unfold getLocalFilePathForPage.
  destruct (URL_new url); [ | congruence ].
  destruct (URL_new startUrl); [ | congruence ].
  simpl. congruence.
Qed.

Lemma getLocalFilePathForPage_parses (url startUrl archivePath p : string) :
  getLocalFilePathForPage url startUrl archivePath = Some p ->
  URL_new url <> None /\ URL_new startUrl <> None.
Proof.
  unfold getLocalFilePathForPage.
  destruct (URL_new url); [ | discriminate ].
  destruct (URL_new startUrl); [ | discriminate ].
  split; congruence.
Qed.

End PathMapper.

(** ** The session trigger *)

Section Trigger.

(** The budget the handler passes on. *)
Lemma gt_zero (n : Q) :
  (Js.gt n 0 = true <-> (0 < n)%Q) /\ (Js.gt n 0 = false <-> (n <= 0)%Q).
Proof.
  unfold Js.gt. pose proof (js_lt_spec 0 n) as Hspec.
  destruct (Js.lt 0 n); split; split; try discriminate; try reflexivity.
  - intros _. now apply Hspec.
  - intros Hle. exfalso. apply (Qle_not_lt _ _ Hle). now apply Hspec.
  - intros Hlt. apply Hspec in Hlt. discriminate.
  - intros _. apply Qnot_lt_le. intros Hlt. apply Hspec in Hlt. discriminate.
Qed.

Lemma launched_budget_positive (body : request_body) (url : string) (budget : Q) :
  h_launched (post_api_archive body) = Some (url, budget) -> (0 < budget)%Q.
Proof.
  unfold post_api_archive.
  destruct (negb (Js.truthy (body_url body))); simpl; [ discriminate | ].
  intros [= _ <-]. destruct (body_maxPages body) as [ n | ]; [ | reflexivity ].
  destruct (Js.gt n 0) eqn:Hn; [ now apply gt_zero | reflexivity ].
Qed.

(** C9, the claim as stated fails: a body whose [url] is present but is
    the empty string is answered with status 400 and launches nothing. *)
Lemma post_api_archive_rejects_empty_url :
  body_url (mkBody (Some EmptyString) (Some 3%Q)) <> None
  /\ post_api_archive (mkBody (Some EmptyString) (Some 3%Q))
     = mkHandled (Status 400 "URL is required") None.
Proof. split; [ discriminate | reflexivity ]. Qed.

(** C9, amended. The handler answers 400 and launches no session exactly
    when [url] is absent or the empty string; otherwise it launches a
    session on [url] and answers at once, with budget [maxPages] when
    [maxPages > 0] and 10 when [maxPages] is absent or not positive. *)
Theorem post_api_archive_as_amended (body : request_body) :
  (h_launched (post_api_archive body) = None
   <-> body_url body = None \/ body_url body = Some EmptyString)
  /\ (h_response (post_api_archive body) = Status 400 "URL is required"
      <-> body_url body = None \/ body_url body = Some EmptyString)
  /\ (forall url, body_url body = Some url -> url <> EmptyString ->
      exists budget,
        post_api_archive body
        = mkHandled (Json ("Archiving process for " ++ url ++ " has started."))
                    (Some (url, budget))
        /\ (forall n, body_maxPages body = Some n -> (0 < n)%Q -> budget = n)
        /\ (forall n, body_maxPages body = Some n -> (n <= 0)%Q -> budget = 10%Q)
        /\ (body_maxPages body = None -> budget = 10%Q)).
Proof.
  unfold post_api_archive.
  destruct body as [ [ [ | c url ] | ] maxPages ]; simpl.
  - repeat split; try tauto; try congruence.
  - repeat split; try (intros; discriminate); try (intros [ ? | ? ]; discriminate).
    intros u [= <-] _. eexists. split; [ reflexivity | ].
    destruct maxPages as [ n | ]; repeat split; try congruence.
    + intros m [= <-] Hm. apply (proj1 (gt_zero n)) in Hm. now rewrite Hm.
    + intros m [= <-] Hm. apply (proj2 (gt_zero n)) in Hm. now rewrite Hm.
  - repeat split; try tauto; try congruence.
Qed.

End Trigger.

(** ** The page fetcher *)

Section Fetcher.

Context {P : Platform}.

Lemma analyse_page_inv (url archivePath startUrl : string) (doc : document)
      (discovered : list string) (localPagePath : string)
      (ds : list (option download)) :
  analyse_page url archivePath startUrl doc = Some (discovered, localPagePath, ds) ->
  exists start page,
    URL_new startUrl = Some start
    /\ URL_new url = Some page
    /\ discovered = discoverLinks url (hostname start) doc
    /\ getLocalFilePathForPage url startUrl archivePath = Some localPagePath
    /\ collect_assets url archivePath
         (Js.replace_class unsafe_id_char "_"
            (Js.or_else (Js.strip_slashes (pathname page)) "index"))
         doc (mkCounters 0 0 0) = Some ds.
Proof.
  unfold analyse_page.
  destruct (URL_new startUrl) as [ start | ]; [ simpl | discriminate ].
  destruct (getLocalFilePathForPage url startUrl archivePath) as [ lp | ];
    [ simpl | discriminate ].
  destruct (URL_new url) as [ page | ]; [ simpl | discriminate ].
  destruct (collect_assets _ _ _ _ _) as [ ds' | ] eqn:Hds; [ simpl | discriminate ].
  intros [= <- <- <-]. exists start, page. repeat split; assumption.
Qed.

Lemma process_success_inv (s s' : system) (url archivePath startUrl : string)
      (doc : document) (fr : fetch_result) :
  process_page s url archivePath startUrl doc = (s', Some fr) ->
  exists discovered localPagePath ds,
    analyse_page url archivePath startUrl doc = Some (discovered, localPagePath, ds)
    /\ s' = fst (settle_all localPagePath s doc ds)
    /\ fr = mkFetchResult (snd (settle_all localPagePath s doc ds))
                          (Js.dedupe discovered).
Proof.
  unfold process_page.
  destruct (analyse_page url archivePath startUrl doc)
    as [ [ [ discovered lp ] ds ] | ] eqn:Ha; [ | discriminate ].
  intros [= <- <-]. exists discovered, lp, ds. auto.
Qed.

Lemma fetch_success_inv (s s' : system) (url archivePath startUrl : string)
      (fr : fetch_result) :
  fetchPageAndAssets s url archivePath startUrl = (s', Some fr) ->
  exists w html,
    axios_get (net s) url = (w, Some html)
    /\ process_page (mkSystem w (disk s)) url archivePath startUrl
                    (cheerio_load html) = (s', Some fr).
Proof.
  unfold fetchPageAndAssets.
  destruct (axios_get (net s) url) as [ w [ html | ] ]; [ | discriminate ].
  intros Hp. exists w, html. auto.
Qed.

Lemma fetch_analysed (s s' : system) (url archivePath startUrl : string)
      (fr : fetch_result) :
  fetchPageAndAssets s url archivePath startUrl = (s', Some fr) ->
  exists doc start page localPagePath,
    URL_new startUrl = Some start
    /\ URL_new url = Some page
    /\ getLocalFilePathForPage url startUrl archivePath = Some localPagePath
    /\ discoveredLinks fr = Js.dedupe (discoverLinks url (hostname start) doc).
Proof.
  intros Hf. destruct (fetch_success_inv _ _ _ _ Hf) as (w & html & _ & Hp).
  destruct (process_success_inv _ _ _ _ _ Hp) as (discovered & lp & ds & Ha & _ & ->).
  destruct (analyse_page_inv _ _ _ _ Ha) as (start & page & Hs & Hu & -> & Hlp & _).
  exists (cheerio_load html), start, page, lp. auto.
Qed.

(** Every link a page hands to the frontier passed the same-host filter. *)
Lemma discover_link_same_host (url startDomain : string) (el : element)
      (link : string) :
  In link (discover_link url startDomain el) ->
  host_of link = Some startDomain.
Proof.
  unfold discover_link, host_of.
  destruct (Dom.attr "href" el) as [ h | ]; [ | intros [] ].
  destruct (Js.is_empty h); [ intros [] | ].
  destruct (URL_new_base h url) as [ u | ]; simpl; [ | intros [] ].
  destruct (URL_new (Js.split_first "#" (href u))) as [ u' | ] eqn:Hu';
    simpl; [ | intros [] ].
  destruct (hostname u' =? startDomain) eqn:Hh; [ | intros [] ].
  intros [ <- | [] ]. rewrite Hu'. simpl. f_equal. now apply String.eqb_eq.
Qed.

Lemma fetched_links_same_host (s s' : system) (url archivePath startUrl : string)
      (fr : fetch_result) (link : string) :
  fetchPageAndAssets s url archivePath startUrl = (s', Some fr) ->
  In link (discoveredLinks fr) ->
  host_of startUrl <> None /\ host_of link = host_of startUrl.
Proof.
  intros Hf Hin.
  destruct (fetch_analysed _ _ _ _ Hf) as (doc & start & page & lp & Hs & _ & _ & Hd).
  rewrite Hd in Hin. apply (proj1 (dedupe_In _ _)) in Hin.
  unfold discoverLinks in Hin. apply (proj1 (in_flat_map _ _ _)) in Hin.
  destruct Hin as (el & _ & Hel).
  unfold host_of at 1 3. rewrite Hs. simpl. split; [ discriminate | ].
  eapply discover_link_same_host; eassumption.
Qed.

Lemma fetched_page_has_path (s s' : system) (url archivePath startUrl : string)
      (fr : fetch_result) :
  fetchPageAndAssets s url archivePath startUrl = (s', Some fr) ->
  getLocalFilePathForPage url startUrl archivePath <> None.
Proof.
  intros Hf.
  destruct (fetch_analysed _ _ _ _ Hf) as (doc & start & page & lp & _ & _ & Hlp & _).
  congruence.
Qed.

End Fetcher.

(** ** The frontier loop *)

Section Frontier.

Context {P : Platform}.
Variables (startUrl archivePath : string) (maxPagesToCrawl : Q).

Local Notation "'step'" := (loop_step startUrl archivePath maxPagesToCrawl).
Local Notation "'run'" := (phase1 startUrl archivePath maxPagesToCrawl).
Local Notation "st '~>*' st'" := (reaches startUrl archivePath maxPagesToCrawl st st')
  (at level 70).

(** The loop, unfolded once. *)
Lemma phase1_step (st : crawl_state) :
  run st = match step st with
           | Some st' => run st'
           | None => st
           end.
Proof.
  rewrite phase1_unfold_eq. unfold phase1_unfold, inspect.
  enough (Hgen : forall o (H : step st = o),
             phase1_unfold_clause_1 startUrl archivePath maxPagesToCrawl st
               (exist _ o H)
             = match o with
               | Some st' => run st'
               | None => st
               end) by apply Hgen.
  intros [ st' | ] H; reflexivity.
Qed.

(** The three ways through the loop body. *)
Lemma loop_step_cases (st st' : crawl_state) :
  step st = Some st' ->
  (Js.size (visited st) < maxPagesToCrawl)%Q
  /\ exists currentUrl rest,
      queue st = currentUrl :: rest
      /\ ((In currentUrl (visited st)
           /\ st' = mkState rest (visited st) (pageDataMap st) (sys st) (fetchLog st))
          \/ (~ In currentUrl (visited st)
              /\ exists s',
                fetchPageAndAssets (sys st) currentUrl archivePath startUrl
                = (s', None)
                /\ st' = mkState rest (visited st) (pageDataMap st) s'
                                 (fetchLog st ++ [(currentUrl, false)]))
          \/ (~ In currentUrl (visited st)
              /\ exists s' fr,
                fetchPageAndAssets (sys st) currentUrl archivePath startUrl
                = (s', Some fr)
                /\ st' = mkState
                           (fold_left (enqueue (visited st ++ [currentUrl]))
                                      (discoveredLinks fr) rest)
                           (visited st ++ [currentUrl])
                           (Js.map_set (pageDataMap st) currentUrl (fr_doc fr))
                           s'
                           (fetchLog st ++ [(currentUrl, true)]))).
Proof.
  unfold loop_step. destruct (loop_cond maxPagesToCrawl st) eqn:Hc; [ | discriminate ].
  intros [= <-]. unfold loop_cond in Hc. apply andb_true_iff in Hc.
  destruct Hc as [Hq Hv]. apply Nat.ltb_lt in Hq. apply js_lt_spec in Hv.
  split; [ assumption | ].
  unfold loop_body. destruct (queue st) as [ | u rest ]; [ simpl in Hq; lia | ].
  exists u, rest. split; [ reflexivity | ].
  destruct (Js.includes (visited st) u) eqn:Hin.
  - left. apply includes_In in Hin. now split.
  - right. pose proof (proj1 (includes_not_In _ _) Hin) as Hnot.
    destruct (fetchPageAndAssets (sys st) u archivePath startUrl)
      as [ s' [ fr | ] ] eqn:Hf; simpl.
    + right. split; [ assumption | ]. exists s', fr. split; [ reflexivity | ].
      unfold Js.set_add. rewrite Hin. reflexivity.
    + left. split; [ assumption | ]. exists s'. now split.
Qed.

Lemma reaches_trans (a b c : crawl_state) : a ~>* b -> b ~>* c -> a ~>* c.
Proof.
  intros Hab Hbc. induction Hbc as [ | c c' _ IH Hstep ].
  - assumption.
  - eapply reaches_next; eassumption.
Qed.

(** A property that holds on entry and that every iteration preserves
    holds at every iteration boundary. *)
Lemma reaches_invariant (Inv : crawl_state -> Prop) (st0 : crawl_state) :
  Inv st0 ->
  (forall st st', Inv st -> step st = Some st' -> Inv st') ->
  forall st, st0 ~>* st -> Inv st.
Proof.
  intros H0 Hkeep st Hr. induction Hr; eauto.
Qed.

(** The loop runs to its exit. *)
Lemma phase1_reaches (st : crawl_state) : st ~>* run st.
Proof.
  induction st as [ st IH ] using (well_founded_induction
                                     (iterates_wf startUrl archivePath maxPagesToCrawl)).
  rewrite phase1_step. destruct (step st) as [ st' | ] eqn:Hstep.
  - eapply reaches_trans; [ | apply IH; exact Hstep ].
    eapply reaches_next; [ apply reaches_here | exact Hstep ].
  - apply reaches_here.
Qed.

Lemma phase1_exits (st : crawl_state) : step (run st) = None.
Proof.
  induction st as [ st IH ] using (well_founded_induction
                                     (iterates_wf startUrl archivePath maxPagesToCrawl)).
  rewrite phase1_step. destruct (step st) as [ st' | ] eqn:Hstep.
  - apply IH. exact Hstep.
  - exact Hstep.
Qed.

(** *** The visited set *)

Lemma step_visited_grows (st st' : crawl_state) :
  step st = Some st' -> exists more, visited st' = visited st ++ more.
Proof.
  intros Hstep. destruct (loop_step_cases _ Hstep)
    as (_ & u & rest & _ & [ (_ & ->) | [ (_ & s' & _ & ->) | (_ & s' & fr & _ & ->) ] ]);
    simpl.
  - exists []. now rewrite app_nil_r.
  - exists []. now rewrite app_nil_r.
  - now exists [u].
Qed.

Lemma reaches_visited_grows (st st' : crawl_state) :
  st ~>* st' -> exists more, visited st' = visited st ++ more.
Proof.
  intros Hr. induction Hr as [ | st' st'' _ (more & IH) Hstep ].
  - exists []. now rewrite app_nil_r.
  - destruct (step_visited_grows _ Hstep) as (more' & Hgrow).
    exists (more ++ more'). now rewrite Hgrow, IH, app_assoc.
Qed.

(** The visited set never outgrows the ceiling of the budget. *)
Lemma visited_within (s : system) (st : crawl_state) :
  (0 <= maxPagesToCrawl)%Q ->
  initial_state s startUrl archivePath ~>* st ->
  (Z.of_nat (length (visited st)) <= Qceiling maxPagesToCrawl)%Z.
Proof.
  intros Hmax Hr. revert st Hr.
  apply (reaches_invariant
           (fun st => (Z.of_nat (length (visited st))
                       <= Qceiling maxPagesToCrawl)%Z)).
  - simpl. change 0%Z with (Qceiling 0). now apply Qceiling_resp_le.
  - intros a b Ha Hstep. destruct (loop_step_cases _ Hstep)
      as (Hlt & u & rest & _ &
          [ (_ & ->) | [ (_ & s' & _ & ->) | (_ & s' & fr & _ & ->) ] ]);
      simpl; try assumption.
    apply size_below_ceiling in Hlt. rewrite length_app. simpl. lia.
Qed.

(** What the ceiling bound says of the size itself. *)
Lemma within_ceiling {A : Type} (l : list A) (q : Q) :
  (Z.of_nat (length l) <= Qceiling q)%Z ->
  (Js.size l < q + 1)%Q
  /\ (forall n : Z, (q == inject_Z n)%Q -> (Z.of_nat (length l) <= n)%Z).
Proof.
  intros Hle. split.
  - unfold Js.size. rewrite Zle_Qle in Hle.
    pose proof (Qceiling_lt q) as Hc. unfold Z.sub in Hc.
    rewrite inject_Z_plus in Hc.
    change (inject_Z (- (1))) with (- (1))%Q in Hc. lra.
  - intros n Hn. rewrite Hn in Hle. now rewrite Qceiling_Z in Hle.
Qed.

Lemma visited_NoDup (s : system) (st : crawl_state) :
  initial_state s startUrl archivePath ~>* st -> NoDup (visited st).
Proof.
  intros Hr. revert st Hr.
  apply (reaches_invariant (fun st => NoDup (visited st))).
  - constructor.
  - intros a b Ha Hstep. destruct (loop_step_cases _ Hstep)
      as (_ & u & rest & _ &
          [ (_ & ->) | [ (_ & s' & _ & ->) | (Hu & s' & fr & _ & ->) ] ]);
      simpl; try assumption.
    apply includes_not_In in Hu.
    pose proof (set_add_NoDup u Ha) as Hnd. unfold Js.set_add in Hnd.
    now rewrite Hu in Hnd.
Qed.

(** C3, amended. In every session the trigger launches, at every
    iteration boundary of the loop of pass 1 the visited set has fewer
    than [maxPagesToCrawl + 1] elements, which is at most
    [maxPagesToCrawl] of them when [maxPagesToCrawl] is a whole number;
    from there on the visited set only grows (every later visited set
    extends it); and the loop exits, in a state of which the same holds. *)
Theorem visited_grows_within_budget (body : request_body) (s : system)
        (st : crawl_state) :
  h_launched (post_api_archive body) = Some (startUrl, maxPagesToCrawl) ->
  initial_state s startUrl archivePath ~>* st ->
  (Js.size (visited st) < maxPagesToCrawl + 1)%Q
  /\ (forall n : Z, (maxPagesToCrawl == inject_Z n)%Q ->
                    (Z.of_nat (length (visited st)) <= n)%Z)
  /\ (forall st', st ~>* st' -> exists more, visited st' = visited st ++ more)
  /\ step (run (initial_state s startUrl archivePath)) = None
  /\ (Js.size (visited (run (initial_state s startUrl archivePath)))
      < maxPagesToCrawl + 1)%Q
  /\ (forall n : Z, (maxPagesToCrawl == inject_Z n)%Q ->
                    (Z.of_nat (length (visited
                                         (run (initial_state s startUrl
                                                             archivePath))))
                     <= n)%Z).
Proof.
  intros Hlaunched Hr.
  pose proof (launched_budget_positive _ Hlaunched) as Hpos.
  apply Qlt_le_weak in Hpos.
  pose proof (@within_ceiling _ _ _ (visited_within Hpos Hr)) as [Hhere Hwhole].
  pose proof (@within_ceiling _ _ _
                (visited_within Hpos
                   (phase1_reaches (initial_state s startUrl archivePath))))
    as [Hexit Hexit_whole].
  split; [ assumption | ]. split; [ assumption | ]. split.
  - intros st'. apply reaches_visited_grows.
  - split; [ apply phase1_exits | ]. split; assumption.
Qed.

(** *** The queue *)

Lemma NoDup_snoc {A : Type} (l : list A) (x : A) :
  NoDup l -> ~ In x l -> NoDup (l ++ [x]).
Proof.
  intros Hl Hx. apply NoDup_rev in Hl. rewrite <- (rev_involutive (l ++ [x])).
  apply NoDup_rev. rewrite rev_app_distr. simpl. constructor.
  - now rewrite <- in_rev.
  - assumption.
Qed.

Lemma enqueue_fold_keeps (v links : list string) (x : string) :
  forall q, In x q -> In x (fold_left (enqueue v) links q).
Proof.
  induction links as [ | l links IH ]; intros q Hin; simpl; [ assumption | ].
  apply IH. unfold enqueue.
  destruct (negb (Js.includes v l) && negb (Js.includes q l)); [ | assumption ].
  apply in_or_app. now left.
Qed.

(** A discovered link that is not visited is in the queue after the
    [forEach] over the discovered links. *)
Lemma enqueue_fold_enqueues (v links : list string) (x : string) :
  forall q, In x links -> ~ In x v -> In x (fold_left (enqueue v) links q).
Proof.
  induction links as [ | l links IH ]; intros q Hin Hv; simpl; [ contradiction | ].
  destruct Hin as [ -> | Hin ]; [ | now apply IH ].
  apply enqueue_fold_keeps. unfold enqueue.
  apply includes_not_In in Hv. rewrite Hv. simpl.
  destruct (Js.includes q x) eqn:Hq; simpl.
  - now apply includes_In.
  - apply in_or_app. right. now left.
Qed.

(** The [forEach] over the discovered links keeps the queue free of
    duplicates and of visited URLs. *)
Lemma enqueue_fold_fresh (v links : list string) :
  forall q : list string,
    NoDup q -> (forall x, In x q -> ~ In x v) ->
    NoDup (fold_left (enqueue v) links q)
    /\ (forall x, In x (fold_left (enqueue v) links q) -> ~ In x v).
Proof.
  induction links as [ | l links IH ]; intros q Hq Hv; simpl.
  - now split.
  - apply IH; unfold enqueue.
    + destruct (Js.includes v l) eqn:Hvl; simpl; [ assumption | ].
      destruct (Js.includes q l) eqn:Hql; simpl; [ assumption | ].
      apply NoDup_snoc; [ assumption | now apply includes_not_In ].
    + intros x. destruct (Js.includes v l) eqn:Hvl; simpl; [ apply Hv | ].
      destruct (Js.includes q l) eqn:Hql; simpl; [ apply Hv | ].
      intros Hx. apply in_app_or in Hx. destruct Hx as [ Hx | [ <- | [] ] ].
      * now apply Hv.
      * now apply includes_not_In.
Qed.

(** At every iteration boundary the queue holds no URL twice and no
    visited URL. *)
Lemma queue_invariant (s : system) (st : crawl_state) :
  initial_state s startUrl archivePath ~>* st ->
  NoDup (queue st)
  /\ (forall url, In url (queue st) -> ~ In url (visited st)).
Proof.
  intros Hr. revert st Hr.
  apply (reaches_invariant
           (fun st => NoDup (queue st)
                      /\ (forall url, In url (queue st) -> ~ In url (visited st)))).
  - simpl. split.
    + constructor; [ intros [] | constructor ].
    + intros url _ [].
  - intros a b [Hnd Hfresh] Hstep. apply loop_step_cases in Hstep. destruct Hstep
      as (_ & u & rest & Hq &
          [ (_ & ->) | [ (_ & s' & _ & ->) | (Hu & s' & fr & _ & ->) ] ]);
      simpl; rewrite Hq in Hnd, Hfresh; inversion Hnd as [ | ? ? Hurest Hrest ]; subst.
    + split; [ assumption | ]. intros url Hin. apply Hfresh. now right.
    + split; [ assumption | ]. intros url Hin. apply Hfresh. now right.
    + apply enqueue_fold_fresh; [ assumption | ].
      intros x Hx Hv. apply in_app_or in Hv. destruct Hv as [ Hv | [ <- | [] ] ].
      * apply (Hfresh x); [ now right | assumption ].
      * contradiction.
Qed.

(** *** The fetch log *)

Lemma split_snoc {A : Type} (l before after : list A) (a y : A) :
  l ++ [a] = before ++ y :: after ->
  (after = [] /\ l = before /\ a = y)
  \/ (exists after', after = after' ++ [a] /\ l = before ++ y :: after').
Proof.
  destruct after as [ | z after0 ].
  - intros H. apply app_inj_tail in H. left. intuition.
  - destruct (@exists_last _ (z :: after0)) as (after' & w & Hw); [ discriminate | ].
    rewrite Hw. intros H.
    change (before ++ y :: after' ++ [w]) with (before ++ (y :: after') ++ [w]) in H.
    rewrite app_assoc in H. apply app_inj_tail in H. destruct H as [ -> -> ].
    right. now exists after'.
Qed.

Lemma no_refetch_snoc (log : list (string * bool)) (url : string) (ok : bool) :
  no_refetch log -> ~ In (url, true) log -> no_refetch (log ++ [(url, ok)]).
Proof.
  intros Hlog Hfresh before x okx after Hsplit.
  apply split_snoc in Hsplit.
  destruct Hsplit as [ (_ & -> & [= <- <-]) | (after' & _ & ->) ].
  - assumption.
  - eapply Hlog. reflexivity.
Qed.

(** C1, amended. Whenever the loop invokes the page fetcher on a URL, no
    earlier iteration of the session has fetched that URL with success: a
    URL is fetched with success at most once, and never fetched again
    afterwards. Every URL fetched with success is in the visited set. A
    fetch that fails puts its URL nowhere: the iteration only takes the
    URL off the head of the queue, and leaves it neither in the queue nor
    in the visited set. A fetch that succeeds leaves in the queue every
    link it discovers that is not visited: so a URL whose fetch failed is
    enqueued again by a page fetched later that links to it. *)
Theorem no_fetch_after_success (s : system) (st : crawl_state) :
  initial_state s startUrl archivePath ~>* st ->
  (forall url, In (url, true) (fetchLog st) -> In url (visited st))
  /\ no_refetch (fetchLog st)
  /\ (forall st' url,
         step st = Some st' ->
         fetchLog st' = fetchLog st ++ [(url, false)] ->
         queue st = url :: queue st'
         /\ visited st' = visited st
         /\ pageDataMap st' = pageDataMap st
         /\ ~ In url (queue st')
         /\ ~ In url (visited st'))
  /\ (forall st' page fetchResult link,
         step st = Some st' ->
         fetchLog st' = fetchLog st ++ [(page, true)] ->
         snd (fetchPageAndAssets (sys st) page archivePath startUrl)
         = Some fetchResult ->
         In link (discoveredLinks fetchResult) ->
         ~ In link (visited st') ->
         In link (queue st')).
Proof.
  intros Hr. split; [ | split; [ | split ] ].
  - revert st Hr.
    apply (reaches_invariant
             (fun st => forall url, In (url, true) (fetchLog st) -> In url (visited st))).
    + intros url [].
    + intros a b Hvis Hstep. destruct (loop_step_cases _ Hstep)
        as (_ & u & rest & _ &
            [ (_ & ->) | [ (Hu & s' & _ & ->) | (Hu & s' & fr & _ & ->) ] ]);
        simpl.
      * assumption.
      * intros url Hin. apply in_app_or in Hin.
        destruct Hin as [ Hin | [ [=] | [] ] ]. now apply Hvis.
      * intros url Hin. apply in_or_app. apply in_app_or in Hin.
        destruct Hin as [ Hin | [ [= <-] | [] ] ].
        -- left. now apply Hvis.
        -- right. now left.
  - revert st Hr.
    apply (reaches_invariant
             (fun st => (forall url, In (url, true) (fetchLog st) -> In url (visited st))
                        /\ no_refetch (fetchLog st))).
    + split.
      * intros url [].
      * intros [ | ? ? ] ? ? ? H; discriminate H.
    + intros a b [Hvis Hlog] Hstep. destruct (loop_step_cases _ Hstep)
        as (_ & u & rest & _ &
            [ (_ & ->) | [ (Hu & s' & _ & ->) | (Hu & s' & fr & _ & ->) ] ]);
        simpl.
      * now split.
      * split.
        -- intros url Hin. apply in_app_or in Hin.
           destruct Hin as [ Hin | [ [=] | [] ] ]. now apply Hvis.
        -- apply no_refetch_snoc; [ assumption | ]. intros Hin. apply Hu.
           now apply Hvis.
      * split.
        -- intros url Hin. apply in_or_app. apply in_app_or in Hin.
           destruct Hin as [ Hin | [ [= <-] | [] ] ].
           ++ left. now apply Hvis.
           ++ right. now left.
        -- apply no_refetch_snoc; [ assumption | ]. intros Hin. apply Hu.
           now apply Hvis.
  - intros st' url Hstep Hlog.
    destruct (queue_invariant Hr) as [Hnd Hfresh].
    destruct (loop_step_cases _ Hstep)
      as (_ & u & rest & Hq &
          [ (_ & ->) | [ (Hu & s' & _ & ->) | (Hu & s' & fr & _ & ->) ] ]);
      simpl in *.
    + exfalso. apply (f_equal (@length _)) in Hlog.
      rewrite length_app in Hlog. simpl in Hlog. lia.
    + apply app_inv_head in Hlog. injection Hlog as <-.
      rewrite Hq in Hnd. inversion Hnd as [ | ? ? Hurest Hrest ]; subst.
      repeat split; assumption.
    + apply app_inv_head in Hlog. discriminate.
  - intros st' page fetchResult link Hstep Hlog Hfetch Hlink Hfresh.
    destruct (loop_step_cases _ Hstep)
      as (_ & u & rest & Hq &
          [ (_ & ->) | [ (Hu & s' & _ & ->) | (Hu & s' & fr & Hf & ->) ] ]);
      simpl in *.
    + exfalso. apply (f_equal (@length _)) in Hlog.
      rewrite length_app in Hlog. simpl in Hlog. lia.
    + apply app_inv_head in Hlog. discriminate.
    + apply app_inv_head in Hlog. injection Hlog as <-.
      rewrite Hf in Hfetch. simpl in Hfetch. injection Hfetch as <-.
      now apply enqueue_fold_enqueues.
Qed.

(** *** The hosts of the frontier *)

Lemma enqueue_fold_In (v links q : list string) (x : string) :
  In x (fold_left (enqueue v) links q) -> In x q \/ In x links.
Proof.
  revert q. induction links as [ | l links IH ]; intros q; simpl.
  - tauto.
  - intros Hin. apply IH in Hin. destruct Hin as [ Hin | Hin ]; [ | tauto ].
    unfold enqueue in Hin.
    destruct (negb (Js.includes v l) && negb (Js.includes q l)); [ | tauto ].
    apply in_app_or in Hin. simpl in Hin. intuition.
Qed.

Lemma fetched_start_parses (s s' : system) (url : string) (fr : fetch_result) :
  fetchPageAndAssets s url archivePath startUrl = (s', Some fr) ->
  host_of startUrl <> None.
Proof.
  intros Hf.
  destruct (fetch_analysed _ _ _ _ Hf) as (doc & start & page & lp & Hs & _).
  unfold host_of. rewrite Hs. discriminate.
Qed.

Lemma frontier_hosts (s : system) (st : crawl_state) :
  initial_state s startUrl archivePath ~>* st ->
  (forall url, In url (queue st) \/ In url (visited st) ->
               host_of url = host_of startUrl)
  /\ (forall url, In url (visited st) -> host_of startUrl <> None).
Proof.
  intros Hr. revert st Hr.
  apply (reaches_invariant
           (fun st => (forall url, In url (queue st) \/ In url (visited st) ->
                                   host_of url = host_of startUrl)
                      /\ (forall url, In url (visited st) ->
                                      host_of startUrl <> None))).
  - split.
    + simpl. intros url [ [ <- | [] ] | [] ]. reflexivity.
    + intros url [].
  - intros a b [Hhost Hstart] Hstep. destruct (loop_step_cases _ Hstep)
      as (_ & u & rest & Hq &
          [ (_ & ->) | [ (_ & s' & _ & ->) | (_ & s' & fr & Hf & ->) ] ]);
      simpl.
    + split; [ | assumption ].
      intros url [ Hin | Hin ]; apply Hhost; rewrite Hq; simpl; tauto.
    + split; [ | assumption ].
      intros url [ Hin | Hin ]; apply Hhost; rewrite Hq; simpl; tauto.
    + split.
      * intros url [ Hin | Hin ].
        -- apply enqueue_fold_In in Hin. destruct Hin as [ Hin | Hin ].
           ++ apply Hhost. rewrite Hq. simpl. tauto.
           ++ eapply fetched_links_same_host; eassumption.
        -- apply in_app_or in Hin. destruct Hin as [ Hin | [ <- | [] ] ].
           ++ apply Hhost. tauto.
           ++ apply Hhost. rewrite Hq. simpl. tauto.
      * intros _ _. eapply fetched_start_parses; eassumption.
Qed.

(** C4. Every URL in the visited set, at every iteration boundary of
    every session, has the host name of the start URL. *)
Theorem visited_on_start_host (s : system) (st : crawl_state) (url : string) :
  initial_state s startUrl archivePath ~>* st ->
  In url (visited st) ->
  exists host, host_of startUrl = Some host /\ host_of url = Some host.
Proof.
  intros Hr Hin. destruct (frontier_hosts Hr) as [Hhost Hstart].
  specialize (Hstart _ Hin). specialize (Hhost url (or_intror Hin)).
  destruct (host_of startUrl) as [ host | ]; [ | congruence ].
  now exists host.
Qed.

(** *** The snapshot store *)

Lemma stored_pages (s : system) (st : crawl_state) :
  initial_state s startUrl archivePath ~>* st ->
  map fst (pageDataMap st) = visited st
  /\ (forall url, In url (visited st) ->
                  getLocalFilePathForPage url startUrl archivePath <> None).
Proof.
  intros Hr. revert st Hr.
  apply (reaches_invariant
           (fun st => map fst (pageDataMap st) = visited st
                      /\ (forall url, In url (visited st) ->
                            getLocalFilePathForPage url startUrl archivePath <> None))).
  - split; [ reflexivity | intros url [] ].
  - intros a b [Hkeys Hpaths] Hstep. destruct (loop_step_cases _ Hstep)
      as (_ & u & rest & _ &
          [ (_ & ->) | [ (_ & s' & _ & ->) | (Hu & s' & fr & Hf & ->) ] ]);
      simpl; try (split; assumption).
    split.
    + rewrite map_set_keys, Hkeys. unfold Js.set_add.
      apply includes_not_In in Hu. now rewrite Hu.
    + intros url Hin. apply in_app_or in Hin. destruct Hin as [ Hin | [ <- | [] ] ].
      * now apply Hpaths.
      * eapply fetched_page_has_path; eassumption.
Qed.

End Frontier.

(** ** Pass 2 and the manifest *)

Section Archive.

Context {P : Platform}.

Lemma rewrite_links_length (startUrl domain archivePath : string)
      (visited : list string) (currentUrl localPagePath : string) (doc : document) :
  length (rewrite_links startUrl domain archivePath visited currentUrl
                        localPagePath doc)
  = length doc.
Proof. unfold rewrite_links. apply length_map. Qed.

(** Pass 2 throws on no page whose URL the path mapper accepts; it only
    appends to the disk, and writes every stored page, rewritten. *)
Lemma save_pages_writes (startUrl domain archivePath : string)
      (visited : list string) (entries : list (string * document))
      (d : list fs_op) :
  (forall url, In url (map fst entries) ->
               getLocalFilePathForPage url startUrl archivePath <> None) ->
  exists written,
    save_pages startUrl domain archivePath visited entries d = Some (d ++ written)
    /\ (entries = [] -> written = [])
    /\ forall currentUrl doc,
        In (currentUrl, doc) entries ->
        exists localPagePath,
          getLocalFilePathForPage currentUrl startUrl archivePath
          = Some localPagePath
          /\ In (WriteFile localPagePath
                   (Html (rewrite_links startUrl domain archivePath visited
                                        currentUrl localPagePath doc)))
                written.
Proof.
  revert d. induction entries as [ | [url doc] entries IH ]; intros d Hpaths.
  - exists []. simpl. rewrite app_nil_r. repeat split. intros ? ? [].
  - simpl.
    destruct (getLocalFilePathForPage url startUrl archivePath) as [ lp | ] eqn:Hlp.
    2:{ exfalso. apply (Hpaths url); [ now left | assumption ]. }
    simpl.
    destruct (IH (d ++ [EnsureDir (path_dirname lp);
                        WriteFile lp
                          (Html (rewrite_links startUrl domain archivePath
                                               visited url lp doc))]))
      as (written & Hsave & _ & Hall).
    { intros u Hu. apply Hpaths. now right. }
    eexists. split; [ | split ].
    + rewrite Hsave, <- app_assoc. reflexivity.
    + discriminate.
    + intros currentUrl doc0 [ [= <- <-] | Hin ].
      * exists lp. split; [ assumption | ]. simpl. right. now left.
      * destruct (Hall _ _ Hin) as (lp0 & Hlp0 & Hw).
        exists lp0. split; [ assumption | ]. simpl. right. now right.
Qed.

(** What a completed session is made of. *)
Lemma startCrawl_inv (s : system) (startUrl : string) (maxPagesToCrawl : Q)
      (sess : session) :
  startCrawl s startUrl maxPagesToCrawl = Some sess ->
  exists start d,
    URL_new startUrl = Some start
    /\ s_root sess = session_root (net s) (hostname start)
    /\ s_crawl sess = phase1 startUrl (s_root sess) maxPagesToCrawl
                             (initial_state s startUrl (s_root sess))
    /\ save_pages startUrl (hostname start) (s_root sess)
                  (visited (s_crawl sess)) (pageDataMap (s_crawl sess))
                  (disk (sys (s_crawl sess))) = Some d
    /\ make_manifest startUrl (s_root sess) (visited (s_crawl sess))
                     (net (sys (s_crawl sess))) = Some (s_manifest sess)
    /\ s_system sess
       = mkSystem (net (sys (s_crawl sess)))
                  (d ++ [WriteFile (path_join [s_root sess; "_manifest.json"])
                                   (ManifestJson (s_manifest sess))]).
Proof.
  unfold startCrawl.
  destruct (URL_new startUrl) as [ start | ]; [ simpl | discriminate ].
  destruct (save_pages _ _ _ _ _ _) as [ d | ] eqn:Hsave; [ simpl | discriminate ].
  destruct (make_manifest _ _ _ _) as [ m | ] eqn:Hm; [ simpl | discriminate ].
  intros [= <-]. simpl. exists start, d. auto 10.
Qed.

(** A session whose start URL parses runs to completion. *)
Lemma startCrawl_completes (s : system) (startUrl : string) (maxPagesToCrawl : Q)
      (start : URL) :
  URL_new startUrl = Some start ->
  exists sess, startCrawl s startUrl maxPagesToCrawl = Some sess.
Proof.
  intros Hs. unfold startCrawl. rewrite Hs. simpl.
  set (root := session_root (net s) (hostname start)).
  set (st := phase1 startUrl root maxPagesToCrawl (initial_state s startUrl root)).
  assert (Hr : reaches startUrl root maxPagesToCrawl
                       (initial_state s startUrl root) st)
    by apply phase1_reaches.
  destruct (stored_pages Hr) as [Hkeys Hpaths].
  destruct (@save_pages_writes startUrl (hostname start) root (visited st)
                               (pageDataMap st) (disk (sys st)))
    as (written & -> & _).
  { intros url Hin. apply Hpaths. now rewrite <- Hkeys. }
  simpl. unfold make_manifest.
  destruct (getLocalFilePathForPage startUrl startUrl root) as [ p | ] eqn:Hp.
  - simpl. eexists. reflexivity.
  - exfalso. revert Hp. apply getLocalFilePathForPage_defined; congruence.
Qed.

(** C5. The manifest written at the end of a session lists exactly the
    elements of the visited set with which the loop exited, each once, in
    the order of [sort()]; the session writes it to [_manifest.json] at
    the session root. *)
Theorem manifest_lists_visited (s : system) (startUrl : string)
        (maxPagesToCrawl : Q) (sess : session) :
  startCrawl s startUrl maxPagesToCrawl = Some sess ->
  s_crawl sess = phase1 startUrl (s_root sess) maxPagesToCrawl
                        (initial_state s startUrl (s_root sess))
  /\ In (WriteFile (path_join [s_root sess; "_manifest.json"])
                   (ManifestJson (s_manifest sess)))
        (disk (s_system sess))
  /\ (forall url, In url (m_crawledPages (s_manifest sess))
                  <-> In url (visited (s_crawl sess)))
  /\ NoDup (m_crawledPages (s_manifest sess))
  /\ length (m_crawledPages (s_manifest sess)) = length (visited (s_crawl sess))
  /\ StronglySorted (fun a b => String.leb a b = true)
                    (m_crawledPages (s_manifest sess)).
Proof.
  intros Hsess.
  destruct (startCrawl_inv _ _ _ Hsess) as (start & d & _ & _ & Hst & _ & Hm & Hsys).
  unfold make_manifest in Hm.
  destruct (getLocalFilePathForPage startUrl startUrl (s_root sess));
    [ simpl in Hm | discriminate ].
  injection Hm as Hm. rewrite <- Hm. simpl.
  pose proof (StringSort.Permuted_sort (visited (s_crawl sess))) as Hperm.
  fold (array_sort (visited (s_crawl sess))) in Hperm.
  assert (Hnd : NoDup (visited (s_crawl sess))).
  { rewrite Hst. eapply visited_NoDup. apply phase1_reaches. }
  split; [ assumption | ]. split.
  { rewrite Hsys. simpl. rewrite <- Hm. apply in_or_app. right. now left. }
  split; [ | split; [ | split ] ].
  - intros url. split; intros Hin.
    + eapply Permutation_in; [ apply Permutation_sym; eassumption | assumption ].
    + eapply Permutation_in; eassumption.
  - eapply Permutation_NoDup; eassumption.
  - symmetry. now apply Permutation_length.
  - apply StringSort.StronglySorted_sort.
    intros a b c. apply string_leb_trans.
Qed.

(** A session whose first fetch fails leaves the loop with nothing
    visited and nothing stored. *)
Lemma failed_start (s : system) (startUrl archivePath : string)
      (maxPagesToCrawl : Q) :
  snd (fetchPageAndAssets (sys (initial_state s startUrl archivePath))
                          startUrl archivePath startUrl) = None ->
  visited (phase1 startUrl archivePath maxPagesToCrawl
                  (initial_state s startUrl archivePath)) = []
  /\ pageDataMap (phase1 startUrl archivePath maxPagesToCrawl
                         (initial_state s startUrl archivePath)) = [].
Proof.
  intros Hfail. simpl in Hfail.
  rewrite phase1_step. unfold loop_step.
  destruct (loop_cond maxPagesToCrawl (initial_state s startUrl archivePath)) eqn:Hc;
    [ | simpl; repeat split ].
  unfold loop_body. simpl. rewrite Hfail.
  rewrite phase1_step. unfold loop_step, loop_cond. simpl.
  repeat split.
Qed.

(** C10. A session whose start URL parses completes, and it writes
    [_manifest.json] at the session root, whatever was crawled; the entry
    point is the local path of the start URL relative to the root. When
    the fetch of the start URL fails, nothing is visited and
    [crawledPages] is empty, and the manifest is written all the same. *)
Theorem manifest_written_unconditionally (s : system) (startUrl : string)
        (maxPagesToCrawl : Q) (start : URL) :
  URL_new startUrl = Some start ->
  exists sess,
    startCrawl s startUrl maxPagesToCrawl = Some sess
    /\ In (WriteFile (path_join [s_root sess; "_manifest.json"])
                     (ManifestJson (s_manifest sess)))
          (disk (s_system sess))
    /\ m_startUrl (s_manifest sess) = startUrl
    /\ (exists entry,
           getLocalFilePathForPage startUrl startUrl (s_root sess) = Some entry
           /\ m_entrypoint (s_manifest sess)
              = forward_slashes (path_relative (s_root sess) entry))
    /\ (snd (fetchPageAndAssets
               (sys (initial_state s startUrl (s_root sess)))
               startUrl (s_root sess) startUrl) = None ->
        visited (s_crawl sess) = []
        /\ m_crawledPages (s_manifest sess) = []).
Proof.
  intros Hs.
  destruct (startCrawl_completes s startUrl maxPagesToCrawl Hs) as (sess & Hsess).
  exists sess. split; [ assumption | ].
  destruct (startCrawl_inv _ _ _ Hsess)
    as (start' & d & _ & _ & Hst & Hsave & Hm & Hsys).
  unfold make_manifest in Hm.
  destruct (getLocalFilePathForPage startUrl startUrl (s_root sess))
    as [ entry | ] eqn:Hentry; [ simpl in Hm | discriminate ].
  injection Hm as Hm.
  split; [ | split; [ | split ] ].
  - rewrite Hsys. simpl. apply in_or_app. right. now left.
  - now rewrite <- Hm.
  - exists entry. split; [ reflexivity | now rewrite <- Hm ].
  - intros Hfail.
    destruct (failed_start s startUrl (s_root sess) maxPagesToCrawl Hfail)
      as (Hv & Hp).
    rewrite <- Hst in Hv, Hp.
    split; [ assumption | ].
    rewrite <- Hm. simpl. rewrite Hv. reflexivity.
Qed.

(** *** Link rewriting *)

Lemma rewrite_anchor_resolved (startUrl domain archivePath : string)
      (visited : list string) (currentUrl localPagePath : string)
      (el : element) (h : string) (resolved target : URL) :
  Dom.attr "href" el = Some h ->
  h <> EmptyString ->
  Js.startsWith h "#" = false ->
  Js.startsWith h "mailto:" = false ->
  Js.startsWith h "tel:" = false ->
  URL_new_base h currentUrl = Some resolved ->
  URL_new (Js.split_first "#" (href resolved)) = Some target ->
  URL_new startUrl <> None ->
  (hostname target = domain /\ In (Js.split_first "#" (href resolved)) visited ->
   exists targetPath,
     getLocalFilePathForPage (Js.split_first "#" (href resolved)) startUrl
                             archivePath = Some targetPath
     /\ rewrite_anchor startUrl domain archivePath visited currentUrl
                       localPagePath el
        = Dom.set_attr "href"
            (Js.or_else
               (forward_slashes
                  (path_relative (path_dirname localPagePath) targetPath))
               "./index.html") el)
  /\ (~ (hostname target = domain
         /\ In (Js.split_first "#" (href resolved)) visited) ->
      rewrite_anchor startUrl domain archivePath visited currentUrl
                     localPagePath el
      = Dom.set_attr "href" (Js.split_first "#" (href resolved)) el).
Proof.
  intros Hh Hne H1 H2 H3 Hres Htarget Hstart.
  unfold rewrite_anchor. rewrite Hh, H1, H2, H3, Hres. simpl.
  destruct h as [ | c h' ]; [ congruence | simpl ].
  rewrite Htarget. simpl.
  destruct (hostname target =? domain) eqn:Hhost;
    destruct (Js.includes visited (Js.split_first "#" (href resolved))) eqn:Hin;
    simpl.
  - apply String.eqb_eq in Hhost. apply includes_In in Hin. split.
    + intros _.
      destruct (getLocalFilePathForPage (Js.split_first "#" (href resolved))
                                        startUrl archivePath)
        as [ tp | ] eqn:Htp.
      * exists tp. split; reflexivity.
      * exfalso. revert Htp. apply getLocalFilePathForPage_defined; congruence.
    + intros Hnot. exfalso. apply Hnot. now split.
  - apply includes_not_In in Hin. split; [ intros [_ Hv]; contradiction | reflexivity ].
  - apply String.eqb_neq in Hhost. split; [ intros [Hd _]; contradiction | reflexivity ].
  - apply String.eqb_neq in Hhost. split; [ intros [Hd _]; contradiction | reflexivity ].
Qed.

(** C2, amended. In pass 2 every stored page is written to its local
    path, and in the document written every anchor whose href is not
    empty, does not start with [#], [mailto:] or [tel:], resolves against
    the page URL and, fragment stripped, parses again, has its href
    rewritten: to the relative path from the directory of the page to the
    local path of the target (backslashes turned into slashes,
    [./index.html] when that is empty) if the target has the host of the
    start URL and is in the visited set; to the resolved URL, fragment
    stripped, otherwise. *)
Theorem anchors_rewritten (s : system) (startUrl : string)
        (maxPagesToCrawl : Q) (sess : session)
        (currentUrl : string) (doc : document) :
  startCrawl s startUrl maxPagesToCrawl = Some sess ->
  In (currentUrl, doc) (pageDataMap (s_crawl sess)) ->
  exists localPagePath doc',
    getLocalFilePathForPage currentUrl startUrl (s_root sess) = Some localPagePath
    /\ In (WriteFile localPagePath (Html doc')) (disk (s_system sess))
    /\ length doc' = length doc
    /\ forall i el h resolved target,
        nth_error doc i = Some el ->
        Dom.is_anchor el = true ->
        Dom.attr "href" el = Some h ->
        h <> EmptyString ->
        Js.startsWith h "#" = false ->
        Js.startsWith h "mailto:" = false ->
        Js.startsWith h "tel:" = false ->
        URL_new_base h currentUrl = Some resolved ->
        URL_new (Js.split_first "#" (href resolved)) = Some target ->
        exists newHref,
          nth_error doc' i = Some (Dom.set_attr "href" newHref el)
          /\ (host_of startUrl = Some (hostname target)
              /\ In (Js.split_first "#" (href resolved)) (visited (s_crawl sess)) ->
              exists targetPath,
                getLocalFilePathForPage (Js.split_first "#" (href resolved))
                                        startUrl (s_root sess) = Some targetPath
                /\ newHref
                   = Js.or_else
                       (forward_slashes
                          (path_relative (path_dirname localPagePath) targetPath))
                       "./index.html")
          /\ (~ (host_of startUrl = Some (hostname target)
                 /\ In (Js.split_first "#" (href resolved))
                       (visited (s_crawl sess))) ->
              newHref = Js.split_first "#" (href resolved)).
Proof.
  intros Hsess Hstored.
  destruct (startCrawl_inv _ _ _ Hsess)
    as (start & d & Hstart & _ & Hst & Hsave & _ & Hsys).
  assert (Hr : reaches startUrl (s_root sess) maxPagesToCrawl
                       (initial_state s startUrl (s_root sess)) (s_crawl sess)).
  { rewrite Hst. apply phase1_reaches. }
  destruct (stored_pages Hr) as [Hkeys Hpaths].
  destruct (@save_pages_writes startUrl (hostname start) (s_root sess)
              (visited (s_crawl sess)) (pageDataMap (s_crawl sess))
              (disk (sys (s_crawl sess))))
    as (written & Hsave' & _ & Hall).
  { intros url Hin. apply Hpaths. now rewrite <- Hkeys. }
  rewrite Hsave in Hsave'. injection Hsave' as ->.
  destruct (Hall _ _ Hstored) as (lp & Hlp & Hw).
  exists lp. eexists. split; [ exact Hlp | ]. split; [ | split ].
  - rewrite Hsys. simpl. apply in_or_app. left. apply in_or_app. right. exact Hw.
  - apply rewrite_links_length.
  - intros i el h resolved target Hi Ha Hh Hne H1 H2 H3 Hres Htarget.
    assert (Hhost : forall x, host_of startUrl = Some x <-> hostname start = x).
    { intros x. unfold host_of. rewrite Hstart. simpl. split; congruence. }
    destruct (@rewrite_anchor_resolved startUrl (hostname start) (s_root sess)
                (visited (s_crawl sess)) currentUrl lp el h resolved target
                Hh Hne H1 H2 H3 Hres Htarget) as [Hin Hout].
    { congruence. }
    unfold rewrite_links. rewrite nth_error_map, Hi. simpl. rewrite Ha.
    destruct (string_dec (hostname target) (hostname start)) as [ Hd | Hd ];
      [ destruct (in_dec string_dec (Js.split_first "#" (href resolved))
                         (visited (s_crawl sess))) as [ Hv | Hv ] | ].
    + destruct (Hin (conj Hd Hv)) as (tp & Htp & ->).
      eexists. split; [ reflexivity | ]. split.
      * intros _. exists tp. now split.
      * intros Hnot. exfalso. apply Hnot. split; [ | assumption ].
        apply Hhost. congruence.
    + rewrite Hout by tauto.
      eexists. split; [ reflexivity | ]. split; [ | reflexivity ].
      intros [_ Hv']. contradiction.
    + rewrite Hout by tauto.
      eexists. split; [ reflexivity | ]. split; [ | reflexivity ].
      intros [Hd' _]. apply Hhost in Hd'. congruence.
Qed.

End Archive.

(** ** Failures inside a page *)

Section Resilience.

Context {P : Platform}.

(** *** Asset downloads *)

(** A download that fails leaves its element as it was. *)
Lemma settle_failure_untouched (localPagePath : string) (s : system)
      (el : element) (d : download) (w : World) :
  axios_get (net s) (d_absoluteUrl d) = (w, None) ->
  settle localPagePath s el (Some d) = (mkSystem w (disk s), el).
Proof. intros Hget. unfold settle. now rewrite Hget. Qed.

(** Whatever the other downloads of the page do, an element comes out of
    [Promise.all] either as it was or pointing to its own local copy. *)
Lemma settle_all_pointwise (localPagePath : string) (doc : document) :
  forall (s : system) (tasks : list (option download)) (i : nat) (el : element),
    length tasks = length doc ->
    nth_error doc i = Some el ->
    nth_error (snd (settle_all localPagePath s doc tasks)) i = Some el
    \/ exists d,
        nth_error tasks i = Some (Some d)
        /\ nth_error (snd (settle_all localPagePath s doc tasks)) i
           = Some (point_to_local d
                     (path_relative (path_dirname localPagePath) (d_savePath d))
                     el).
Proof.
  induction doc as [ | e doc IH ]; intros s tasks i el Hlen Hi.
  - destruct i; discriminate.
  - destruct tasks as [ | task tasks ]; [ discriminate | ].
    simpl. destruct i as [ | i ]; simpl in *.
    + injection Hi as ->. unfold settle. destruct task as [ d | ]; [ | now left ].
      destruct (axios_get (net s) (d_absoluteUrl d)) as [ w [ data | ] ]; simpl.
      * right. exists d. split; reflexivity.
      * now left.
    + apply IH; [ lia | assumption ].
Qed.

Lemma settle_all_length (localPagePath : string) (doc : document) :
  forall (s : system) (tasks : list (option download)),
    length (snd (settle_all localPagePath s doc tasks)) = length doc.
Proof.
  induction doc as [ | e doc IH ]; intros s tasks; [ reflexivity | ].
  destruct tasks as [ | task tasks ]; [ reflexivity | ].
  simpl. now rewrite IH.
Qed.

Lemma collect_assets_length (url archivePath id : string) (doc : document) :
  forall (c : counters) (ds : list (option download)),
    collect_assets url archivePath id doc c = Some ds -> length ds = length doc.
Proof.
  induction doc as [ | e doc IH ]; intros c ds; simpl.
  - now intros [= <-].
  - destruct (Dom.is_asset e).
    + destruct (prepare_asset url archivePath id e c) as [ r | ]; [ simpl | discriminate ].
      destruct (collect_assets url archivePath id doc (fst r)) as [ ds' | ] eqn:Hds;
        [ simpl | discriminate ].
      intros [= <-]. simpl. f_equal. eapply IH; eassumption.
    + destruct (collect_assets url archivePath id doc c) as [ ds' | ] eqn:Hds;
        [ simpl | discriminate ].
      intros [= <-]. simpl. f_equal. eapply IH; eassumption.
Qed.

(** Once the page is analysed, the fetch returns a result whatever the
    network answers to the asset requests. *)
Lemma process_page_survives_downloads (s : system) (url archivePath startUrl : string)
      (doc : document) :
  analyse_page url archivePath startUrl doc <> None ->
  snd (process_page s url archivePath startUrl doc) <> None.
Proof.
  unfold process_page.
  destruct (analyse_page url archivePath startUrl doc) as [ [ [ ? ? ] ? ] | ];
    simpl; congruence.
Qed.

(** *** Asset references

    An image whose source does not resolve against the page URL makes the
    [each] over the assets throw: the page is dropped, whatever else it
    holds. *)

Lemma unresolvable_image_not_prepared (url archivePath id : string) (el : element)
      (src : string) (c : counters) :
  tagName el = "img" ->
  Dom.attr "srcset" el = None ->
  Dom.attr "src" el = Some src ->
  URL_new_base src url = None ->
  prepare_asset url archivePath id el c = None.
Proof.
  intros Htag Hsrcset Hsrc Hbad. unfold prepare_asset.
  rewrite Htag, Hsrcset, Hsrc. simpl. now rewrite Hbad.
Qed.

Lemma unresolvable_image_drops_page (s : system) (url archivePath startUrl : string)
      (el : element) (src : string) (d1 d2 : document) :
  tagName el = "img" ->
  Dom.attr "srcset" el = None ->
  Dom.attr "src" el = Some src ->
  URL_new_base src url = None ->
  snd (process_page s url archivePath startUrl (d1 ++ el :: d2)) = None.
Proof.
  intros Htag Hsrcset Hsrc Hbad.
  assert (Hcollect : forall id c,
             collect_assets url archivePath id (d1 ++ el :: d2) c = None).
  { intros id. induction d1 as [ | e d IH ]; intros c; simpl.
    - unfold Dom.is_asset. rewrite Htag. simpl.
      now rewrite (@unresolvable_image_not_prepared url archivePath id el src c
                     Htag Hsrcset Hsrc Hbad).
    - destruct (Dom.is_asset e).
      + destruct (prepare_asset url archivePath id e c); [ simpl | reflexivity ].
        now rewrite IH.
      + now rewrite IH. }
  assert (Hpage : analyse_page url archivePath startUrl (d1 ++ el :: d2) = None).
  { unfold analyse_page.
    destruct (URL_new startUrl); [ simpl | reflexivity ].
    destruct (getLocalFilePathForPage url startUrl archivePath); [ simpl | reflexivity ].
    destruct (URL_new url); [ simpl | reflexivity ].
    now rewrite Hcollect. }
  unfold process_page. now rewrite Hpage.
Qed.

(** *** Malformed links *)

Variables (url : string) (a : element) (h : string).
Hypothesis a_anchor : Dom.is_anchor a = true.
Hypothesis a_href : Dom.attr "href" a = Some h.
Hypothesis a_malformed : URL_new_base h url = None.

Lemma anchor_not_asset : Dom.is_asset a = false.
Proof.
  unfold Dom.is_anchor in a_anchor. apply String.eqb_eq in a_anchor.
  unfold Dom.is_asset. now rewrite a_anchor.
Qed.

Lemma malformed_not_discovered (startDomain : string) :
  discover_link url startDomain a = [].
Proof.
  unfold discover_link. rewrite a_href, a_malformed.
  now destruct (Js.is_empty h).
Qed.

Lemma malformed_skipped_in_discovery (startDomain : string) (d1 d2 : document) :
  discoverLinks url startDomain (d1 ++ a :: d2)
  = discoverLinks url startDomain (d1 ++ d2).
Proof.
  unfold discoverLinks. rewrite !filter_app. simpl. rewrite a_anchor.
  rewrite !flat_map_app. simpl. now rewrite malformed_not_discovered.
Qed.

Lemma collect_assets_skips_anchor (archivePath id : string) (d1 d2 : document) :
  forall c : counters,
    collect_assets url archivePath id (d1 ++ a :: d2) c
    = option_map (fun ds => firstn (length d1) ds ++ None :: skipn (length d1) ds)
                 (collect_assets url archivePath id (d1 ++ d2) c).
Proof.
  induction d1 as [ | e d1 IH ]; intros c; simpl.
  - rewrite anchor_not_asset.
    now destruct (collect_assets url archivePath id d2 c).
  - destruct (Dom.is_asset e).
    + destruct (prepare_asset url archivePath id e c) as [ r | ]; [ simpl | reflexivity ].
      rewrite IH.
      now destruct (collect_assets url archivePath id (d1 ++ d2) (fst r)).
    + rewrite IH.
      now destruct (collect_assets url archivePath id (d1 ++ d2) c).
Qed.

Lemma issued_assets_skips_anchor (archivePath id : string) (d1 d2 : document) :
  forall c : counters,
    issued_assets url archivePath id (d1 ++ a :: d2) c
    = issued_assets url archivePath id (d1 ++ d2) c.
Proof.
  induction d1 as [ | e d1 IH ]; intros c; simpl.
  - now rewrite anchor_not_asset.
  - destruct (Dom.is_asset e); [ | apply IH ].
    destruct (prepare_asset url archivePath id e c) as [ [ c' [ d | ] ] | ];
      [ f_equal; apply IH | apply IH | reflexivity ].
Qed.

Lemma issued_skips_anchor (archivePath startUrl : string) (d1 d2 : document) :
  issued url archivePath startUrl (d1 ++ a :: d2)
  = issued url archivePath startUrl (d1 ++ d2).
Proof.
  unfold issued.
  destruct (URL_new startUrl); [ simpl | reflexivity ].
  destruct (getLocalFilePathForPage url startUrl archivePath); [ simpl | reflexivity ].
  destruct (URL_new url); [ simpl | reflexivity ].
  apply issued_assets_skips_anchor.
Qed.

Lemma settle_all_skips_anchor (localPagePath : string) (d1 d2 : document) :
  forall (s : system) (ds : list (option download)),
    length ds = length (d1 ++ d2) ->
    settle_all localPagePath s (d1 ++ a :: d2)
               (firstn (length d1) ds ++ None :: skipn (length d1) ds)
    = (fst (settle_all localPagePath s (d1 ++ d2) ds),
       firstn (length d1) (snd (settle_all localPagePath s (d1 ++ d2) ds))
       ++ a :: skipn (length d1) (snd (settle_all localPagePath s (d1 ++ d2) ds))).
Proof.
  induction d1 as [ | e d1 IH ]; intros s ds Hlen; simpl.
  - now destruct (settle_all localPagePath s d2 ds).
  - destruct ds as [ | t ds ]; [ discriminate | ]. simpl.
    rewrite IH by (simpl in Hlen; lia). reflexivity.
Qed.

Lemma malformed_untouched_in_rewrite (startUrl domain archivePath : string)
      (visited : list string) (localPagePath : string) :
  rewrite_anchor startUrl domain archivePath visited url localPagePath a = a.
Proof.
  unfold rewrite_anchor. rewrite a_href, a_malformed. simpl.
  now destruct (negb (Js.is_empty h) && negb (Js.startsWith h "#")
                && negb (Js.startsWith h "mailto:") && negb (Js.startsWith h "tel:")).
Qed.

(** The page is processed as if the anchor were absent: the same system
    after it, the same verdict, the same discovered links, the same
    document but for the anchor, kept as it is. *)
Lemma process_page_skips_anchor (s : system) (archivePath startUrl : string)
      (d1 d2 : document) :
  exists r1 r2,
    length r1 = length d1
    /\ match snd (process_page s url archivePath startUrl (d1 ++ d2)) with
       | None =>
           process_page s url archivePath startUrl (d1 ++ a :: d2)
           = (fst (process_page s url archivePath startUrl (d1 ++ d2)), None)
       | Some fr =>
           fr_doc fr = r1 ++ r2
           /\ process_page s url archivePath startUrl (d1 ++ a :: d2)
              = (fst (process_page s url archivePath startUrl (d1 ++ d2)),
                 Some (mkFetchResult (r1 ++ a :: r2) (discoveredLinks fr)))
       end.
Proof.
  unfold process_page. rewrite issued_skips_anchor.
  generalize (fold_left settle_stray (issued url archivePath startUrl (d1 ++ d2)) s).
  intros stray. unfold analyse_page.
  destruct (URL_new startUrl) as [ start | ]; simpl;
    [ | exists d1, d2; now split ].
  rewrite malformed_skipped_in_discovery.
  destruct (getLocalFilePathForPage url startUrl archivePath) as [ lp | ]; simpl;
    [ | exists d1, d2; now split ].
  destruct (URL_new url) as [ page | ]; simpl; [ | exists d1, d2; now split ].
  rewrite collect_assets_skips_anchor.
  destruct (collect_assets url archivePath _ (d1 ++ d2) (mkCounters 0 0 0))
    as [ ds | ] eqn:Hds; simpl; [ | exists d1, d2; now split ].
  apply collect_assets_length in Hds.
  rewrite settle_all_skips_anchor by exact Hds. simpl.
  exists (firstn (length d1) (snd (settle_all lp s (d1 ++ d2) ds))),
         (skipn (length d1) (snd (settle_all lp s (d1 ++ d2) ds))).
  split; [ | split ].
  - rewrite length_firstn, settle_all_length, length_app. lia.
  - now rewrite firstn_skipn.
  - reflexivity.
Qed.

(** C8. An anchor whose href does not resolve against the page URL is
    skipped, alone. In pass 1 it adds nothing to the discovered links, and
    the fetch of a page that holds it returns what the page without it
    would be processed to: the same requests and files, the same verdict,
    the same discovered links (all that the frontier loop takes from a
    fetch), and the same document but for the anchor, which is kept as it
    is. In pass 2 its href is left untouched and the elements around it are
    rewritten as if it were absent. The session completes whenever its
    start URL parses, whatever links its pages hold. *)
Theorem malformed_link_skipped (s : system) (archivePath startUrl domain : string)
        (visited : list string) (localPagePath : string) (d1 d2 : document) :
  (forall startDomain,
      discover_link url startDomain a = []
      /\ discoverLinks url startDomain (d1 ++ a :: d2)
         = discoverLinks url startDomain (d1 ++ d2))
  /\ (forall w html,
         axios_get (net s) url = (w, Some html) ->
         cheerio_load html = d1 ++ a :: d2 ->
         exists r1 r2,
           length r1 = length d1
           /\ match snd (process_page (mkSystem w (disk s)) url archivePath
                                      startUrl (d1 ++ d2)) with
              | None =>
                  fetchPageAndAssets s url archivePath startUrl
                  = (fst (process_page (mkSystem w (disk s)) url archivePath
                                       startUrl (d1 ++ d2)), None)
              | Some fr =>
                  fr_doc fr = r1 ++ r2
                  /\ fetchPageAndAssets s url archivePath startUrl
                     = (fst (process_page (mkSystem w (disk s)) url archivePath
                                          startUrl (d1 ++ d2)),
                        Some (mkFetchResult (r1 ++ a :: r2) (discoveredLinks fr)))
              end)
  /\ rewrite_anchor startUrl domain archivePath visited url localPagePath a = a
  /\ rewrite_links startUrl domain archivePath visited url localPagePath
                   (d1 ++ a :: d2)
     = rewrite_links startUrl domain archivePath visited url localPagePath d1
       ++ a :: rewrite_links startUrl domain archivePath visited url localPagePath d2
  /\ rewrite_links startUrl domain archivePath visited url localPagePath (d1 ++ d2)
     = rewrite_links startUrl domain archivePath visited url localPagePath d1
       ++ rewrite_links startUrl domain archivePath visited url localPagePath d2
  /\ (forall s0 maxPagesToCrawl,
         URL_new startUrl <> None ->
         exists sess, startCrawl s0 startUrl maxPagesToCrawl = Some sess).
Proof.
  split; [ | split; [ | split; [ | split; [ | split ] ] ] ].
  - intros startDomain. split.
    + apply malformed_not_discovered.
    + apply malformed_skipped_in_discovery.
  - intros w html Hget Hload. unfold fetchPageAndAssets. rewrite Hget, Hload.
    apply process_page_skips_anchor.
  - apply malformed_untouched_in_rewrite.
  - unfold rewrite_links. rewrite map_app. simpl. rewrite a_anchor.
    fold (rewrite_anchor startUrl domain archivePath visited url localPagePath a).
    now rewrite malformed_untouched_in_rewrite.
  - unfold rewrite_links. apply map_app.
  - intros s0 maxPagesToCrawl Hstart.
    destruct (URL_new startUrl) as [ start | ] eqn:Hs; [ | congruence ].
    eapply startCrawl_completes. eassumption.
Qed.

End Resilience.

(** ** More on the frontier loop *)

Section FrontierMore.

Context {P : Platform}.
Variables (startUrl archivePath : string) (maxPagesToCrawl : Q).

Local Notation "'step'" := (loop_step startUrl archivePath maxPagesToCrawl).
Local Notation "'run'" := (phase1 startUrl archivePath maxPagesToCrawl).
Local Notation "st '~>*' st'" := (reaches startUrl archivePath maxPagesToCrawl st st')
  (at level 70).

(** X1. At every iteration boundary the queue holds no URL twice and no
    visited URL; the URL the loop dequeues is therefore never visited
    already, and the test [visited.has(currentUrl)] never skips one. *)
Theorem queue_fresh (s : system) (st : crawl_state) :
  initial_state s startUrl archivePath ~>* st ->
  NoDup (queue st)
  /\ (forall url, In url (queue st) -> ~ In url (visited st))
  /\ (forall currentUrl rest,
         queue st = currentUrl :: rest ->
         Js.includes (visited st) currentUrl = false).
Proof.
  intros Hr. destruct (queue_invariant Hr) as [Hnd Hfresh].
  repeat split; try assumption.
  intros u rest Hq. apply includes_not_In. apply Hfresh. rewrite Hq. now left.
Qed.

(** X2. At every iteration boundary the visited set is the list of the
    URLs fetched with success, in the order of their fetches; each of them
    was fetched with success once. *)
Theorem visited_are_successes (s : system) (st : crawl_state) :
  initial_state s startUrl archivePath ~>* st ->
  map fst (filter snd (fetchLog st)) = visited st
  /\ NoDup (map fst (filter snd (fetchLog st))).
Proof.
  intros Hr.
  enough (Hlog : map fst (filter snd (fetchLog st)) = visited st).
  { split; [ assumption | ]. rewrite Hlog. eapply visited_NoDup. eassumption. }
  revert st Hr.
  apply (reaches_invariant
           (fun st => map fst (filter snd (fetchLog st)) = visited st)).
  - reflexivity.
  - intros a b Hlog Hstep. apply loop_step_cases in Hstep. destruct Hstep
      as (_ & u & rest & _ &
          [ (_ & ->) | [ (_ & s' & _ & ->) | (_ & s' & fr & _ & ->) ] ]);
      simpl; try assumption.
    + rewrite filter_app. simpl. now rewrite app_nil_r.
    + rewrite filter_app, map_app. simpl. now rewrite Hlog.
Qed.

(** X3. At every iteration boundary the snapshot store holds one document
    for each visited URL and for no other, in the order of the visits. *)
Theorem store_keys_are_visited (s : system) (st : crawl_state) :
  initial_state s startUrl archivePath ~>* st ->
  map fst (pageDataMap st) = visited st.
Proof.
  intros Hr. revert st Hr.
  apply (reaches_invariant (fun st => map fst (pageDataMap st) = visited st)).
  - reflexivity.
  - intros a b Hkeys Hstep. apply loop_step_cases in Hstep. destruct Hstep
      as (_ & u & rest & _ &
          [ (_ & ->) | [ (_ & s' & _ & ->) | (Hu & s' & fr & _ & ->) ] ]);
      simpl; try assumption.
    rewrite map_set_keys, Hkeys. unfold Js.set_add.
    apply includes_not_In in Hu. now rewrite Hu.
Qed.

(** X4. With a budget that is not negative, the loop exits for one of two
    reasons: the queue is empty, or the visited set has reached the budget,
    with at least [maxPagesToCrawl] and fewer than [maxPagesToCrawl + 1]
    elements: exactly [maxPagesToCrawl] of them when that is a whole
    number. *)
Theorem loop_exit (s : system) :
  (0 <= maxPagesToCrawl)%Q ->
  (queue (run (initial_state s startUrl archivePath)) = []
   \/ (maxPagesToCrawl
         <= Js.size (visited (run (initial_state s startUrl archivePath)))
       /\ Js.size (visited (run (initial_state s startUrl archivePath)))
          < maxPagesToCrawl + 1)%Q)
  /\ forall n : Z,
      (maxPagesToCrawl == inject_Z n)%Q ->
      queue (run (initial_state s startUrl archivePath)) = []
      \/ Z.of_nat (length (visited (run (initial_state s startUrl archivePath))))
         = n.
Proof.
  intros Hmax.
  pose proof (phase1_exits startUrl archivePath maxPagesToCrawl
                           (initial_state s startUrl archivePath)) as Hexit.
  pose proof (@within_ceiling _ _ _
                (visited_within Hmax
                   (phase1_reaches startUrl archivePath maxPagesToCrawl
                                   (initial_state s startUrl archivePath))))
    as [Hbelow Hwhole].
  unfold loop_step, loop_cond in Hexit.
  destruct (queue (run (initial_state s startUrl archivePath))) as [ | u rest ];
    [ split; [ now left | intros n _; now left ] | ].
  simpl in Hexit.
  destruct (Js.lt (Js.size (visited (run (initial_state s startUrl archivePath))))
                  maxPagesToCrawl) eqn:Hlt; [ discriminate | ].
  assert (Hge : (maxPagesToCrawl
                 <= Js.size (visited (run (initial_state s startUrl archivePath))))%Q).
  { apply Qnot_lt_le. intros H. apply js_lt_spec in H. congruence. }
  split; [ right; now split | ].
  intros n Hn. right. specialize (Hwhole n Hn).
  assert (Hq : (inject_Z n
                <= inject_Z (Z.of_nat
                               (length (visited
                                          (run (initial_state s startUrl
                                                              archivePath))))))%Q)
    by (unfold Js.size in Hge; lra).
  rewrite <- Zle_Qle in Hq. lia.
Qed.

End FrontierMore.

(** ** The files of a session *)

Section Files.

Context {P : Platform}.

Lemma html_files_app (d d' : list fs_op) :
  html_files (d ++ d') = html_files d ++ html_files d'.
Proof.
  induction d as [ | op d IH ]; [ reflexivity | ].
  destruct op as [ dir | file [ data | doc | m ] ]; simpl; now rewrite ?IH.
Qed.

(** Pass 1 writes assets only. *)
Lemma settle_all_html (localPagePath : string) (doc : document) :
  forall (s : system) (tasks : list (option download)),
    html_files (disk (fst (settle_all localPagePath s doc tasks)))
    = html_files (disk s).
Proof.
  induction doc as [ | el doc IH ]; intros s tasks; [ reflexivity | ].
  destruct tasks as [ | task tasks ]; [ reflexivity | ].
  simpl. rewrite IH. unfold settle. destruct task as [ d | ]; [ | reflexivity ].
  destruct (axios_get (net s) (d_absoluteUrl d)) as [ w [ data | ] ]; simpl.
  - rewrite html_files_app. simpl. now rewrite app_nil_r.
  - reflexivity.
Qed.

Lemma settle_stray_html (ds : list download) :
  forall s : system,
    html_files (disk (fold_left settle_stray ds s)) = html_files (disk s).
Proof.
  induction ds as [ | d ds IH ]; intros s; [ reflexivity | ].
  simpl. rewrite IH. unfold settle_stray.
  destruct (axios_get (net s) (d_absoluteUrl d)) as [ w [ data | ] ]; simpl.
  - rewrite html_files_app. simpl. now rewrite app_nil_r.
  - reflexivity.
Qed.

Lemma fetch_html (s : system) (url archivePath startUrl : string) :
  html_files (disk (fst (fetchPageAndAssets s url archivePath startUrl)))
  = html_files (disk s).
Proof.
  unfold fetchPageAndAssets, process_page.
  destruct (axios_get (net s) url) as [ w [ html | ] ]; [ | reflexivity ].
  destruct (analyse_page url archivePath startUrl (cheerio_load html))
    as [ [ [ discovered lp ] ds ] | ]; simpl.
  - now rewrite settle_all_html.
  - now rewrite settle_stray_html.
Qed.

Lemma phase1_html (startUrl archivePath : string) (maxPagesToCrawl : Q)
      (s : system) (st : crawl_state) :
  reaches startUrl archivePath maxPagesToCrawl
          (initial_state s startUrl archivePath) st ->
  html_files (disk (sys st)) = html_files (disk s).
Proof.
  intros Hr. revert st Hr.
  apply (reaches_invariant
           (fun st => html_files (disk (sys st)) = html_files (disk s))).
  - simpl. rewrite html_files_app. simpl. now rewrite app_nil_r.
  - intros a b Hhtml Hstep. apply loop_step_cases in Hstep. destruct Hstep
      as (_ & u & rest & _ &
          [ (_ & ->) | [ (_ & s' & Hf & ->) | (_ & s' & fr & Hf & ->) ] ]);
      simpl; try assumption.
    + rewrite <- Hhtml. change s' with (fst (s', @None fetch_result)).
      rewrite <- Hf. apply fetch_html.
    + rewrite <- Hhtml. change s' with (fst (s', Some fr)).
      rewrite <- Hf. apply fetch_html.
Qed.

(** Pass 2 writes one HTML file for each entry of the store, at the local
    path of its URL. *)
Lemma save_pages_html (startUrl domain archivePath : string)
      (visited : list string) (entries : list (string * document)) :
  forall d d' : list fs_op,
    save_pages startUrl domain archivePath visited entries d = Some d' ->
    exists files,
      html_files d' = html_files d ++ files
      /\ Forall2 (fun url file =>
                    getLocalFilePathForPage url startUrl archivePath = Some file)
                 (map fst entries) files.
Proof.
  induction entries as [ | [url doc] entries IH ]; intros d d'; simpl.
  - intros [= <-]. exists []. rewrite app_nil_r. split; constructor.
  - destruct (getLocalFilePathForPage url startUrl archivePath) as [ lp | ] eqn:Hlp;
      simpl; [ | discriminate ].
    intros Hsave. destruct (IH _ _ Hsave) as (files & Hfiles & Hall).
    exists (lp :: files). split.
    + rewrite Hfiles, html_files_app. simpl. now rewrite <- app_assoc.
    + now constructor.
Qed.

(** X5. A session that completes writes one HTML file for each visited
    page, at the local path of its URL and in the order of the visits, and
    no other HTML file. *)
Theorem one_html_file_per_visited_page (s : system) (startUrl : string)
        (maxPagesToCrawl : Q) (sess : session) :
  startCrawl s startUrl maxPagesToCrawl = Some sess ->
  exists files,
    html_files (disk (s_system sess)) = html_files (disk s) ++ files
    /\ Forall2 (fun url file =>
                  getLocalFilePathForPage url startUrl (s_root sess) = Some file)
               (visited (s_crawl sess)) files.
Proof.
  intros Hsess.
  destruct (startCrawl_inv _ _ _ Hsess)
    as (start & d & _ & _ & Hst & Hsave & _ & Hsys).
  assert (Hr : reaches startUrl (s_root sess) maxPagesToCrawl
                       (initial_state s startUrl (s_root sess)) (s_crawl sess)).
  { rewrite Hst. apply phase1_reaches. }
  destruct (save_pages_html _ _ _ _ _ _ Hsave) as (files & Hfiles & Hall).
  exists files. split.
  - rewrite Hsys. simpl. rewrite html_files_app, Hfiles. simpl.
    rewrite app_nil_r. now rewrite (phase1_html Hr).
  - destruct (stored_pages Hr) as [Hkeys _]. now rewrite <- Hkeys.
Qed.

(** X6. When the fetch of the start URL succeeds and the budget is at
    least one, the start URL is the first visited page and the entry point
    of the manifest is the path, relative to the session root, of an HTML
    file the session has written. *)
Theorem entrypoint_written (s : system) (startUrl : string)
        (maxPagesToCrawl : Q) (sess : session) :
  startCrawl s startUrl maxPagesToCrawl = Some sess ->
  (1 <= maxPagesToCrawl)%Q ->
  snd (fetchPageAndAssets (sys (initial_state s startUrl (s_root sess)))
                          startUrl (s_root sess) startUrl) <> None ->
  (exists more, visited (s_crawl sess) = startUrl :: more)
  /\ In startUrl (m_crawledPages (s_manifest sess))
  /\ exists entry doc,
      m_entrypoint (s_manifest sess)
      = forward_slashes (path_relative (s_root sess) entry)
      /\ In (WriteFile entry (Html doc)) (disk (s_system sess)).
Proof.
  intros Hsess Hmax Hfetch.
  destruct (startCrawl_inv _ _ _ Hsess)
    as (start & d & Hstart & _ & Hst & Hsave & Hm & Hsys).
  set (root := s_root sess) in *.
  assert (Hfirst : exists st1,
             loop_step startUrl root maxPagesToCrawl (initial_state s startUrl root)
             = Some st1 /\ visited st1 = [startUrl]).
  { assert (Hc : loop_cond maxPagesToCrawl (initial_state s startUrl root) = true).
    { unfold loop_cond, initial_state. cbn [queue visited].
      apply andb_true_iff. split; [ reflexivity | ].
      apply js_lt_spec. apply Qlt_le_trans with (y := 1%Q);
        [ reflexivity | assumption ]. }
    unfold loop_step. rewrite Hc.
    eexists. split; [ reflexivity | ].
    unfold loop_body. simpl.
    destruct (snd (fetchPageAndAssets
                     (sys (initial_state s startUrl root)) startUrl root startUrl))
      as [ fr | ] eqn:Hf; [ | congruence ].
    simpl in Hf. rewrite Hf. reflexivity. }
  destruct Hfirst as (st1 & Hstep & Hv1).
  assert (Hr1 : reaches startUrl root maxPagesToCrawl st1 (s_crawl sess)).
  { rewrite Hst, phase1_step, Hstep. apply phase1_reaches. }
  destruct (reaches_visited_grows Hr1) as (more & Hgrow).
  rewrite Hv1 in Hgrow. simpl in Hgrow.
  assert (Hr : reaches startUrl root maxPagesToCrawl
                       (initial_state s startUrl root) (s_crawl sess)).
  { rewrite Hst. apply phase1_reaches. }
  destruct (stored_pages Hr) as [Hkeys Hpaths].
  split; [ now exists more | ]. split.
  - unfold make_manifest in Hm.
    destruct (getLocalFilePathForPage startUrl startUrl root); [ | discriminate ].
    simpl in Hm. injection Hm as <-. simpl.
    eapply Permutation_in; [ apply StringSort.Permuted_sort | ].
    rewrite Hgrow. now left.
  - destruct (@save_pages_writes P startUrl (hostname start) root
                (visited (s_crawl sess)) (pageDataMap (s_crawl sess))
                (disk (sys (s_crawl sess))))
      as (written & Hsave' & _ & Hall).
    { intros url Hin. apply Hpaths. now rewrite <- Hkeys. }
    rewrite Hsave in Hsave'. injection Hsave' as ->.
    assert (Hin : In startUrl (map fst (pageDataMap (s_crawl sess)))).
    { rewrite Hkeys, Hgrow. now left. }
    apply in_map_iff in Hin. destruct Hin as ([u doc] & Hu & Hin).
    simpl in Hu. subst u.
    destruct (Hall _ _ Hin) as (entry & Hentry & Hw).
    exists entry. eexists. split.
    + unfold make_manifest in Hm. rewrite Hentry in Hm. simpl in Hm.
      now injection Hm as <-.
    + rewrite Hsys. simpl. apply in_or_app. left. apply in_or_app. right.
      exact Hw.
Qed.

End Files.

(** ** Documents *)

Section Documents.

Context {P : Platform}.

(** *** Attributes *)

Lemma lookup_assign_same (name value : string) (l : list (string * string)) :
  Dom.lookup name (Dom.assign name value l) = Some value.
Proof.
  induction l as [ | [k v] l IH ]; simpl.
  - now rewrite String.eqb_refl.
  - destruct (String.eqb k name) eqn:Hk; simpl; now rewrite Hk.
Qed.

Lemma lookup_assign_other (name other value : string) (l : list (string * string)) :
  other <> name ->
  Dom.lookup other (Dom.assign name value l) = Dom.lookup other l.
Proof.
  intros Hne. induction l as [ | [k v] l IH ]; simpl.
  - apply String.eqb_neq in Hne. now rewrite String.eqb_sym, Hne.
  - destruct (String.eqb k name) eqn:Hk; simpl.
    + apply String.eqb_eq in Hk. subst k.
      apply not_eq_sym in Hne. apply String.eqb_neq in Hne. now rewrite Hne.
    + destruct (String.eqb k other); [ reflexivity | assumption ].
Qed.

Lemma lookup_remove_same (name : string) (l : list (string * string)) :
  Dom.lookup name (filter (fun kv => negb (String.eqb (fst kv) name)) l) = None.
Proof.
  induction l as [ | [k v] l IH ]; simpl; [ reflexivity | ].
  destruct (String.eqb k name) eqn:Hk; simpl; [ assumption | ].
  now rewrite Hk.
Qed.

Lemma lookup_remove_other (name other : string) (l : list (string * string)) :
  other <> name ->
  Dom.lookup other (filter (fun kv => negb (String.eqb (fst kv) name)) l)
  = Dom.lookup other l.
Proof.
  intros Hne. induction l as [ | [k v] l IH ]; simpl; [ reflexivity | ].
  destruct (String.eqb k name) eqn:Hk; simpl.
  - apply String.eqb_eq in Hk. subst k.
    apply not_eq_sym in Hne. apply String.eqb_neq in Hne. now rewrite Hne.
  - destruct (String.eqb k other); [ reflexivity | assumption ].
Qed.

(** *** Pass 2 *)

Lemma rewrite_anchor_shape (startUrl domain archivePath : string)
      (visited : list string) (currentUrl localPagePath : string) (el : element) :
  rewrite_anchor startUrl domain archivePath visited currentUrl localPagePath el = el
  \/ exists value,
      rewrite_anchor startUrl domain archivePath visited currentUrl localPagePath el
      = Dom.set_attr "href" value el.
Proof.
  unfold rewrite_anchor.
  destruct (Dom.attr "href" el) as [ h | ]; [ | now left ].
  destruct (negb (Js.is_empty h) && negb (Js.startsWith h "#")
            && negb (Js.startsWith h "mailto:") && negb (Js.startsWith h "tel:"));
    [ | now left ].
  destruct (URL_new_base h currentUrl) as [ u | ]; simpl; [ | now left ].
  destruct (URL_new (Js.split_first "#" (href u))) as [ u' | ]; simpl; [ | now left ].
  destruct ((hostname u' =? domain)
            && Js.includes visited (Js.split_first "#" (href u))).
  - destruct (getLocalFilePathForPage (Js.split_first "#" (href u)) startUrl
                                      archivePath) as [ tp | ]; simpl.
    + right. eexists. reflexivity.
    + now left.
  - right. eexists. reflexivity.
Qed.

(** X7. Pass 2 changes nothing of a document but the href of anchors: the
    elements keep their number, order and tag, and every attribute other
    than href; an element that is not an anchor, and an anchor whose href
    is missing, empty, or starts with [#], [mailto:] or [tel:], is written
    as it is. *)
Theorem rewrite_changes_href_only (startUrl domain archivePath : string)
        (visited : list string) (currentUrl localPagePath : string)
        (doc : document) (i : nat) (el : element) :
  nth_error doc i = Some el ->
  length (rewrite_links startUrl domain archivePath visited currentUrl
                        localPagePath doc) = length doc
  /\ exists el',
      nth_error (rewrite_links startUrl domain archivePath visited currentUrl
                               localPagePath doc) i = Some el'
      /\ tagName el' = tagName el
      /\ (forall name, name <> "href" -> Dom.attr name el' = Dom.attr name el)
      /\ (Dom.is_anchor el = false -> el' = el)
      /\ (Dom.attr "href" el = None -> el' = el)
      /\ (forall h, Dom.attr "href" el = Some h ->
                    h = EmptyString \/ Js.startsWith h "#" = true
                    \/ Js.startsWith h "mailto:" = true
                    \/ Js.startsWith h "tel:" = true ->
                    el' = el).
Proof.
  intros Hi. split; [ apply rewrite_links_length | ].
  unfold rewrite_links. rewrite nth_error_map, Hi. simpl.
  eexists. split; [ reflexivity | ].
  destruct (Dom.is_anchor el); [ | repeat split ].
  destruct (rewrite_anchor_shape startUrl domain archivePath visited currentUrl
                                 localPagePath el) as [ Heq | (value & Heq) ].
  - rewrite Heq. repeat split.
  - split; [ now rewrite Heq | ]. split.
    + intros name Hname. rewrite Heq. unfold Dom.attr, Dom.set_attr. simpl.
      now apply lookup_assign_other.
    + split; [ discriminate | ]. split.
      * intros Hnone. unfold rewrite_anchor. now rewrite Hnone.
      * intros h Hh Hskip. unfold rewrite_anchor. rewrite Hh.
        destruct Hskip as [ -> | [ -> | [ -> | -> ] ] ]; simpl;
          rewrite ?andb_false_r; reflexivity.
Qed.

(** *** Pass 1 *)

(** A download is issued for the element it rewrites, to rewrite its href
    or its src. *)
Lemma prepare_asset_download (url archivePath id : string) (el : element)
      (c c' : counters) (d : download) :
  prepare_asset url archivePath id el c = Some (c', Some d) ->
  d_tag d = tagName el
  /\ (d_attr d = "href" /\ tagName el = "link"
      \/ d_attr d = "src" /\ tagName el <> "link").
Proof.
  unfold prepare_asset.
  destruct (tagName el =? "link") eqn:Hlink;
    [ apply String.eqb_eq in Hlink | apply String.eqb_neq in Hlink ].
  - simpl. destruct (Js.truthy (Dom.attr "href" el)
                     && negb (Js.startsWith (Js.to_string (Dom.attr "href" el)) "data:"));
      [ | discriminate ].
    destruct (URL_new_base (Js.to_string (Dom.attr "href" el)) url); simpl;
      [ | discriminate ].
    intros [= _ <-]. simpl. auto.
  - destruct (tagName el =? "img").
    + match goal with
      | |- context [ URL_new_base (Js.to_string ?f) url ] => set (fileUrl := f)
      end.
      destruct (URL_new_base (Js.to_string fileUrl) url); simpl; [ | discriminate ].
      destruct (Js.truthy fileUrl
                && negb (Js.startsWith (Js.to_string fileUrl) "data:"));
        [ | discriminate ].
      destruct (URL_new_base _ url); simpl; [ | discriminate ].
      intros [= _ <-]. simpl. auto.
    + destruct (tagName el =? "script").
      * destruct (URL_new_base (Js.to_string (Dom.attr "src" el)) url); simpl;
          [ | discriminate ].
        destruct (Js.truthy (Dom.attr "src" el)
                  && negb (Js.startsWith (Js.to_string (Dom.attr "src" el)) "data:"));
          [ | discriminate ].
        destruct (URL_new_base _ url); simpl; [ | discriminate ].
        intros [= _ <-]. simpl. auto.
      * simpl. discriminate.
Qed.

Lemma collect_assets_tasks (url archivePath id : string) (doc : document) :
  forall (c : counters) (ts : list (option download)) (i : nat) (el : element)
         (d : download),
    collect_assets url archivePath id doc c = Some ts ->
    nth_error doc i = Some el ->
    nth_error ts i = Some (Some d) ->
    Dom.is_asset el = true
    /\ d_tag d = tagName el
    /\ (d_attr d = "href" /\ tagName el = "link"
        \/ d_attr d = "src" /\ tagName el <> "link").
Proof.
  induction doc as [ | e doc IH ]; intros c ts i el d; simpl.
  - intros _ Hi. destruct i; discriminate.
  - destruct (Dom.is_asset e) eqn:Hasset.
    + destruct (prepare_asset url archivePath id e c) as [ [c' od] | ] eqn:Hprep;
        [ simpl | discriminate ].
      destruct (collect_assets url archivePath id doc c') as [ ts' | ] eqn:Hts;
        [ simpl | discriminate ].
      intros [= <-]. destruct i as [ | i ]; simpl.
      * intros [= <-] [= ->]. split; [ assumption | ].
        eapply prepare_asset_download. eassumption.
      * eapply IH. eassumption.
    + destruct (collect_assets url archivePath id doc c) as [ ts' | ] eqn:Hts;
        [ simpl | discriminate ].
      intros [= <-]. destruct i as [ | i ]; simpl.
      * intros _ [=].
      * eapply IH. eassumption.
Qed.

Lemma point_to_local_attrs (d : download) (relativePath : string) (el : element) :
  d_attr d = "href" \/ d_attr d = "src" ->
  tagName (point_to_local d relativePath el) = tagName el
  /\ Dom.attr (d_attr d) (point_to_local d relativePath el)
     = Some (forward_slashes relativePath)
  /\ (d_tag d = "img" -> Dom.attr "srcset" (point_to_local d relativePath el) = None)
  /\ (forall name, name <> d_attr d -> name <> "srcset" ->
                   Dom.attr name (point_to_local d relativePath el)
                   = Dom.attr name el).
Proof.
  intros Hattr. unfold point_to_local.
  assert (Hsrcset : d_attr d <> "srcset") by (destruct Hattr as [ -> | -> ]; discriminate).
  destruct (d_tag d =? "img") eqn:Himg; unfold Dom.attr, Dom.removeAttr, Dom.set_attr;
    simpl.
  - repeat split.
    + rewrite lookup_remove_other by assumption. apply lookup_assign_same.
    + intros _. apply lookup_remove_same.
    + intros name Hname Hname'. rewrite lookup_remove_other by assumption.
      now apply lookup_assign_other.
  - repeat split.
    + apply lookup_assign_same.
    + intros Htag. apply String.eqb_neq in Himg. contradiction.
    + intros name Hname _. now apply lookup_assign_other.
Qed.

(** X8. Pass 1 changes nothing of a document but the references of its
    asset elements: the document returned by a fetch has the elements of
    the document parsed, in number, order and tag; an element that is not a
    stylesheet link, an image or a script is returned as it is, anchors with
    their hrefs among them; of the others only href, src and srcset may
    differ. *)
Theorem fetch_changes_assets_only (s s' : system) (url archivePath startUrl : string)
        (fr : fetch_result) :
  fetchPageAndAssets s url archivePath startUrl = (s', Some fr) ->
  exists w html,
    axios_get (net s) url = (w, Some html)
    /\ length (fr_doc fr) = length (cheerio_load html)
    /\ forall i el,
        nth_error (cheerio_load html) i = Some el ->
        exists el',
          nth_error (fr_doc fr) i = Some el'
          /\ tagName el' = tagName el
          /\ (Dom.is_asset el = false -> el' = el)
          /\ (forall name, name <> "href" -> name <> "src" -> name <> "srcset" ->
                           Dom.attr name el' = Dom.attr name el).
Proof.
  intros Hf. destruct (fetch_success_inv _ _ _ _ Hf) as (w & html & Hget & Hp).
  destruct (process_success_inv _ _ _ _ _ Hp) as (discovered & lp & ds & Ha & _ & ->).
  destruct (analyse_page_inv _ _ _ _ Ha) as (start & page & _ & _ & _ & _ & Hds).
  exists w, html. split; [ assumption | ]. simpl. split; [ apply settle_all_length | ].
  intros i el Hi.
  pose proof (collect_assets_length _ _ _ _ _ Hds) as Hlen.
  destruct (@settle_all_pointwise P lp (cheerio_load html) (mkSystem w (disk s))
              ds i el Hlen Hi) as [ Hsame | (d & Hd & Hnew) ].
  - exists el. repeat split. assumption.
  - destruct (collect_assets_tasks _ _ _ _ _ _ Hds Hi Hd) as (Hasset & _ & Hattr).
    assert (Hattr' : d_attr d = "href" \/ d_attr d = "src") by tauto.
    destruct (point_to_local_attrs d
                (path_relative (path_dirname lp) (d_savePath d)) el Hattr')
      as (Htag & _ & _ & Hother).
    eexists. split; [ exact Hnew | ]. split; [ assumption | ]. split.
    + congruence.
    + intros name H1 H2 H3. apply Hother; [ | assumption ].
      destruct Hattr' as [ -> | -> ]; assumption.
Qed.

End Documents.

(** ** Links and assets of a page *)

Section PageContents.

Context {P : Platform}.

Lemma fold_set_add_NoDup (arr : list string) :
  forall acc, NoDup acc -> NoDup (fold_left Js.set_add arr acc).
Proof.
  induction arr as [ | x arr IH ]; intros acc Hacc; simpl; [ assumption | ].
  apply IH. now apply set_add_NoDup.
Qed.

Lemma split_first_free (sep : ascii) (s : string) :
  free_of (Ascii.eqb sep) (Js.split_first sep s).
Proof.
  unfold free_of. induction s as [ | c s IH ]; simpl; [ intros c [] | ].
  destruct (Ascii.eqb c sep) eqn:Hc; simpl; [ intros c' [] | ].
  intros c' [ <- | Hin ]; [ now rewrite Ascii.eqb_sym | now apply IH ].
Qed.

Lemma list_ascii_of_string_app (a b : string) :
  list_ascii_of_string (a ++ b) = list_ascii_of_string a ++ list_ascii_of_string b.
Proof. induction a as [ | c a IH ]; simpl; [ reflexivity | now rewrite IH ]. Qed.

Lemma replace_class_free (cls : ascii -> bool) (r : string) (s : string) :
  free_of cls r -> free_of cls (Js.replace_class cls r s).
Proof.
  unfold free_of. intros Hr. induction s as [ | c s IH ]; simpl; [ intros c [] | ].
  destruct (cls c) eqn:Hc.
  - intros c'. rewrite list_ascii_of_string_app. intros Hin.
    apply in_app_or in Hin. destruct Hin as [ Hin | Hin ]; [ now apply Hr | now apply IH ].
  - simpl. intros c' [ <- | Hin ]; [ assumption | now apply IH ].
Qed.

Lemma discover_link_spec (url startDomain : string) (a : element) (link : string) :
  In link (discover_link url startDomain a)
  <-> exists h u,
        Dom.attr "href" a = Some h /\ h <> EmptyString
        /\ URL_new_base h url = Some u
        /\ link = Js.split_first "#" (href u)
        /\ host_of link = Some startDomain.
Proof.
  unfold discover_link, host_of. split.
  - destruct (Dom.attr "href" a) as [ h | ]; [ | intros [] ].
    destruct h as [ | c h ]; [ intros [] | ]. simpl Js.is_empty. cbv iota.
    destruct (URL_new_base (String c h) url) as [ u | ] eqn:Hu; simpl;
      [ | intros [] ].
    destruct (URL_new (Js.split_first "#" (href u))) as [ u' | ] eqn:Hu';
      simpl; [ | intros [] ].
    destruct (hostname u' =? startDomain) eqn:Hh; [ | intros [] ].
    intros [ <- | [] ]. exists (String c h), u.
    rewrite Hu'. simpl. apply String.eqb_eq in Hh. subst startDomain.
    split; [ reflexivity | ]. split; [ discriminate | ]. repeat split.
    assumption.
  - intros (h & u & -> & Hne & Hu & -> & Hhost).
    destruct h as [ | c h ]; [ contradiction | ]. simpl Js.is_empty. cbv iota.
    rewrite Hu. simpl.
    destruct (URL_new (Js.split_first "#" (href u))) as [ u' | ]; simpl in *;
      [ | discriminate ].
    injection Hhost as <-. rewrite String.eqb_refl. now left.
Qed.

(** X9. The links that a successful fetch reports are exactly the
    fragment-free absolute forms of the non-empty hrefs of the anchors of
    the page that resolve to a URL on the host of the start URL; the list
    has no duplicate and no link in it contains a [#]. *)
Theorem discovered_links_characterised (s s' : system)
        (url archivePath startUrl : string) (fr : fetch_result) :
  fetchPageAndAssets s url archivePath startUrl = (s', Some fr) ->
  exists w html,
    axios_get (net s) url = (w, Some html)
    /\ NoDup (discoveredLinks fr)
    /\ forall link,
        In link (discoveredLinks fr)
        <-> exists a h u,
              In a (cheerio_load html) /\ tagName a = "a"
              /\ Dom.attr "href" a = Some h /\ h <> EmptyString
              /\ URL_new_base h url = Some u
              /\ link = Js.split_first "#" (href u)
              /\ free_of (Ascii.eqb "#") link
              /\ host_of link = host_of startUrl.
Proof.
  intros Hf. destruct (fetch_success_inv _ _ _ _ Hf) as (w & html & Hget & Hp).
  destruct (process_success_inv _ _ _ _ _ Hp) as (discovered & lp & ds & Ha & _ & ->).
  destruct (analyse_page_inv _ _ _ _ Ha) as (start & page & Hs & _ & -> & _ & _).
  exists w, html. split; [ assumption | ]. simpl. split.
  - apply fold_set_add_NoDup. constructor.
  - intros link. rewrite dedupe_In. unfold discoverLinks. rewrite in_flat_map.
    unfold host_of at 2. rewrite Hs. simpl. split.
    + intros (a & Hin & Hlink). apply filter_In in Hin. destruct Hin as (Hin & Hanchor).
      apply discover_link_spec in Hlink.
      destruct Hlink as (h & u & Hh & Hne & Hu & -> & Hhost).
      exists a, h, u. repeat split; try assumption.
      * now apply String.eqb_eq.
      * apply split_first_free.
    + intros (a & h & u & Hin & Htag & Hh & Hne & Hu & -> & _ & Hhost).
      exists a. split.
      * apply filter_In. split; [ assumption | ]. now apply String.eqb_eq.
      * apply discover_link_spec. exists h, u. repeat split; assumption.
Qed.

(** *** Inline assets *)

Lemma prepare_asset_inline (url archivePath id : string) (el : element)
      (c c' : counters) (od : option download) :
  inline el = true ->
  prepare_asset url archivePath id el c = Some (c', od) ->
  od = None.
Proof.
  unfold inline, asset_reference, prepare_asset.
  destruct (tagName el =? "link").
  - simpl. intros Hin. apply negb_true_iff in Hin. rewrite Hin. now intros [= _ <-].
  - destruct (tagName el =? "img").
    + intros Hin. apply negb_true_iff in Hin.
      destruct (URL_new_base _ url); simpl; [ | discriminate ].
      rewrite Hin. now intros [= _ <-].
    + destruct (tagName el =? "script").
      * intros Hin. apply negb_true_iff in Hin.
        destruct (URL_new_base _ url); simpl; [ | discriminate ].
        rewrite Hin. now intros [= _ <-].
      * simpl. now intros _ [= _ <-].
Qed.

Lemma collect_assets_inline (url archivePath id : string) (doc : document) :
  forall (c : counters) (ts : list (option download)),
    (forall el, In el doc -> Dom.is_asset el = true -> inline el = true) ->
    collect_assets url archivePath id doc c = Some ts ->
    Forall (fun t => t = None) ts.
Proof.
  induction doc as [ | e doc IH ]; intros c ts Hall; simpl.
  - intros [= <-]. constructor.
  - destruct (Dom.is_asset e) eqn:Hasset.
    + destruct (prepare_asset url archivePath id e c) as [ [c' od] | ] eqn:Hprep;
        [ simpl | discriminate ].
      destruct (collect_assets url archivePath id doc c') as [ ts' | ] eqn:Hts;
        [ simpl | discriminate ].
      intros [= <-]. constructor.
      * eapply prepare_asset_inline; [ | eassumption ].
        apply Hall; [ now left | assumption ].
      * eapply IH; [ | eassumption ]. intros el Hel. apply Hall. now right.
    + destruct (collect_assets url archivePath id doc c) as [ ts' | ] eqn:Hts;
        [ simpl | discriminate ].
      intros [= <-]. constructor; [ reflexivity | ].
      eapply IH; [ | eassumption ]. intros el Hel. apply Hall. now right.
Qed.

Lemma settle_all_idle (localPagePath : string) (doc : document) :
  forall (s : system) (ts : list (option download)),
    Forall (fun t => t = None) ts ->
    settle_all localPagePath s doc ts = (s, doc).
Proof.
  induction doc as [ | e doc IH ]; intros s ts Hts; [ reflexivity | ].
  destruct Hts as [ | t ts -> Hts ]; [ reflexivity | ].
  simpl. now rewrite IH.
Qed.

(** X10. A page whose stylesheets, images and scripts all lack a
    reference or carry a data URI costs one request and no file during
    pass 1: when its fetch succeeds, the network is as the page's own
    request left it, the disk is as before, and the document kept for
    pass 2 is the document parsed. *)
Theorem inline_assets_fetch_nothing (s s' : system)
        (url archivePath startUrl : string) (fr : fetch_result)
        (w : World) (html : string) :
  axios_get (net s) url = (w, Some html) ->
  (forall el, In el (cheerio_load html) -> Dom.is_asset el = true ->
              inline el = true) ->
  fetchPageAndAssets s url archivePath startUrl = (s', Some fr) ->
  s' = mkSystem w (disk s) /\ fr_doc fr = cheerio_load html.
Proof.
  intros Hget Hall Hf.
  destruct (fetch_success_inv _ _ _ _ Hf) as (w' & html' & Hget' & Hp).
  rewrite Hget in Hget'. injection Hget' as <- <-.
  destruct (process_success_inv _ _ _ _ _ Hp) as (discovered & lp & ds & Ha & -> & ->).
  destruct (analyse_page_inv _ _ _ _ Ha) as (start & page & _ & _ & _ & _ & Hds).
  apply collect_assets_inline in Hds; [ | assumption ].
  rewrite settle_all_idle by assumption. split; reflexivity.
Qed.

(** *** Downloaded assets *)

Lemma prepare_asset_savePath (url archivePath id : string) (el : element)
      (c c' : counters) (d : download) :
  prepare_asset url archivePath id el c = Some (c', Some d) ->
  exists filename, d_savePath d = path_join [archivePath; "assets"; id; filename].
Proof.
  unfold prepare_asset.
  destruct (tagName el =? "link").
  - simpl. destruct (Js.truthy _ && _); [ | discriminate ].
    destruct (URL_new_base _ url); simpl; [ | discriminate ].
    intros [= _ <-]. simpl. eexists. reflexivity.
  - destruct (tagName el =? "img").
    + destruct (URL_new_base _ url); simpl; [ | discriminate ].
      destruct (Js.truthy _ && _); [ | discriminate ].
      destruct (URL_new_base _ url); simpl; [ | discriminate ].
      intros [= _ <-]. simpl. eexists. reflexivity.
    + destruct (tagName el =? "script").
      * destruct (URL_new_base _ url); simpl; [ | discriminate ].
        destruct (Js.truthy _ && _); [ | discriminate ].
        destruct (URL_new_base _ url); simpl; [ | discriminate ].
        intros [= _ <-]. simpl. eexists. reflexivity.
      * simpl. discriminate.
Qed.

Lemma collect_assets_savePath (url archivePath id : string) (doc : document) :
  forall (c : counters) (ts : list (option download)) (i : nat) (d : download),
    collect_assets url archivePath id doc c = Some ts ->
    nth_error ts i = Some (Some d) ->
    exists filename, d_savePath d = path_join [archivePath; "assets"; id; filename].
Proof.
  induction doc as [ | e doc IH ]; intros c ts i d; simpl.
  - intros [= <-]. destruct i; discriminate.
  - destruct (Dom.is_asset e) eqn:Hasset.
    + destruct (prepare_asset url archivePath id e c) as [ [c' od] | ] eqn:Hprep;
        [ simpl | discriminate ].
      destruct (collect_assets url archivePath id doc c') as [ ts' | ] eqn:Hts;
        [ simpl | discriminate ].
      intros [= <-]. destruct i as [ | i ]; simpl.
      * intros [= ->]. eapply prepare_asset_savePath. eassumption.
      * eapply IH. eassumption.
    + destruct (collect_assets url archivePath id doc c) as [ ts' | ] eqn:Hts;
        [ simpl | discriminate ].
      intros [= <-]. destruct i as [ | i ]; simpl.
      * intros [=].
      * eapply IH. eassumption.
Qed.

Lemma settle_disk_grows (localPagePath : string) (s : system) (el : element)
      (task : option download) :
  exists more, disk (fst (settle localPagePath s el task)) = disk s ++ more.
Proof.
  unfold settle. destruct task as [ d | ].
  - destruct (axios_get (net s) (d_absoluteUrl d)) as [ w [ data | ] ]; simpl.
    + eexists. reflexivity.
    + exists []. now rewrite app_nil_r.
  - exists []. now rewrite app_nil_r.
Qed.

Lemma settle_all_disk_grows (localPagePath : string) (doc : document) :
  forall (s : system) (ts : list (option download)),
  exists more, disk (fst (settle_all localPagePath s doc ts)) = disk s ++ more.
Proof.
  induction doc as [ | e doc IH ]; intros s ts.
  - exists []. simpl. now rewrite app_nil_r.
  - destruct ts as [ | t ts ].
    + exists []. simpl. now rewrite app_nil_r.
    + simpl. destruct (IH (fst (settle localPagePath s e t)) ts) as (more & ->).
      destruct (settle_disk_grows localPagePath s e t) as (more' & ->).
      exists (more' ++ more). now rewrite app_assoc.
Qed.

(** An element that comes out of [Promise.all] changed points to a file
    that the same [Promise.all] wrote. *)
Lemma settle_all_written (localPagePath : string) (doc : document) :
  forall (s : system) (tasks : list (option download)) (i : nat) (el : element),
    length tasks = length doc ->
    nth_error doc i = Some el ->
    nth_error (snd (settle_all localPagePath s doc tasks)) i = Some el
    \/ exists d data,
        nth_error tasks i = Some (Some d)
        /\ nth_error (snd (settle_all localPagePath s doc tasks)) i
           = Some (point_to_local d
                     (path_relative (path_dirname localPagePath) (d_savePath d))
                     el)
        /\ In (WriteFile (d_savePath d) (AssetData data))
              (disk (fst (settle_all localPagePath s doc tasks))).
Proof.
  induction doc as [ | e doc IH ]; intros s tasks i el Hlen Hi.
  - destruct i; discriminate.
  - destruct tasks as [ | task tasks ]; [ discriminate | ].
    simpl. destruct i as [ | i ]; simpl in *.
    + injection Hi as ->.
      destruct (settle_all_disk_grows localPagePath doc
                  (fst (settle localPagePath s el task)) tasks) as (more & ->).
      unfold settle. destruct task as [ d | ]; [ | now left ].
      destruct (axios_get (net s) (d_absoluteUrl d)) as [ w [ data | ] ]; simpl.
      * right. exists d, data. split; [ reflexivity | ]. split; [ reflexivity | ].
        apply in_or_app. left. apply in_or_app. right. right. now left.
      * now left.
    + apply IH; [ lia | assumption ].
Qed.

(** X11. No asset reference of a fetched page dangles. An element of the
    document kept for pass 2 is either the element parsed, or an asset
    element rewritten to its local copy: the copy is a file under
    [assets/<page identifier>] of the session folder that this fetch wrote,
    where the page identifier is the path of the page URL without the
    slashes around it, [index] when that is empty, with an underscore for
    every [/], [?], [%], [*], [:], [|], double quote, [<] and [>]; the
    attribute that named the asset (href of a link, src of an image or
    script) holds the path from the folder of the page's file to the copy,
    with no backslash in it, and an image has lost its srcset. *)
Theorem localised_assets_are_on_disk (s s' : system)
        (url archivePath startUrl : string) (fr : fetch_result)
        (i : nat) (el' : element) :
  fetchPageAndAssets s url archivePath startUrl = (s', Some fr) ->
  nth_error (fr_doc fr) i = Some el' ->
  exists w html el localPagePath pageUrlObject,
    axios_get (net s) url = (w, Some html)
    /\ nth_error (cheerio_load html) i = Some el
    /\ getLocalFilePathForPage url startUrl archivePath = Some localPagePath
    /\ URL_new url = Some pageUrlObject
    /\ (el' = el
        \/ exists attr file data filename,
            Dom.is_asset el = true
            /\ (attr = "href" /\ tagName el = "link"
                \/ attr = "src" /\ tagName el <> "link")
            /\ file = path_join
                        [archivePath; "assets";
                         Js.replace_class unsafe_id_char "_"
                           (Js.or_else (Js.strip_slashes (pathname pageUrlObject))
                                       "index");
                         filename]
            /\ In (WriteFile file (AssetData data)) (disk s')
            /\ Dom.attr attr el'
               = Some (forward_slashes
                         (path_relative (path_dirname localPagePath) file))
            /\ free_of (Ascii.eqb "\"%char)
                       (forward_slashes
                          (path_relative (path_dirname localPagePath) file))
            /\ (tagName el = "img" -> Dom.attr "srcset" el' = None)).
Proof.
  intros Hf Hi'.
  destruct (fetch_success_inv _ _ _ _ Hf) as (w & html & Hget & Hp).
  destruct (process_success_inv _ _ _ _ _ Hp) as (discovered & lp & ds & Ha & -> & ->).
  destruct (analyse_page_inv _ _ _ _ Ha) as (start & page & _ & Hpage & _ & Hlp & Hds).
  simpl in Hi'.
  pose proof (collect_assets_length _ _ _ _ _ Hds) as Hlen.
  assert (Hi : exists el, nth_error (cheerio_load html) i = Some el).
  { destruct (nth_error (cheerio_load html) i) as [ el | ] eqn:Hi; [ now exists el | ].
    apply nth_error_None in Hi.
    assert (Hlt : i < length (snd (settle_all lp (mkSystem w (disk s))
                                              (cheerio_load html) ds)))
      by (apply nth_error_Some; congruence).
    rewrite settle_all_length in Hlt. lia. }
  destruct Hi as (el & Hi). exists w, html, el, lp, page.
  split; [ assumption | ]. split; [ assumption | ]. split; [ assumption | ].
  split; [ assumption | ].
  destruct (@settle_all_written lp (cheerio_load html) (mkSystem w (disk s))
              ds i el Hlen Hi) as [ Hsame | (d & data & Hd & Hnew & Hdisk) ].
  - left. congruence.
  - right. rewrite Hnew in Hi'. injection Hi' as <-.
    destruct (collect_assets_tasks _ _ _ _ _ _ Hds Hi Hd) as (Hasset & Htag & Hattr).
    pose proof Hds as Hsave.
    eapply collect_assets_savePath in Hsave; [ | exact Hd ].
    destruct Hsave as (filename & Hfile).
    assert (Hattr' : d_attr d = "href" \/ d_attr d = "src") by tauto.
    destruct (point_to_local_attrs d
                (path_relative (path_dirname lp) (d_savePath d)) el Hattr')
      as (_ & Hset & Hsrcset & _).
    exists (d_attr d), (d_savePath d), data, filename.
    split; [ assumption | ]. split; [ assumption | ]. split; [ exact Hfile | ].
    split; [ assumption | ]. split; [ assumption | ]. split.
    + apply replace_class_free. intros c [ <- | [] ]. reflexivity.
    + intros Himg. apply Hsrcset. congruence.
Qed.

End PageContents.

(** ** File names *)

Section FileNames.

Context {P : Platform}.

(** X12. The file of a page lies at most one folder below the session
    folder, under a name without any character of the sanitised class: it
    is [index.html] of the session folder, or [<name>/index.html], or
    [<name>] itself when [<name>] has an extension, where [<name>] is not
    empty and holds none of [<], [>], [:], the double quote, [/], the
    backslash, [|], [?] and [*]. *)
Theorem page_file_is_flat (pageUrl startUrl archivePath file : string) :
  getLocalFilePathForPage pageUrl startUrl archivePath = Some file ->
  file = path_join [archivePath; "index.html"]
  \/ exists name,
      name <> EmptyString
      /\ free_of unsafe_path_char name
      /\ (path_extname name = EmptyString
          /\ file = path_join [archivePath; path_join [name; "index.html"]]
          \/ path_extname name <> EmptyString
             /\ file = path_join [archivePath; name]).
Proof.
  unfold getLocalFilePathForPage.
  destruct (URL_new pageUrl) as [ u | ]; [ simpl | discriminate ].
  destruct (URL_new startUrl) as [ v | ]; [ simpl | discriminate ].
  set (name := Js.replace_class unsafe_path_char "_" (Js.strip_slashes (pathname u))).
  assert (Hfree : free_of unsafe_path_char name).
  { apply replace_class_free. intros c [ <- | [] ]. reflexivity. }
  destruct (Js.is_empty name || negb (hostname u =? hostname v)) eqn:Hroot.
  - intros [= <-]. now left.
  - apply orb_false_iff in Hroot. destruct Hroot as (Hname & _).
    assert (Hne : name <> EmptyString) by (destruct name; [ discriminate | discriminate ]).
    destruct (path_extname name) as [ | c ext ] eqn:Hext; simpl; intros [= <-]; right;
      exists name; rewrite Hext; split; try assumption; split; try assumption.
    + left. split; reflexivity.
    + right. split; [ discriminate | reflexivity ].
Qed.

End FileNames.


(** ** A session and the session without its malformed links *)

Section AsIfAbsent.

Context {P : Platform}.

(** *** One page *)

Lemma malformed_anchor (url : string) (a : element) :
  malformed url a = true ->
  Dom.is_anchor a = true
  /\ exists h, Dom.attr "href" a = Some h /\ URL_new_base h url = None.
Proof.
  unfold malformed. intros H. apply andb_true_iff in H. destruct H as [Ha Hh].
  split; [ assumption | ].
  destruct (Dom.attr "href" a) as [ h | ]; [ | discriminate ].
  exists h. split; [ reflexivity | ].
  now destruct (URL_new_base h url).
Qed.

Lemma discoverLinks_drops (url startDomain : string) (d d' : document) :
  drops url d d' ->
  discoverLinks url startDomain d = discoverLinks url startDomain d'.
Proof.
  unfold discoverLinks. induction 1 as [ | el d d' _ IH | a d d' Ha _ IH ]; simpl.
  - reflexivity.
  - destruct (Dom.is_anchor el); simpl; now rewrite IH.
  - destruct (malformed_anchor _ _ Ha) as (Hanchor & h & Hh & Hbad).
    rewrite Hanchor. simpl.
    now rewrite (malformed_not_discovered url a Hh Hbad).
Qed.

(** The downloads issued for a page and for the page without malformed
    links are the same, and settle alike. *)
Lemma collect_assets_drops (url archivePath id localPagePath : string)
      (d d' : document) :
  drops url d d' ->
  forall c : counters,
    match collect_assets url archivePath id d c,
          collect_assets url archivePath id d' c with
    | Some ts, Some ts' =>
        forall s : system,
          fst (settle_all localPagePath s d ts)
          = fst (settle_all localPagePath s d' ts')
          /\ drops url (snd (settle_all localPagePath s d ts))
                   (snd (settle_all localPagePath s d' ts'))
    | None, None => True
    | _, _ => False
    end.
Proof.
  induction 1 as [ | el d d' _ IH | a d d' Ha _ IH ]; intros c; simpl.
  - intros s. split; [ reflexivity | constructor ].
  - destruct (Dom.is_asset el).
    + destruct (prepare_asset url archivePath id el c) as [ r | ]; simpl; [ | exact I ].
      specialize (IH (fst r)).
      destruct (collect_assets url archivePath id d (fst r)) as [ ts | ];
        destruct (collect_assets url archivePath id d' (fst r)) as [ ts' | ];
        simpl; try assumption.
      intros s. destruct (IH (fst (settle localPagePath s el (snd r)))) as [Hs Hd].
      split; [ assumption | now constructor ].
    + specialize (IH c).
      destruct (collect_assets url archivePath id d c) as [ ts | ];
        destruct (collect_assets url archivePath id d' c) as [ ts' | ];
        simpl; try assumption.
      intros s. destruct (IH s) as [Hs Hd].
      split; [ assumption | now constructor ].
  - destruct (malformed_anchor _ _ Ha) as (Hanchor & h & Hh & Hbad).
    rewrite (anchor_not_asset a Hanchor). specialize (IH c).
    destruct (collect_assets url archivePath id d c) as [ ts | ];
      destruct (collect_assets url archivePath id d' c) as [ ts' | ];
      simpl; try assumption.
    intros s. destruct (IH s) as [Hs Hd].
    split; [ assumption | now apply drops_skip ].
Qed.

(** So are the downloads issued for a page that is given up. *)
Lemma issued_assets_drops (url archivePath id : string) (d d' : document) :
  drops url d d' ->
  forall c : counters,
    issued_assets url archivePath id d c = issued_assets url archivePath id d' c.
Proof.
  induction 1 as [ | el d d' _ IH | a d d' Ha _ IH ]; intros c; simpl.
  - reflexivity.
  - destruct (Dom.is_asset el); [ | apply IH ].
    destruct (prepare_asset url archivePath id el c) as [ [ c' [ t | ] ] | ];
      [ f_equal; apply IH | apply IH | reflexivity ].
  - destruct (malformed_anchor _ _ Ha) as (Hanchor & h & Hh & Hbad).
    rewrite (anchor_not_asset a Hanchor). apply IH.
Qed.

Lemma issued_drops (url archivePath startUrl : string) (d d' : document) :
  drops url d d' ->
  issued url archivePath startUrl d = issued url archivePath startUrl d'.
Proof.
  intros Hd. unfold issued.
  destruct (URL_new startUrl); [ simpl | reflexivity ].
  destruct (getLocalFilePathForPage url startUrl archivePath); [ simpl | reflexivity ].
  destruct (URL_new url); [ simpl | reflexivity ].
  now apply issued_assets_drops.
Qed.

Lemma process_page_drops (s : system) (url archivePath startUrl : string)
      (d d' : document) :
  drops url d d' ->
  same_fetch url (process_page s url archivePath startUrl d)
             (process_page s url archivePath startUrl d').
Proof.
  intros Hd. unfold same_fetch, process_page.
  rewrite (issued_drops archivePath startUrl Hd).
  generalize (fold_left settle_stray (issued url archivePath startUrl d') s).
  intros stray. unfold analyse_page.
  destruct (URL_new startUrl) as [ start | ]; simpl; [ | now split ].
  rewrite (discoverLinks_drops (hostname start) Hd).
  destruct (getLocalFilePathForPage url startUrl archivePath) as [ lp | ]; simpl;
    [ | now split ].
  destruct (URL_new url) as [ page | ]; simpl; [ | now split ].
  pose proof (@collect_assets_drops url archivePath
                (Js.replace_class unsafe_id_char "_"
                   (Js.or_else (Js.strip_slashes (pathname page)) "index"))
                lp d d' Hd (mkCounters 0 0 0)) as Hc.
  destruct (collect_assets url archivePath _ d (mkCounters 0 0 0)) as [ ts | ];
    destruct (collect_assets url archivePath _ d' (mkCounters 0 0 0)) as [ ts' | ];
    simpl; try contradiction; [ | now split ].
  destruct (Hc s) as [Hs Hdoc]. repeat split; assumption.
Qed.

Lemma rewrite_links_drops (startUrl domain archivePath : string)
      (visited : list string) (url localPagePath : string) (d d' : document) :
  drops url d d' ->
  drops url
        (rewrite_links startUrl domain archivePath visited url localPagePath d)
        (rewrite_links startUrl domain archivePath visited url localPagePath d').
Proof.
  induction 1 as [ | el d d' _ IH | a d d' Ha _ IH ]; simpl.
  - constructor.
  - now constructor.
  - destruct (malformed_anchor _ _ Ha) as (Hanchor & h & Hh & Hbad).
    rewrite Hanchor.
    rewrite (malformed_untouched_in_rewrite url a Hh Hbad).
    now apply drops_skip.
Qed.

(** *** The session *)

Variable load : string -> document.

Local Notation "'P''" := (with_parser P load).

(** The parser [load] returns what [cheerio.load] returns, without some of
    the links that are malformed on the page the markup is served for. *)
Hypothesis load_drops :
  forall (w : World) (url : string) (w' : World) (html : string),
    axios_get w url = (w', Some html) ->
    drops url (cheerio_load html) (load html).

Lemma fetch_drops (s : system) (url archivePath startUrl : string) :
  same_fetch url (@fetchPageAndAssets P s url archivePath startUrl)
             (@fetchPageAndAssets P' s url archivePath startUrl).
Proof.
  change (@fetchPageAndAssets P' s url archivePath startUrl)
    with (let '(w, response) := axios_get (net s) url in
          match response with
          | None => (mkSystem w (disk s), None)
          | Some htmlContent =>
              @process_page P (mkSystem w (disk s)) url archivePath startUrl
                            (load htmlContent)
          end).
  unfold fetchPageAndAssets.
  destruct (axios_get (net s) url) as [ w [ html | ] ] eqn:Hget.
  - apply process_page_drops. eapply load_drops. eassumption.
  - split; [ reflexivity | exact I ].
Qed.

Lemma map_set_same (m m' : list (string * document)) (url : string)
      (d d' : document) :
  same_pages m m' -> drops url d d' ->
  same_pages (Js.map_set m url d) (Js.map_set m' url d').
Proof.
  intros Hm Hd. induction Hm as [ | [k v] [k' v'] m m' [Hk Hv] Hrest IH ]; simpl.
  - constructor; [ now split | constructor ].
  - simpl in Hk, Hv. subst k'. destruct (String.eqb k url) eqn:Hku.
    + apply String.eqb_eq in Hku. subst k.
      constructor; [ now split | exact Hrest ].
    + constructor; [ now split | exact IH ].
Qed.

Lemma loop_step_agree (startUrl archivePath : string) (maxPagesToCrawl : Q)
      (st : @crawl_state P) (st' : @crawl_state P') :
  agree st st' ->
  match @loop_step P startUrl archivePath maxPagesToCrawl st,
        @loop_step P' startUrl archivePath maxPagesToCrawl st' with
  | Some next, Some next' => agree next next'
  | None, None => True
  | _, _ => False
  end.
Proof.
  intros (Hq & Hv & Hs & Hl & Hm).
  unfold loop_step, loop_cond. rewrite <- Hq, <- Hv.
  destruct ((0 <? length (queue st))%nat
            && Js.lt (Js.size (visited st)) maxPagesToCrawl); [ | exact I ].
  unfold loop_body. rewrite <- Hq, <- Hv, <- Hs, <- Hl.
  destruct (queue st) as [ | u rest ] eqn:Eq.
  - repeat split; congruence || assumption.
  - destruct (Js.includes (visited st) u).
    + repeat split; assumption.
    + pose proof (fetch_drops (sys st) u archivePath startUrl) as Hf.
      unfold same_fetch in Hf.
      destruct (@fetchPageAndAssets P (sys st) u archivePath startUrl)
        as [ s1 [ fr | ] ];
        destruct (@fetchPageAndAssets P' (sys st) u archivePath startUrl)
        as [ s1' [ fr' | ] ];
        simpl in Hf; destruct Hf as [Hs1 Hr]; try contradiction; simpl.
      * destruct Hr as [Hlinks Hdoc]. rewrite Hlinks.
        repeat split; try assumption. now apply map_set_same.
      * repeat split; assumption.
Qed.

Lemma phase1_agree (startUrl archivePath : string) (maxPagesToCrawl : Q)
      (st : @crawl_state P) :
  forall st' : @crawl_state P',
    agree st st' ->
    agree (@phase1 P startUrl archivePath maxPagesToCrawl st)
          (@phase1 P' startUrl archivePath maxPagesToCrawl st').
Proof.
  induction st as [ st IH ] using (well_founded_induction
                                     (@iterates_wf P startUrl archivePath
                                                   maxPagesToCrawl)).
  intros st' Hagree.
  rewrite (@phase1_step P), (@phase1_step P').
  pose proof (loop_step_agree startUrl archivePath maxPagesToCrawl Hagree) as Hstep.
  destruct (@loop_step P startUrl archivePath maxPagesToCrawl st) as [ next | ] eqn:Hn;
    destruct (@loop_step P' startUrl archivePath maxPagesToCrawl st') as [ next' | ];
    try contradiction.
  - apply IH; assumption.
  - assumption.
Qed.

Lemma same_file_refl (d : list fs_op) : Forall2 same_file d d.
Proof. induction d; constructor; [ apply same_op | assumption ]. Qed.

Lemma save_pages_same (startUrl domain archivePath : string) (visited : list string)
      (entries entries' : list (string * document)) :
  same_pages entries entries' ->
  forall d d' : list fs_op,
    Forall2 same_file d d' ->
    match save_pages startUrl domain archivePath visited entries d,
          save_pages startUrl domain archivePath visited entries' d' with
    | Some written, Some written' => Forall2 same_file written written'
    | None, None => True
    | _, _ => False
    end.
Proof.
  induction 1 as [ | [u doc] [u' doc'] entries entries' [Hu Hdoc] _ IH ];
    intros d d' Hd; simpl.
  - assumption.
  - simpl in Hu, Hdoc. subst u'.
    destruct (getLocalFilePathForPage u startUrl archivePath) as [ lp | ];
      simpl; [ | exact I ].
    apply IH. apply Forall2_app; [ assumption | ].
    constructor; [ apply same_op | ].
    constructor; [ | constructor ].
    apply same_page with (url := u). now apply rewrite_links_drops.
Qed.

Lemma save_pages_same_files (startUrl domain archivePath : string)
      (visited : list string) (entries entries' : list (string * document))
      (d d' written written' : list fs_op) :
  same_pages entries entries' ->
  Forall2 same_file d d' ->
  save_pages startUrl domain archivePath visited entries d = Some written ->
  save_pages startUrl domain archivePath visited entries' d' = Some written' ->
  Forall2 same_file written written'.
Proof.
  intros Hm Hd Hw Hw'.
  pose proof (save_pages_same startUrl domain archivePath visited Hm Hd) as H.
  now rewrite Hw, Hw' in H.
Qed.

(** X13. Malformed links change nothing of a session but their own
    presence in the pages written. Let a second parser return, for every
    page served, the document of [cheerio.load] without some of the anchors
    whose href does not resolve against the URL of the page. The session
    run with that parser is rejected when the session is, and otherwise
    has the same session folder, queue, visited set, fetch log, requests
    and manifest, and writes the same files in the same order, the pages
    differing only by the anchors left out. *)
Theorem startCrawl_as_if_absent (s : system) (startUrl : string)
        (maxPagesToCrawl : Q) :
  same_session (@startCrawl P s startUrl maxPagesToCrawl)
               (@startCrawl P' s startUrl maxPagesToCrawl).
Proof.
  unfold same_session.
  destruct (@startCrawl P s startUrl maxPagesToCrawl) as [ sess | ] eqn:HP;
    destruct (@startCrawl P' s startUrl maxPagesToCrawl) as [ sess' | ] eqn:HQ.
  - destruct (@startCrawl_inv P _ _ _ _ HP)
      as (start & d & Hstart & Hroot & Hcrawl & Hsave & Hman & Hsys).
    destruct (@startCrawl_inv P' _ _ _ _ HQ)
      as (start' & d' & Hstart' & Hroot' & Hcrawl' & Hsave' & Hman' & Hsys').
    change (@URL_new P startUrl = Some start') in Hstart'.
    assert (start' = start) by congruence. subst start'.
    change (s_root sess' = @session_root P (net s) (hostname start)) in Hroot'.
    assert (Hr : s_root sess = s_root sess') by congruence.
    assert (Hagree : agree (s_crawl sess) (s_crawl sess')).
    { rewrite Hcrawl, Hcrawl', <- Hr. apply phase1_agree.
      repeat split. constructor. }
    pose proof Hagree as (Hq & Hv & Hs & Hl & Hm).
    change (@save_pages P startUrl (hostname start) (s_root sess')
              (visited (s_crawl sess')) (pageDataMap (s_crawl sess'))
              (disk (sys (s_crawl sess'))) = Some d') in Hsave'.
    rewrite <- Hr, <- Hv, <- Hs in Hsave'.
    assert (Hsame : Forall2 same_file d d').
    { eapply save_pages_same_files;
        [ exact Hm | apply same_file_refl | exact Hsave | exact Hsave' ]. }
    change (@make_manifest P startUrl (s_root sess') (visited (s_crawl sess'))
              (net (sys (s_crawl sess'))) = Some (s_manifest sess')) in Hman'.
    rewrite <- Hr, <- Hv, <- Hs in Hman'.
    pose proof (eq_trans (eq_sym Hman) Hman') as Hmanifest.
    injection Hmanifest as Hmanifest.
    split; [ assumption | ]. split; [ assumption | ]. split; [ assumption | ].
    rewrite Hsys, Hsys'. cbn [net disk]. split; [ now rewrite Hs | ].
    apply Forall2_app; [ assumption | ].
    rewrite Hr, Hmanifest. constructor; [ apply same_op | constructor ].
  - destruct (@startCrawl_inv P _ _ _ _ HP) as (start & _ & Hstart & _).
    destruct (@startCrawl_completes P' s startUrl maxPagesToCrawl start Hstart)
      as (sess' & Hsess').
    congruence.
  - destruct (@startCrawl_inv P' _ _ _ _ HQ) as (start & _ & Hstart & _).
    destruct (@startCrawl_completes P s startUrl maxPagesToCrawl start Hstart)
      as (sess & Hsess).
    congruence.
  - exact I.
Qed.

End AsIfAbsent.

(** ** The page *)

Section Page.

Lemma trim_end_idempotent (s : string) : Js.trim_end (Js.trim_end s) = Js.trim_end s.
Proof.
  induction s as [ | c r IH ]; [ reflexivity | ].
  simpl. destruct (Js.trim_end r) as [ | d r' ] eqn:Hr.
  - destruct (Js.is_space c) eqn:Hc; [ reflexivity | ]. simpl. now rewrite Hc.
  - change (Js.trim_end (String c (String d r')))
      with (match Js.trim_end (String d r') with
            | EmptyString => if Js.is_space c then EmptyString else String c EmptyString
            | rest' => String c rest'
            end).
    now rewrite IH.
Qed.

Lemma trim_start_shape (s : string) :
  Js.trim_start s = EmptyString
  \/ exists c r, Js.trim_start s = String c r /\ Js.is_space c = false.
Proof.
  induction s as [ | c r IH ]; [ now left | ].
  simpl. destruct (Js.is_space c) eqn:Hc; [ assumption | ].
  right. exists c, r. now split.
Qed.

Lemma trim_end_head (c : ascii) (r : string) :
  Js.is_space c = false -> exists r', Js.trim_end (String c r) = String c r'.
Proof.
  intros Hc. simpl. destruct (Js.trim_end r) as [ | d r' ].
  - rewrite Hc. now exists EmptyString.
  - now exists (String d r').
Qed.

Lemma trim_idempotent (s : string) : Js.trim (Js.trim s) = Js.trim s.
Proof.
  unfold Js.trim at 2 3.
  destruct (trim_start_shape s) as [ -> | (c & r & -> & Hc) ]; [ reflexivity | ].
  destruct (@trim_end_head c r Hc) as (r' & Hr').
  unfold Js.trim. rewrite Hr'. simpl Js.trim_start. rewrite Hc.
  rewrite <- Hr'. apply trim_end_idempotent.
Qed.

Lemma trim_end_app (p t : string) :
  t <> EmptyString -> Js.trim_end t = t -> Js.trim_end (p ++ t) = (p ++ t)%string.
Proof.
  intros Hne Ht. induction p as [ | c p IH ]; [ assumption | ].
  simpl. rewrite IH. destruct (p ++ t)%string eqn:Hpt; [ | reflexivity ].
  destruct p; simpl in Hpt; [ contradiction | discriminate ].
Qed.

Lemma trim_trimmed (s : string) :
  Js.trim s <> EmptyString ->
  Js.trim_end (Js.trim s) = Js.trim s
  /\ exists c r, Js.trim s = String c r /\ Js.is_space c = false.
Proof.
  intros Hne. split; [ apply trim_end_idempotent | ].
  unfold Js.trim in *.
  destruct (trim_start_shape s) as [ Hs | (c & r & Hs & Hc) ]; rewrite Hs in *.
  - contradiction.
  - destruct (@trim_end_head c r Hc) as (r' & ->). now exists c, r'.
Qed.

Lemma https_has_scheme (t : string) : App.has_http_scheme ("https://" ++ t) = true.
Proof.
  unfold App.has_http_scheme. simpl. now destruct (Js.lower_case t).
Qed.

Lemma normalizeUrl_shape (urlString : string) :
  App.normalizeUrl urlString = EmptyString
  \/ App.has_http_scheme (App.normalizeUrl urlString) = true.
Proof.
  unfold App.normalizeUrl.
  destruct (Js.is_empty (Js.trim urlString)); [ now left | ].
  destruct (App.has_http_scheme (Js.trim urlString)) eqn:Hs; cbn [negb]; right;
    [ assumption | apply https_has_scheme ].
Qed.

(** X14. What [normalizeUrl] returns is normal: it is empty, or it starts
    with [http://] or [https://] in some mix of cases; it has no white
    space at either end; and normalising it again changes nothing. It is
    empty exactly when the input is blank. *)
Theorem normalizeUrl_normal (urlString : string) :
  (App.normalizeUrl urlString = EmptyString
   \/ App.has_http_scheme (App.normalizeUrl urlString) = true)
  /\ (App.normalizeUrl urlString = EmptyString <-> Js.trim urlString = EmptyString)
  /\ Js.trim (App.normalizeUrl urlString) = App.normalizeUrl urlString
  /\ App.normalizeUrl (App.normalizeUrl urlString) = App.normalizeUrl urlString.
Proof.
  pose proof https_has_scheme as Hhttps.
  assert (Htrim : Js.trim (App.normalizeUrl urlString) = App.normalizeUrl urlString).
  { unfold App.normalizeUrl.
    destruct (Js.trim urlString) as [ | c r ] eqn:Ht; [ reflexivity | ]. simpl Js.is_empty.
    cbv iota. destruct (App.has_http_scheme (String c r)); simpl negb; cbv iota.
    - rewrite <- Ht. apply trim_idempotent.
    - unfold Js.trim. change (Js.trim_start ("https://" ++ String c r))
        with ("https://" ++ String c r)%string.
      apply trim_end_app; [ discriminate | ].
      rewrite <- Ht. apply trim_end_idempotent. }
  split; [ | split; [ | split; [ exact Htrim | ] ] ].
  - apply normalizeUrl_shape.
  - unfold App.normalizeUrl.
    destruct (Js.trim urlString) as [ | c r ]; simpl; [ tauto | ].
    destruct (App.has_http_scheme (String c r)); simpl; split; discriminate.
  - pose proof (normalizeUrl_shape urlString) as Hshape.
    remember (App.normalizeUrl urlString) as n eqn:Hn. clear Hn.
    unfold App.normalizeUrl. rewrite Htrim.
    destruct Hshape as [ -> | Hscheme ]; [ reflexivity | ].
    rewrite Hscheme. now destruct n.
Qed.

(** X15. The server never answers a request of the page with its 400: a
    request that [triggerArchive] posts carries a URL with a scheme, and
    the handler launches the crawl of that URL, with a positive budget,
    whatever [maxPages] holds. *)
Theorem page_request_is_accepted (urlToArchive url : string) (maxPages : option Q) :
  App.triggerArchive urlToArchive = Some url ->
  App.has_http_scheme url = true
  /\ h_response (post_api_archive (mkBody (Some url) maxPages))
     = Json ("Archiving process for " ++ url ++ " has started.")
  /\ exists maxPagesToCrawl,
      h_launched (post_api_archive (mkBody (Some url) maxPages))
      = Some (url, maxPagesToCrawl)
      /\ (0 < maxPagesToCrawl)%Q.
Proof.
  unfold App.triggerArchive.
  destruct (App.normalizeUrl urlToArchive) as [ | c r ] eqn:Hn; [ discriminate | ].
  simpl. intros [= <-].
  destruct (normalizeUrl_shape urlToArchive) as [ Hempty | Hscheme ].
  - rewrite Hn in Hempty. discriminate.
  - rewrite Hn in Hscheme. split; [ assumption | ].
    unfold post_api_archive. simpl. split; [ reflexivity | ].
    eexists. split; [ reflexivity | ].
    destruct maxPages as [ n | ]; [ | reflexivity ].
    destruct (Js.gt n 0) eqn:Hpos; [ | reflexivity ].
    now apply (proj1 (gt_zero n)).
Qed.

End Page.

(** ** Version ids *)

Section VersionIds.

Context {P : Platform}.

Lemma free_of_cons (cls : ascii -> bool) (c : ascii) (s : string) :
  free_of cls (String c s) <-> cls c = false /\ free_of cls s.
Proof.
  unfold free_of. simpl. split.
  - intros H. split; [ apply H; now left | intros c' Hc'; apply H; now right ].
  - intros [Hc Hs] c' [ <- | Hin ]; [ assumption | now apply Hs ].
Qed.

Lemma string_app_assoc (a b c : string) : (a ++ (b ++ c) = (a ++ b) ++ c)%string.
Proof. induction a as [ | x a IH ]; simpl; [ reflexivity | now rewrite IH ]. Qed.

Lemma replace_class_app (cls : ascii -> bool) (r a b : string) :
  Js.replace_class cls r (a ++ b)
  = (Js.replace_class cls r a ++ Js.replace_class cls r b)%string.
Proof.
  induction a as [ | c a IH ]; simpl; [ reflexivity | ].
  destruct (cls c); rewrite IH; [ apply string_app_assoc | reflexivity ].
Qed.

Lemma replace_class_id (cls : ascii -> bool) (r s : string) :
  free_of cls s -> Js.replace_class cls r s = s.
Proof.
  induction s as [ | c s IH ]; simpl; [ reflexivity | ].
  intros H. apply free_of_cons in H. destruct H as [Hc Hs].
  rewrite Hc. now rewrite IH.
Qed.

Lemma replace_class_other (cls other : ascii -> bool) (r s : string) :
  free_of other r -> free_of other s -> free_of other (Js.replace_class cls r s).
Proof.
  intros Hr. induction s as [ | c s IH ]; simpl; [ intros _ c' [] | ].
  intros H. apply free_of_cons in H. destruct H as [Hc Hs].
  destruct (cls c).
  - unfold free_of. intros c'. rewrite list_ascii_of_string_app. intros Hin.
    apply in_app_or in Hin. destruct Hin as [ Hin | Hin ];
      [ now apply Hr | now apply IH ].
  - apply free_of_cons. split; [ assumption | now apply IH ].
Qed.

Lemma replace_back (a b : ascii) (s : string) :
  a <> b ->
  free_of (Ascii.eqb b) s ->
  Js.replace_class (Ascii.eqb b) (String a EmptyString)
                   (Js.replace_class (Ascii.eqb a) (String b EmptyString) s) = s.
Proof.
  intros Hab. induction s as [ | c s IH ]; simpl; [ reflexivity | ].
  intros H. apply free_of_cons in H. destruct H as [Hc Hs].
  destruct (Ascii.eqb a c) eqn:Hac; simpl.
  - apply Ascii.eqb_eq in Hac. subst c. rewrite Ascii.eqb_refl. simpl.
    now rewrite IH.
  - rewrite Hc. now rewrite IH.
Qed.

Lemma split_first_id (sep : ascii) (s : string) :
  free_of (Ascii.eqb sep) s -> Js.split_first sep s = s.
Proof.
  induction s as [ | c s IH ]; simpl; [ reflexivity | ].
  intros H. apply free_of_cons in H. destruct H as [Hc Hs].
  rewrite Ascii.eqb_sym, Hc. now rewrite IH.
Qed.

Lemma split_first_app (sep : ascii) (a b : string) :
  free_of (Ascii.eqb sep) a -> Js.split_first sep (a ++ String sep b) = a.
Proof.
  induction a as [ | c a IH ]; simpl.
  - intros _. now rewrite Ascii.eqb_refl.
  - intros H. apply free_of_cons in H. destruct H as [Hc Hs].
    rewrite Ascii.eqb_sym, Hc. now rewrite IH.
Qed.

Lemma split_second_app (sep : ascii) (a b : string) :
  free_of (Ascii.eqb sep) a ->
  App.split_second sep (a ++ String sep b) = Some (Js.split_first sep b).
Proof.
  induction a as [ | c a IH ]; simpl.
  - intros _. now rewrite Ascii.eqb_refl.
  - intros H. apply free_of_cons in H. destruct H as [Hc Hs].
    rewrite Ascii.eqb_sym, Hc. now apply IH.
Qed.

(** X16. The page reads the time of a session back from its version id.
    The folder of a session is named after the time it started, with every
    colon replaced by a hyphen; when that time reads [<date>T<time>], with
    no [T] or colon in the date and no [T] or hyphen in the time, as
    [toISOString] prints it, [formatTimestamp] parses the very string that
    [toISOString] returned. *)
Theorem version_id_reads_back (w : World) (domain date time : string) :
  toISOString w = (date ++ "T" ++ time)%string ->
  free_of (Ascii.eqb "T") date -> free_of (Ascii.eqb ":") date ->
  free_of (Ascii.eqb "T") time -> free_of (Ascii.eqb "-") time ->
  session_root w domain = path_join [dirname__; "archives"; domain; timestamp w]
  /\ App.parsableDateString (timestamp w) = Some (toISOString w).
Proof.
  intros Hiso HdT Hdc HtT Hth. split; [ reflexivity | ].
  unfold App.parsableDateString, timestamp. rewrite Hiso.
  change (date ++ "T" ++ time)%string with (date ++ String "T" time)%string.
  rewrite replace_class_app. rewrite (replace_class_id "-" Hdc).
  change (Js.replace_class (Ascii.eqb ":") "-" (String "T" time))
    with (String "T" (Js.replace_class (Ascii.eqb ":") "-" time)).
  rewrite split_second_app by assumption. simpl.
  rewrite split_first_app by assumption.
  rewrite split_first_id.
  - rewrite replace_back; [ reflexivity | discriminate | assumption ].
  - apply replace_class_other; [ | assumption ].
    intros c [ <- | [] ]. reflexivity.
Qed.

End VersionIds.

(** ** The listing of the versions of a site *)

Section Versions.

Context {P : Platform} {F : Storage}.

Lemma sort_insert_perm {A : Type} (compare : A -> A -> Z) (x : A) (l : list A) :
  Permutation (sort_insert compare x l) (x :: l).
Proof.
  induction l as [ | y l IH ]; simpl; [ reflexivity | ].
  destruct (compare x y <=? 0)%Z; [ reflexivity | ].
  rewrite IH. apply perm_swap.
Qed.

Lemma sort_by_perm {A : Type} (compare : A -> A -> Z) (l : list A) :
  Permutation (sort_by compare l) l.
Proof.
  induction l as [ | x l IH ]; simpl; [ reflexivity | ].
  rewrite sort_insert_perm. now constructor.
Qed.

Lemma sort_insert_sorted {A : Type} (compare : A -> A -> Z) (x : A) (l : list A) :
  (forall a b, (0 < compare a b)%Z -> (compare b a <= 0)%Z) ->
  Sorted (fun a b => (compare a b <= 0)%Z) l ->
  Sorted (fun a b => (compare a b <= 0)%Z) (sort_insert compare x l).
Proof.
  intros Htotal. induction l as [ | y l IH ]; simpl; intros Hs.
  - repeat constructor.
  - destruct (compare x y <=? 0)%Z eqn:Hxy.
    + constructor; [ assumption | ]. constructor. now apply Z.leb_le.
    + apply Z.leb_gt in Hxy. inversion Hs as [ | ? ? Hl Hhd ]; subst.
      constructor; [ now apply IH | ].
      destruct l as [ | z l ]; simpl.
      * constructor. now apply Htotal.
      * destruct (compare x z <=? 0)%Z; constructor.
        -- now apply Htotal.
        -- now inversion Hhd.
Qed.

Lemma sort_by_sorted {A : Type} (compare : A -> A -> Z) (l : list A) :
  (forall a b, (0 < compare a b)%Z -> (compare b a <= 0)%Z) ->
  Sorted (fun a b => (compare a b <= 0)%Z) (sort_by compare l).
Proof.
  intros Htotal. induction l as [ | x l IH ]; simpl; [ constructor | ].
  now apply sort_insert_sorted.
Qed.

Lemma collect_versions_some (domainDir : string) (folders : list string) :
  forall versions,
    collect_versions domainDir folders = Some versions ->
    map v_id versions
    = filter (fun folder => existsSync (manifestPath domainDir folder)) folders
    /\ Forall (fun v => exists m,
                   readJson (manifestPath domainDir (v_id v)) = Some m
                   /\ v_startUrl v = m_startUrl m
                   /\ v_entrypoint v = m_entrypoint m
                   /\ v_crawledPages v = m_crawledPages m) versions.
Proof.
  induction folders as [ | folder rest IH ]; simpl; intros versions.
  - intros [= <-]. split; [ reflexivity | constructor ].
  - destruct (existsSync (manifestPath domainDir folder)); [ | apply IH ].
    destruct (readJson (manifestPath domainDir folder)) as [ m | ] eqn:Hm;
      [ simpl | discriminate ].
    destruct (collect_versions domainDir rest) as [ vs | ]; [ simpl | discriminate ].
    intros [= <-]. destruct (IH vs eq_refl) as [Hids Hall].
    split; [ simpl; now rewrite Hids | ].
    constructor; [ | assumption ]. exists m. simpl. auto.
Qed.

Lemma collect_versions_none (domainDir : string) (folders : list string) :
  collect_versions domainDir folders = None
  <-> exists folder,
        In folder folders
        /\ existsSync (manifestPath domainDir folder) = true
        /\ readJson (manifestPath domainDir folder) = None.
Proof.
  induction folders as [ | folder rest IH ]; simpl.
  - split; [ discriminate | intros (f & [] & _) ].
  - destruct (existsSync (manifestPath domainDir folder)) eqn:He.
    + destruct (readJson (manifestPath domainDir folder)) as [ m | ] eqn:Hm; simpl.
      * destruct (collect_versions domainDir rest) as [ vs | ]; simpl.
        -- split; [ discriminate | ].
           intros (f & [ <- | Hin ] & Hex & Hread); [ congruence | ].
           assert (Hnone : Some vs = None) by (apply (proj2 IH); now exists f).
           discriminate.
        -- split; [ | reflexivity ]. intros _.
           destruct (proj1 IH eq_refl) as (f & Hin & Hex & Hread).
           exists f. auto.
      * split; [ | reflexivity ]. intros _. exists folder. auto.
    + rewrite IH. split.
      * intros (f & Hin & Hex & Hread). exists f. auto.
      * intros (f & [ <- | Hin ] & Hex & Hread); [ congruence | ]. now exists f.
Qed.

(** X17. The listing of a site shows one version for every folder of the
    site that holds a manifest, and nothing else: the ids listed are those
    folders rearranged, each version carries the start URL, the entry
    point and the pages of the manifest of its folder, and neighbours in
    the list are in descending order of id, as long as [localeCompare]
    never puts each of two strings after the other. *)
Theorem versions_listed (domain : string) (versions : list version) :
  (forall a b, (0 < localeCompare a b)%Z -> (localeCompare b a <= 0)%Z) ->
  get_api_archives_domain domain = Versions versions ->
  exists folders,
    readdir (path_join [dirname__; "archives"; domain]) = Some folders
    /\ Permutation
         (map v_id versions)
         (filter (fun folder =>
                    existsSync
                      (manifestPath (path_join [dirname__; "archives"; domain])
                                     folder))
                 folders)
    /\ (forall v, In v versions ->
          exists m,
            readJson (manifestPath (path_join [dirname__; "archives"; domain])
                                    (v_id v)) = Some m
            /\ v_startUrl v = m_startUrl m
            /\ v_entrypoint v = m_entrypoint m
            /\ v_crawledPages v = m_crawledPages m)
    /\ Sorted (fun a b => (localeCompare (v_id b) (v_id a) <= 0)%Z) versions.
Proof.
  intros Htotal. unfold get_api_archives_domain. cbv zeta.
  set (domainDir := path_join [dirname__; "archives"; domain]).
  destruct (readdir domainDir) as [ folders | ]; [ simpl | discriminate ].
  destruct (collect_versions domainDir folders) as [ vs | ] eqn:Hvs;
    [ | discriminate ].
  intros [= <-]. exists folders. split; [ reflexivity | ].
  destruct (collect_versions_some _ _ Hvs) as [Hids Hall].
  set (compare := fun a b : version => localeCompare (v_id b) (v_id a)).
  split; [ | split ].
  - rewrite <- Hids. apply Permutation_map. apply sort_by_perm.
  - intros v Hin. rewrite Forall_forall in Hall. apply Hall.
    eapply Permutation_in; [ apply sort_by_perm | exact Hin ].
  - apply (sort_by_sorted compare). intros a b. unfold compare. apply Htotal.
Qed.

(** X18. The listing of a site fails as a whole, with status 500, exactly
    when the folder of the site cannot be read or one of its version
    folders holds a manifest that cannot be read: one bad manifest hides
    every version of the site. *)
Theorem versions_fail_together (domain : string) :
  (get_api_archives_domain domain = Failure 500 "Failed to fetch versions."
   <-> readdir (path_join [dirname__; "archives"; domain]) = None
       \/ exists folders folder,
           readdir (path_join [dirname__; "archives"; domain]) = Some folders
           /\ In folder folders
           /\ existsSync (manifestPath (path_join [dirname__; "archives"; domain])
                                        folder) = true
           /\ readJson (manifestPath (path_join [dirname__; "archives"; domain])
                                      folder) = None)
  /\ forall code message,
      get_api_archives_domain domain = Failure code message ->
      code = 500 /\ message = "Failed to fetch versions.".
Proof.
  unfold get_api_archives_domain. cbv zeta.
  set (domainDir := path_join [dirname__; "archives"; domain]).
  destruct (readdir domainDir) as [ folders | ]; simpl.
  - destruct (collect_versions domainDir folders) as [ vs | ] eqn:Hvs.
    + split; [ | discriminate ]. split; [ discriminate | ].
      intros [ [=] | (fs & folder & [= <-] & Hrest) ].
      assert (Hnone : collect_versions domainDir folders = None)
        by (apply collect_versions_none; now exists folder).
      congruence.
    + split; [ | now intros code message [= <- <-] ].
      split; [ | reflexivity ]. intros _. right.
      apply collect_versions_none in Hvs. destruct Hvs as (folder & Hf).
      now exists folders, folder.
  - split; [ | now intros code message [= <- <-] ].
    split; [ now left | reflexivity ].
Qed.

End Versions.

(** ** The names of the assets of a page *)

Section AssetNames.

Context {P : Platform}.

(** [path.extname] returns nothing or an extension that starts with its
    dot. *)
Hypothesis extname_dot :
  forall p, path_extname p = EmptyString
            \/ exists r, path_extname p = String "." r.

Lemma digits_free (d : Decimal.uint) :
  free_of (Ascii.eqb ".") (NilEmpty.string_of_uint d).
Proof.
  induction d; simpl;
    try (apply free_of_cons; split; [ reflexivity | assumption ]).
  intros c [].
Qed.

Lemma of_nat_inj (n m : nat) : Js.of_nat n = Js.of_nat m -> n = m.
Proof.
  unfold Js.of_nat. intros H.
  apply (f_equal NilEmpty.uint_of_string) in H. rewrite !NilEmpty.usu in H.
  injection H as H. now apply DecimalNat.Unsigned.to_uint_inj.
Qed.

Lemma numbered_inj (n m : nat) (r r' : string) :
  (Js.of_nat n ++ String "." r = Js.of_nat m ++ String "." r')%string -> n = m.
Proof.
  intros H. apply (f_equal (Js.split_first ".")) in H.
  rewrite !split_first_app in H by apply digits_free.
  now apply of_nat_inj.
Qed.

Lemma or_else_dot (p fallback : string) :
  exists r, Js.or_else (path_extname p) (String "." fallback) = String "." r.
Proof.
  unfold Js.or_else. destruct (extname_dot p) as [ -> | (r & ->) ]; simpl; eauto.
Qed.

Lemma prepare_asset_counters (url archivePath id : string) (el : element)
      (c c' : counters) (od : option download) :
  prepare_asset url archivePath id el c = Some (c', od) ->
  css c <= css c' /\ img c <= img c' /\ js c <= js c'.
Proof.
  unfold prepare_asset.
  destruct (tagName el =? "link").
  - simpl. destruct (Js.truthy _ && _).
    + destruct (URL_new_base _ url); simpl; [ | discriminate ].
      intros [= <- _]. simpl. lia.
    + intros [= <- _]. simpl. lia.
  - destruct (tagName el =? "img").
    + destruct (URL_new_base _ url); simpl; [ | discriminate ].
      destruct (Js.truthy _ && _).
      * destruct (URL_new_base _ url); simpl; [ | discriminate ].
        intros [= <- _]. simpl. lia.
      * intros [= <- _]. simpl. lia.
    + destruct (tagName el =? "script").
      * destruct (URL_new_base _ url); simpl; [ | discriminate ].
        destruct (Js.truthy _ && _).
        -- destruct (URL_new_base _ url); simpl; [ | discriminate ].
           intros [= <- _]. simpl. lia.
        -- intros [= <- _]. simpl. lia.
      * simpl. intros [= <- _]. lia.
Qed.

Lemma prepare_asset_named (url archivePath id : string) (el : element)
      (c c' : counters) (d : download) :
  prepare_asset url archivePath id el c = Some (c', Some d) ->
  exists filename,
    d_savePath d = path_join [archivePath; "assets"; id; filename]
    /\ named c c' filename.
Proof.
  unfold prepare_asset.
  destruct (tagName el =? "link").
  - simpl. destruct (Js.truthy _ && _); [ | discriminate ].
    destruct (URL_new_base _ url); simpl; [ | discriminate ].
    intros [= <- <-]. simpl. eexists. split; [ reflexivity | ].
    apply named_style.
  - destruct (tagName el =? "img").
    + destruct (URL_new_base _ url) as [ u | ]; simpl; [ | discriminate ].
      destruct (Js.truthy _ && _); [ | discriminate ].
      destruct (URL_new_base _ url); simpl; [ | discriminate ].
      intros [= <- <-]. simpl. eexists. split; [ reflexivity | ].
      destruct (or_else_dot (pathname u) "jpg") as (r & Hr).
      change ".jpg" with (String "." "jpg"). rewrite Hr. apply named_image.
    + destruct (tagName el =? "script").
      * destruct (URL_new_base _ url) as [ u | ]; simpl; [ | discriminate ].
        destruct (Js.truthy _ && _); [ | discriminate ].
        destruct (URL_new_base _ url); simpl; [ | discriminate ].
        intros [= <- <-]. simpl. eexists. split; [ reflexivity | ].
        destruct (or_else_dot (pathname u) "js") as (r & Hr).
        change ".js" with (String "." "js"). rewrite Hr. apply named_script.
      * simpl. discriminate.
Qed.

Lemma named_later (c c' : counters) (filename : string) :
  named c c' filename -> later c filename.
Proof. intros [ | r | r ]; constructor; lia. Qed.

Lemma later_weaken (c c' : counters) (filename : string) :
  css c <= css c' -> img c <= img c' -> js c <= js c' ->
  later c' filename -> later c filename.
Proof. intros H1 H2 H3 [ n Hn | n r Hn | n r Hn ]; constructor; lia. Qed.

Lemma named_not_later (c c' : counters) (filename filename' : string) :
  named c c' filename -> later c' filename' -> filename <> filename'.
Proof.
  intros [ | r | r ] [ n Hn | n r' Hn | n r' Hn ]; simpl in Hn; simpl;
    try discriminate; intros [= H]; apply numbered_inj in H; lia.
Qed.

Lemma collect_assets_later (url archivePath id : string) (doc : document) :
  forall (c : counters) (ts : list (option download)) (i : nat) (d : download),
    collect_assets url archivePath id doc c = Some ts ->
    nth_error ts i = Some (Some d) ->
    exists filename,
      d_savePath d = path_join [archivePath; "assets"; id; filename]
      /\ later c filename.
Proof.
  induction doc as [ | e doc IH ]; intros c ts i d; simpl.
  - intros [= <-]. destruct i; discriminate.
  - destruct (Dom.is_asset e).
    + destruct (prepare_asset url archivePath id e c) as [ [c' od] | ] eqn:Hprep;
        [ simpl | discriminate ].
      destruct (collect_assets url archivePath id doc c') as [ ts' | ] eqn:Hts;
        [ simpl | discriminate ].
      intros [= <-]. destruct i as [ | i ]; simpl.
      * intros [= ->]. destruct (prepare_asset_named _ _ _ _ _ Hprep) as (f & Hf & Hn).
        exists f. split; [ assumption | ]. eapply named_later. eassumption.
      * intros Hi. destruct (IH c' ts' i d Hts Hi) as (f & Hf & Hl).
        exists f. split; [ assumption | ].
        destruct (prepare_asset_counters _ _ _ _ _ Hprep) as (H1 & H2 & H3).
        eapply later_weaken; eassumption.
    + destruct (collect_assets url archivePath id doc c) as [ ts' | ] eqn:Hts;
        [ simpl | discriminate ].
      intros [= <-]. destruct i as [ | i ]; simpl.
      * intros [=].
      * intros Hi. eapply IH; eassumption.
Qed.

Lemma collect_assets_ordered (url archivePath id : string) (doc : document) :
  forall (c : counters) (ts : list (option download)) (i j : nat)
         (d d' : download),
    collect_assets url archivePath id doc c = Some ts ->
    i < j ->
    nth_error ts i = Some (Some d) ->
    nth_error ts j = Some (Some d') ->
    exists filename filename',
      d_savePath d = path_join [archivePath; "assets"; id; filename]
      /\ d_savePath d' = path_join [archivePath; "assets"; id; filename']
      /\ filename <> filename'.
Proof.
  induction doc as [ | e doc IH ]; intros c ts i j d d'; simpl.
  - intros [= <-] _ Hi. destruct i; discriminate.
  - destruct (Dom.is_asset e).
    + destruct (prepare_asset url archivePath id e c) as [ [c' od] | ] eqn:Hprep;
        [ simpl | discriminate ].
      destruct (collect_assets url archivePath id doc c') as [ ts' | ] eqn:Hts;
        [ simpl | discriminate ].
      intros [= <-] Hij. destruct j as [ | j ]; [ lia | ].
      destruct i as [ | i ]; simpl.
      * intros [= ->] Hj.
        destruct (prepare_asset_named _ _ _ _ _ Hprep) as (f & Hf & Hn).
        destruct (collect_assets_later _ _ _ _ _ _ Hts Hj) as (f' & Hf' & Hl).
        exists f, f'. split; [ assumption | ]. split; [ assumption | ].
        eapply named_not_later; eassumption.
      * intros Hi Hj. eapply (IH c' ts' i j); try eassumption. lia.
    + destruct (collect_assets url archivePath id doc c) as [ ts' | ] eqn:Hts;
        [ simpl | discriminate ].
      intros [= <-] Hij. destruct j as [ | j ]; [ lia | ].
      destruct i as [ | i ]; simpl.
      * intros [=].
      * intros Hi Hj. eapply (IH c ts' i j); try eassumption. lia.
Qed.

(** X19. No asset of a page overwrites another asset of the same page.
    Provided [path.extname] returns nothing or an extension that starts
    with its dot, the files of two downloads that the asset loop of a page
    issues lie in the asset folder of the page under two different names. *)
Theorem asset_names_are_distinct (url archivePath id : string) (doc : document)
        (ts : list (option download)) (i j : nat) (d d' : download) :
  collect_assets url archivePath id doc (mkCounters 0 0 0) = Some ts ->
  i <> j ->
  nth_error ts i = Some (Some d) ->
  nth_error ts j = Some (Some d') ->
  exists filename filename',
    d_savePath d = path_join [archivePath; "assets"; id; filename]
    /\ d_savePath d' = path_join [archivePath; "assets"; id; filename']
    /\ filename <> filename'.
Proof.
  intros Hts Hij Hi Hj.
  destruct (Nat.lt_total i j) as [ Hlt | [ Heq | Hgt ] ]; [ | contradiction | ].
  - eapply collect_assets_ordered; eassumption.
  - assert (Hswap : exists filename' filename,
               d_savePath d' = path_join [archivePath; "assets"; id; filename']
               /\ d_savePath d = path_join [archivePath; "assets"; id; filename]
               /\ filename' <> filename)
      by (eapply collect_assets_ordered; eassumption).
    destruct Hswap as (f' & f & Hf' & Hf & Hne).
    exists f, f'. split; [ assumption | ]. split; [ assumption | ].
    now apply not_eq_sym.
Qed.

End AssetNames.

(** ** What the loop archives *)

Section Reachable.

Context {P : Platform}.
Variables (startUrl archivePath : string) (maxPagesToCrawl : Q).

Local Notation "'step'" := (loop_step startUrl archivePath maxPagesToCrawl).
Local Notation "st '~>*' st'" := (reaches startUrl archivePath maxPagesToCrawl st st')
  (at level 70).

Lemma asset_not_anchor (el : element) :
  Dom.is_asset el = true -> Dom.is_anchor el = false.
Proof.
  intros Hasset. destruct (Dom.is_anchor el) eqn:Hanchor; [ | reflexivity ].
  rewrite (anchor_not_asset el Hanchor) in Hasset. discriminate.
Qed.

Lemma point_to_local_tag (d : download) (relativePath : string) (el : element) :
  tagName (point_to_local d relativePath el) = tagName el.
Proof. unfold point_to_local. now destruct (d_tag d =? "img"). Qed.

Lemma settle_keeps_anchor (localPagePath : string) (s : system) (el : element)
      (task : option download) :
  Dom.is_anchor el = false ->
  Dom.is_anchor (snd (settle localPagePath s el task)) = false.
Proof.
  intros Hel. unfold settle. destruct task as [ d | ]; [ | assumption ].
  destruct (axios_get (net s) (d_absoluteUrl d)) as [ w [ data | ] ]; simpl;
    [ | assumption ].
  unfold Dom.is_anchor in *. now rewrite point_to_local_tag.
Qed.

(** The downloads of a page leave its anchors as they are. *)
Lemma settle_all_anchors (url id localPagePath : string) (doc : document) :
  forall (c : counters) (ts : list (option download)) (s : system),
    collect_assets url archivePath id doc c = Some ts ->
    filter Dom.is_anchor (snd (settle_all localPagePath s doc ts))
    = filter Dom.is_anchor doc.
Proof.
  induction doc as [ | e doc IH ]; intros c ts s; simpl.
  - now intros [= <-].
  - destruct (Dom.is_asset e) eqn:Hasset.
    + destruct (prepare_asset url archivePath id e c) as [ [c' od] | ];
        [ simpl | discriminate ].
      destruct (collect_assets url archivePath id doc c') as [ ts' | ] eqn:Hts;
        [ simpl | discriminate ].
      intros [= <-]. simpl.
      pose proof (asset_not_anchor e Hasset) as Hanchor.
      rewrite (settle_keeps_anchor localPagePath s e od Hanchor), Hanchor.
      eapply IH. eassumption.
    + destruct (collect_assets url archivePath id doc c) as [ ts' | ] eqn:Hts;
        [ simpl | discriminate ].
      intros [= <-]. simpl. erewrite IH by eassumption. reflexivity.
Qed.

(** The links reported by a fetch can be read off the document it returns. *)
Lemma fetched_links_in_document (s s' : system) (url : string) (fr : fetch_result) :
  fetchPageAndAssets s url archivePath startUrl = (s', Some fr) ->
  exists start,
    URL_new startUrl = Some start
    /\ forall link,
        In link (discoveredLinks fr)
        <-> In link (discoverLinks url (hostname start) (fr_doc fr)).
Proof.
  intros Hf. destruct (fetch_success_inv _ _ _ _ Hf) as (w & html & _ & Hp).
  destruct (process_success_inv _ _ _ _ _ Hp) as (discovered & lp & ds & Ha & _ & ->).
  destruct (analyse_page_inv _ _ _ _ Ha) as (start & page & Hs & _ & -> & _ & Hds).
  exists start. split; [ assumption | ]. intros link. simpl.
  rewrite dedupe_In. unfold discoverLinks.
  erewrite settle_all_anchors by eassumption. reflexivity.
Qed.

Lemma map_set_fresh {V : Type} (m : list (string * V)) (k : string) (v : V) :
  ~ In k (map fst m) -> Js.map_set m k v = m ++ [(k, v)].
Proof.
  induction m as [ | [k' v'] m IH ]; simpl; [ reflexivity | ].
  intros Hk. destruct (String.eqb k' k) eqn:Hkk.
  - apply String.eqb_eq in Hkk. tauto.
  - rewrite IH by tauto. reflexivity.
Qed.

(** X20. The loop archives nothing that the start page does not lead to.
    At every iteration boundary, a URL that is visited or queued is the
    start URL, or one of the links of a page that is visited, as read off
    the document stored for that page: the fragment-free absolute form of
    the href of one of its anchors, on the host of the start URL. *)
Theorem visited_pages_are_linked (s : system) (st : crawl_state) (url : string) :
  initial_state s startUrl archivePath ~>* st ->
  In url (visited st) \/ In url (queue st) ->
  url = startUrl
  \/ exists start page doc,
      URL_new startUrl = Some start
      /\ In page (visited st)
      /\ In (page, doc) (pageDataMap st)
      /\ In url (discoverLinks page (hostname start) doc).
Proof.
  intros Hr. revert url.
  enough (Hinv : map fst (pageDataMap st) = visited st
                 /\ forall url,
                     In url (visited st) \/ In url (queue st) ->
                     url = startUrl
                     \/ exists start page doc,
                         URL_new startUrl = Some start
                         /\ In (page, doc) (pageDataMap st)
                         /\ In url (discoverLinks page (hostname start) doc)).
  { destruct Hinv as [Hkeys Hinv]. intros url Hurl.
    destruct (Hinv url Hurl) as [ -> | (start & page & doc & Hs & Hin & Hl) ];
      [ now left | right ].
    exists start, page, doc. repeat split; try assumption.
    rewrite <- Hkeys. apply in_map_iff. now exists (page, doc). }
  revert st Hr.
  apply (reaches_invariant
           (fun st => map fst (pageDataMap st) = visited st
                      /\ forall url,
                          In url (visited st) \/ In url (queue st) ->
                          url = startUrl
                          \/ exists start page doc,
                              URL_new startUrl = Some start
                              /\ In (page, doc) (pageDataMap st)
                              /\ In url (discoverLinks page (hostname start) doc))).
  - split; [ reflexivity | ]. simpl. intros url [ [] | [ <- | [] ] ]. now left.
  - intros a b [Hkeys Hinv] Hstep. apply loop_step_cases in Hstep. destruct Hstep
      as (_ & u & rest & Hq &
          [ (_ & ->) | [ (_ & s' & _ & ->) | (Hu & s' & fr & Hf & ->) ] ]);
      simpl.
    + split; [ assumption | ]. intros url [ Hv | Hin ]; apply Hinv;
        [ now left | right; rewrite Hq; now right ].
    + split; [ assumption | ]. intros url [ Hv | Hin ]; apply Hinv;
        [ now left | right; rewrite Hq; now right ].
    + assert (Hfresh : ~ In u (map fst (pageDataMap a))) by now rewrite Hkeys.
      rewrite (map_set_fresh _ _ (fr_doc fr) Hfresh). split.
      { rewrite map_app, Hkeys. reflexivity. }
      assert (Hold : forall url,
                 In url (visited a) \/ In url (queue a) ->
                 url = startUrl
                 \/ exists start page doc,
                     URL_new startUrl = Some start
                     /\ In (page, doc) (pageDataMap a ++ [(u, fr_doc fr)])
                     /\ In url (discoverLinks page (hostname start) doc)).
      { intros url Hurl.
        destruct (Hinv url Hurl) as [ -> | (start & page & doc & Hs & Hin & Hl) ];
          [ now left | right ].
        exists start, page, doc. repeat split; try assumption.
        apply in_or_app. now left. }
      intros url [ Hv | Hin ].
      * apply in_app_or in Hv. destruct Hv as [ Hv | [ <- | [] ] ]; apply Hold;
          [ now left | right; rewrite Hq; now left ].
      * apply enqueue_fold_In in Hin. destruct Hin as [ Hin | Hin ].
        -- apply Hold. right. rewrite Hq. now right.
        -- right. destruct (fetched_links_in_document _ _ Hf) as (start & Hs & Hlinks).
           exists start, u, (fr_doc fr). split; [ assumption | ]. split.
           ++ apply in_or_app. right. now left.
           ++ now apply Hlinks.
Qed.

End Reachable.

(** ** Links between archived pages *)

Section LocalLinks.

Context {P : Platform}.


End LocalLinks.

(** ** Assets that cannot be downloaded *)

Section FailedDownloads.

Context {P : Platform}.




End FailedDownloads.

(** ** Sessions that archive less than they seem to *)

Section Losses.

Context {P : Platform}.

(** X23. The answer that archiving has started does not say that a
    session exists. When the URL of a request is not empty and [new URL]
    rejects it, the handler answers that the archiving process has started
    and launches a session, and the session is rejected before it does
    anything. *)
Theorem unparsable_url_is_accepted (s : system) (url : string)
        (maxPages : option Q) :
  url <> EmptyString ->
  URL_new url = None ->
  h_response (post_api_archive (mkBody (Some url) maxPages))
  = Json ("Archiving process for " ++ url ++ " has started.")
  /\ exists maxPagesToCrawl,
      h_launched (post_api_archive (mkBody (Some url) maxPages))
      = Some (url, maxPagesToCrawl)
      /\ startCrawl s url maxPagesToCrawl = None.
Proof.
  intros Hne Hurl. unfold post_api_archive.
  destruct url as [ | c url ]; [ contradiction | ]. simpl.
  split; [ reflexivity | ]. eexists. split; [ reflexivity | ].
  unfold startCrawl. now rewrite Hurl.
Qed.

(** X24. Pages that differ only in what follows the path share a file.
    When two visited URLs have the same path, the session writes the pages
    of both to one and the same file, so that only the one written last
    remains. *)
Theorem same_path_same_file (s : system) (startUrl : string)
        (maxPagesToCrawl : Q) (sess : session)
        (url1 url2 : string) (u1 u2 : URL) :
  startCrawl s startUrl maxPagesToCrawl = Some sess ->
  In url1 (visited (s_crawl sess)) ->
  In url2 (visited (s_crawl sess)) ->
  URL_new url1 = Some u1 ->
  URL_new url2 = Some u2 ->
  pathname u1 = pathname u2 ->
  exists file doc1 doc2,
    getLocalFilePathForPage url1 startUrl (s_root sess) = Some file
    /\ getLocalFilePathForPage url2 startUrl (s_root sess) = Some file
    /\ In (url1, doc1) (pageDataMap (s_crawl sess))
    /\ In (url2, doc2) (pageDataMap (s_crawl sess))
    /\ In (WriteFile file
             (Html (rewrite_links startUrl (hostname u1) (s_root sess)
                                  (visited (s_crawl sess)) url1 file doc1)))
          (disk (s_system sess))
    /\ In (WriteFile file
             (Html (rewrite_links startUrl (hostname u2) (s_root sess)
                                  (visited (s_crawl sess)) url2 file doc2)))
          (disk (s_system sess)).
Proof.
  intros Hsess Hv1 Hv2 Hu1 Hu2 Hpath.
  destruct (startCrawl_inv _ _ _ Hsess)
    as (start & d & Hstart & _ & Hst & Hsave & _ & Hsys).
  assert (Hr : reaches startUrl (s_root sess) maxPagesToCrawl
                       (initial_state s startUrl (s_root sess)) (s_crawl sess)).
  { rewrite Hst. apply phase1_reaches. }
  destruct (stored_pages Hr) as [Hkeys Hpaths].
  destruct (frontier_hosts Hr) as [Hhosts _].
  destruct (@save_pages_writes P startUrl (hostname start) (s_root sess)
              (visited (s_crawl sess)) (pageDataMap (s_crawl sess))
              (disk (sys (s_crawl sess))))
    as (written & Hsave' & _ & Hall).
  { intros url Hin. apply Hpaths. now rewrite <- Hkeys. }
  rewrite Hsave in Hsave'. injection Hsave' as ->.
  assert (Hdisk : forall op, In op written -> In op (disk (s_system sess))).
  { intros op Hop. rewrite Hsys. simpl. apply in_or_app. left.
    apply in_or_app. now right. }
  assert (Hh1 : hostname u1 = hostname start).
  { pose proof (Hhosts _ (or_intror Hv1)) as H. unfold host_of in H.
    rewrite Hu1, Hstart in H. simpl in H. congruence. }
  assert (Hh2 : hostname u2 = hostname start).
  { pose proof (Hhosts _ (or_intror Hv2)) as H. unfold host_of in H.
    rewrite Hu2, Hstart in H. simpl in H. congruence. }
  assert (Hk1 : In url1 (map fst (pageDataMap (s_crawl sess)))) by now rewrite Hkeys.
  assert (Hk2 : In url2 (map fst (pageDataMap (s_crawl sess)))) by now rewrite Hkeys.
  apply in_map_iff in Hk1. destruct Hk1 as ([k1 doc1] & Hfst1 & He1).
  apply in_map_iff in Hk2. destruct Hk2 as ([k2 doc2] & Hfst2 & He2).
  simpl in Hfst1, Hfst2. subst k1 k2.
  destruct (Hall _ _ He1) as (f1 & Hf1 & Hw1).
  destruct (Hall _ _ He2) as (f2 & Hf2 & Hw2).
  assert (Hsame : f1 = f2).
  { revert Hf1 Hf2. unfold getLocalFilePathForPage.
    rewrite Hu1, Hu2, Hstart. simpl. rewrite Hpath, Hh1, Hh2. congruence. }
  subst f2. exists f1, doc1, doc2. rewrite Hh1, Hh2.
  repeat split; try assumption; apply Hdisk; assumption.
Qed.

End Losses.

(** ** Running the engine *)

(** A result that is returned, and what holds of it. *)
Lemma returned {A : Type} (o : option A) (holds : A -> Prop) :
  match o with
  | Some a => holds a
  | None => False
  end ->
  exists a, o = Some a /\ holds a.
Proof.
  destruct o as [ a | ]; [ | intros [] ]. intros Ha. now exists a.
Qed.

(** An iteration of the loop whose condition holds. *)
Lemma loop_step_body {P : Platform} (startUrl archivePath : string)
      (maxPagesToCrawl : Q) (st : crawl_state) :
  loop_cond maxPagesToCrawl st = true ->
  loop_step startUrl archivePath maxPagesToCrawl st
  = Some (loop_body startUrl archivePath st).
Proof. intros Hc. unfold loop_step. now rewrite Hc. Qed.

Ltac iterate_once :=
  eapply reaches_next; [ | apply loop_step_body; vm_compute; reflexivity ].

(** ** The engine at work *)


(** C6 at work: [/docs/guide/] is stored as [docs_guide/index.html]. *)
Lemma getLocalFilePathForPage_witness :
  @URL_new Sites.dead "http://h/docs/guide/"
  = Some (mkURL "http://h/docs/guide/" "h" "/docs/guide/")
  /\ @getLocalFilePathForPage Sites.dead "http://h/docs/guide/" "http://h/" "/arch"
     = Some (@path_join Sites.dead
               ["/arch";
                @PathMapperSpec.name Sites.dead
                  (mkURL "http://h/docs/guide/" "h" "/docs/guide/")
                  (mkURL "http://h/" "h" "/")]).
Proof.
  split; [ reflexivity | ].
  apply (@getLocalFilePathForPage_as_specified Sites.dead); reflexivity.
Defined.

(** C9 at work: a body with a URL and no [maxPages] launches a session of
    budget 10. *)
Lemma post_api_archive_witness :
  h_launched (post_api_archive (mkBody (Some "http://h/") None))
  = Some ("http://h/", 10%Q).
Proof.
  destruct (proj2 (proj2 (post_api_archive_as_amended
                            (mkBody (Some "http://h/") None)))
                  "http://h/" eq_refl)
    as (budget & Heq & _ & _ & Hdefault).
  - discriminate.
  - rewrite Heq. simpl. now rewrite (Hdefault eq_refl).
Defined.

(** C1, the claim as stated fails: [/a] does not answer; it is fetched
    when the home page is crawled and again after [/b], which links to it,
    has been crawled. *)
Lemma failed_url_fetched_twice :
  exists sess,
    @startCrawl Sites.two_pages (@Demo.boot Sites.two_pages 0) "http://h/" 5 = Some sess
    /\ fetchLog (s_crawl sess)
       = [("http://h/", true); ("http://h/a", false);
          ("http://h/b", true); ("http://h/a", false)]
    /\ ~ NoDup (map fst (fetchLog (s_crawl sess))).
Proof.
  eexists. split; [ vm_compute; reflexivity | ]. split; [ reflexivity | ].
  simpl. intros Hnd.
  inversion Hnd as [ | ? ? _ Hrest ]. inversion Hrest as [ | ? ? Hfresh _ ].
  apply Hfresh. simpl. tauto.
Qed.

(** C1 at work, on the same run. *)
Lemma no_fetch_after_success_witness :
  exists st,
    @reaches Sites.two_pages Sites.home Sites.root 5 Sites.entered st
    /\ fetchLog st = [("http://h/", true); ("http://h/a", false);
                      ("http://h/b", true)]
    /\ no_refetch (fetchLog st).
Proof.
  assert (Hr : exists st,
             @reaches Sites.two_pages Sites.home Sites.root 5 Sites.entered st
             /\ fetchLog st = [("http://h/", true); ("http://h/a", false);
                               ("http://h/b", true)]).
  { exists (@loop_body Sites.two_pages Sites.home Sites.root
              (@loop_body Sites.two_pages Sites.home Sites.root
                 (@loop_body Sites.two_pages Sites.home Sites.root Sites.entered))).
    split.
    - iterate_once. iterate_once. iterate_once. apply reaches_here.
    - vm_compute. reflexivity. }
  destruct Hr as (st & Hr & Hlog). exists st. repeat split; try assumption.
  exact (proj1 (proj2 (@no_fetch_after_success Sites.two_pages Sites.home
                         Sites.root 5 (@Demo.boot Sites.two_pages 0) st Hr))).
Defined.

(** C3, the claim as stated fails: a request asks for 2.5 pages, as the
    number box of the page lets it; the handler passes the number on, and
    the session visits three pages, which is more than its budget. *)
Lemma fractional_budget_exceeded :
  h_launched (post_api_archive (mkBody (Some Sites.home) (Some 2.5%Q)))
  = Some (Sites.home, 2.5%Q)
  /\ exists sess,
      @startCrawl MoreSites.queries (@Demo.boot MoreSites.queries 0)
        Sites.home 2.5%Q = Some sess
      /\ visited (s_crawl sess) = ["http://h/"; "http://h/p?x=1"; "http://h/p?x=2"]
      /\ ~ (Js.size (visited (s_crawl sess)) <= 2.5)%Q.
Proof.
  split; [ reflexivity | ].
  apply returned. vm_compute. split; [ reflexivity | ].
  intros H. apply H. reflexivity.
Qed.

(** C3 at work: the session the trigger launches for budget 1 stops with
    one page visited. *)
Lemma visited_grows_within_budget_witness :
  exists st,
    h_launched (post_api_archive (mkBody (Some Sites.home) (Some 1%Q)))
    = Some (Sites.home, 1%Q)
    /\ @reaches Sites.two_pages Sites.home Sites.root 1 Sites.entered st
    /\ visited st = ["http://h/"]
    /\ (Z.of_nat (length (visited st)) <= 1)%Z.
Proof.
  assert (Hr : exists st,
             @reaches Sites.two_pages Sites.home Sites.root 1 Sites.entered st
             /\ visited st = ["http://h/"]).
  { eexists. split.
    - eapply reaches_next; [ apply reaches_here | vm_compute; reflexivity ].
    - reflexivity. }
  destruct Hr as (st & Hr & Hv). exists st. repeat split; try assumption.
  apply (proj1 (proj2 (@visited_grows_within_budget Sites.two_pages Sites.home
                         Sites.root 1
                         (mkBody (Some Sites.home) (Some 1%Q))
                         (@Demo.boot Sites.two_pages 0) st eq_refl Hr)) 1%Z).
  reflexivity.
Defined.

(** C4 at work. *)
Lemma visited_on_start_host_witness :
  exists st,
    @reaches Sites.two_pages Sites.home Sites.root 5 Sites.entered st
    /\ In "http://h/b" (visited st)
    /\ exists host,
        @host_of Sites.two_pages Sites.home = Some host
        /\ @host_of Sites.two_pages "http://h/b" = Some host.
Proof.
  assert (Hr : exists st,
             @reaches Sites.two_pages Sites.home Sites.root 5 Sites.entered st
             /\ In "http://h/b" (visited st)).
  { exists (@loop_body Sites.two_pages Sites.home Sites.root
              (@loop_body Sites.two_pages Sites.home Sites.root
                 (@loop_body Sites.two_pages Sites.home Sites.root Sites.entered))).
    split.
    - iterate_once. iterate_once. iterate_once. apply reaches_here.
    - vm_compute. right. left. reflexivity. }
  destruct Hr as (st & Hr & Hin). exists st. repeat split; try assumption.
  exact (@visited_on_start_host Sites.two_pages Sites.home Sites.root 5
                                (@Demo.boot Sites.two_pages 0) st "http://h/b" Hr Hin).
Defined.

(** C5 at work. *)
Lemma manifest_lists_visited_witness :
  exists sess,
    @startCrawl Sites.two_pages (@Demo.boot Sites.two_pages 0) Sites.home 5 = Some sess
    /\ m_crawledPages (s_manifest sess) = ["http://h/"; "http://h/b"]
    /\ NoDup (m_crawledPages (s_manifest sess)).
Proof.
  assert (Hs : exists sess,
             @startCrawl Sites.two_pages (@Demo.boot Sites.two_pages 0) Sites.home 5 = Some sess
             /\ m_crawledPages (s_manifest sess) = ["http://h/"; "http://h/b"]).
  { eexists. split; [ vm_compute; reflexivity | reflexivity ]. }
  destruct Hs as (sess & Hs & Hpages). exists sess. repeat split; try assumption.
  exact (proj1 (proj2 (proj2 (proj2
           (@manifest_lists_visited Sites.two_pages (@Demo.boot Sites.two_pages 0) Sites.home 5 sess Hs))))).
Defined.

(** C10 at work: nothing answers, and the manifest is written all the
    same, with no page in it. *)
Lemma manifest_written_unconditionally_witness :
  exists sess,
    @startCrawl Sites.dead (@Demo.boot Sites.dead 0) Sites.home 10 = Some sess
    /\ m_crawledPages (s_manifest sess) = [].
Proof.
  destruct (@manifest_written_unconditionally Sites.dead (@Demo.boot Sites.dead 0) Sites.home 10
              (mkURL "http://h/" "h" "/") eq_refl)
    as (sess & Hs & _ & _ & _ & Hfail).
  exists sess. split; [ exact Hs | ].
  apply Hfail.
  destruct (@startCrawl_inv Sites.dead _ _ _ _ Hs) as (start & _ & Hstart & Hroot & _).
  rewrite Hroot. injection Hstart as <-. vm_compute. reflexivity.
Defined.


(** C2, the claim as stated fails: the anchor of the home page has the empty
    href, which starts with none of [#], [mailto:] and [tel:] and resolves
    to the home page itself, a visited page of the crawl domain. The claim
    has it rewritten to the relative path from the directory of the page to
    its local path, [index.html]; the page is written with the href left
    empty. *)
Lemma empty_href_not_rewritten :
  exists sess,
    @startCrawl Sites.empty_href (@Demo.boot Sites.empty_href 0) Sites.home 5
    = Some sess
    /\ pageDataMap (s_crawl sess)
       = [(Sites.home, [mkElement "a" [("href", EmptyString)]])]
    /\ visited (s_crawl sess) = [Sites.home]
    /\ Js.startsWith EmptyString "#" = false
    /\ Js.startsWith EmptyString "mailto:" = false
    /\ Js.startsWith EmptyString "tel:" = false
    /\ @URL_new_base Sites.empty_href EmptyString Sites.home
       = Some (mkURL "http://h/" "h" "/")
    /\ @getLocalFilePathForPage Sites.empty_href Sites.home Sites.home Sites.root
       = Some (Sites.root ++ "/index.html")%string
    /\ @path_relative Sites.empty_href
         (@path_dirname Sites.empty_href (Sites.root ++ "/index.html")%string)
         (Sites.root ++ "/index.html")%string
       = "index.html"
    /\ disk (s_system sess)
       = [EnsureDir Sites.root;
          EnsureDir Sites.root;
          WriteFile (Sites.root ++ "/index.html")%string
                    (Html [mkElement "a" [("href", EmptyString)]]);
          WriteFile (Sites.root ++ "/_manifest.json")%string
                    (ManifestJson (s_manifest sess))].
Proof.
  apply returned. vm_compute. repeat split.
Qed.

(** C2 at work: on the home page of the two-page site, the link to [/b#f],
    a visited page, is written as [b/index.html]. *)
Lemma anchors_rewritten_witness :
  exists sess localPagePath doc',
    @startCrawl Sites.two_pages (@Demo.boot Sites.two_pages 0) Sites.home 5
    = Some sess
    /\ In (WriteFile localPagePath (Html doc')) (disk (s_system sess))
    /\ nth_error doc' 1 = Some (mkElement "a" [("href", "b/index.html")]).
Proof.
  assert (Hs : exists sess,
             @startCrawl Sites.two_pages (@Demo.boot Sites.two_pages 0) Sites.home 5
             = Some sess
             /\ In (Sites.home,
                    [mkElement "a" [("href", "/a")];
                     mkElement "a" [("href", "/b#f")];
                     mkElement "img" [("src", "assets/index/image-1.png")]])
                   (pageDataMap (s_crawl sess))
             /\ visited (s_crawl sess) = ["http://h/"; "http://h/b"]
             /\ s_root sess = Sites.root).
  { apply returned. vm_compute.
    split; [ left; reflexivity | split; reflexivity ]. }
  destruct Hs as (sess & Hs & Hin & Hvis & Hroot).
  destruct (@anchors_rewritten Sites.two_pages _ _ _ sess _ _ Hs Hin)
    as (lp & doc' & Hlp & Hw & _ & Hall).
  exists sess, lp, doc'. split; [ exact Hs | ]. split; [ exact Hw | ].
  assert (Hne : "/b#f" <> EmptyString) by discriminate.
  assert (Hres : @URL_new_base Sites.two_pages "/b#f" Sites.home
                 = Some (mkURL "http://h/b#f" "h" "/b"))
    by (vm_compute; reflexivity).
  assert (Htarget : @URL_new Sites.two_pages "http://h/b"
                    = Some (mkURL "http://h/b" "h" "/b"))
    by (vm_compute; reflexivity).
  destruct (Hall 1 (mkElement "a" [("href", "/b#f")]) "/b#f"
                 (mkURL "http://h/b#f" "h" "/b") (mkURL "http://h/b" "h" "/b")
                 eq_refl eq_refl eq_refl Hne eq_refl eq_refl eq_refl Hres Htarget)
    as (newHref & Hnth & Hon & _).
  rewrite Hnth. destruct Hon as (tp & Htp & ->).
  { split; [ vm_compute; reflexivity | rewrite Hvis; simpl; tauto ]. }
  rewrite Hroot in Hlp, Htp. vm_compute in Hlp, Htp.
  injection Hlp as <-. injection Htp as <-. reflexivity.
Defined.

(** C7, where the code breaks the claim: the home page is retrieved and
    parsed; its image has the source [http://], which [new URL] rejects
    outside any inner [try]; the fetch of the page returns [null], and the
    session that starts there archives no page. *)
Theorem malformed_asset_url_drops_page :
  @axios_get Sites.bad_asset 0 Sites.home = (1, Some "<img src='http://'>")
  /\ @cheerio_load Sites.bad_asset "<img src='http://'>"
     = [mkElement "img" [("src", "http://")]]
  /\ @URL_new_base Sites.bad_asset "http://" Sites.home = None
  /\ @fetchPageAndAssets Sites.bad_asset (@Demo.boot Sites.bad_asset 0)
       Sites.home Sites.root Sites.home
     = (@mkSystem (@World Sites.bad_asset) 1 [], None)
  /\ exists sess,
      @startCrawl Sites.bad_asset (@Demo.boot Sites.bad_asset 0) Sites.home 5
      = Some sess
      /\ fetchLog (s_crawl sess) = [(Sites.home, false)]
      /\ m_crawledPages (s_manifest sess) = [].
Proof.
  repeat split; try reflexivity.
  eexists. split; [ vm_compute; reflexivity | ]. split; reflexivity.
Qed.

(** A page that is given up leaves the files of the downloads issued
    before the throw: the image before [http://] is requested and stored,
    the page is dropped, and the session writes the manifest of no page
    beside the image. *)
Lemma dropped_page_leaves_its_downloads :
  @fetchPageAndAssets MoreSites.stray_image (@Demo.boot MoreSites.stray_image 0)
    Sites.home Sites.root Sites.home
  = (@mkSystem (@World MoreSites.stray_image) 2
       [EnsureDir (Sites.root ++ "/assets/index");
        WriteFile (Sites.root ++ "/assets/index/image-1.png") (AssetData "PNG")],
     None)
  /\ exists sess,
      @startCrawl MoreSites.stray_image (@Demo.boot MoreSites.stray_image 0)
        Sites.home 5 = Some sess
      /\ m_crawledPages (s_manifest sess) = []
      /\ In (WriteFile (Sites.root ++ "/assets/index/image-1.png") (AssetData "PNG"))
            (disk (s_system sess))
      /\ In (WriteFile (Sites.root ++ "/_manifest.json")
                       (ManifestJson (s_manifest sess)))
            (disk (s_system sess)).
Proof.
  split; [ reflexivity | ].
  eexists. split; [ vm_compute; reflexivity | ].
  split; [ reflexivity | ]. split; vm_compute; tauto.
Qed.

(** The [rel] of a stylesheet is matched in any case: the sheet of
    [<link rel='Stylesheet'>] is downloaded, and the link points to the
    copy. *)
Lemma stylesheet_in_any_case :
  @fetchPageAndAssets MoreSites.styled (@Demo.boot MoreSites.styled 0)
    Sites.home Sites.root Sites.home
  = (@mkSystem (@World MoreSites.styled) 2
       [EnsureDir (Sites.root ++ "/assets/index");
        WriteFile (Sites.root ++ "/assets/index/style-1.css") (AssetData "CSS")],
     Some (mkFetchResult
             [mkElement "link" [("rel", "Stylesheet");
                                ("href", "assets/index/style-1.css")]]
             [])).
Proof. reflexivity. Qed.

(** C8 at work: the link [http://] has no host; the link after it is
    discovered as if it stood alone. *)
Lemma malformed_link_skipped_witness :
  @URL_new_base Sites.dead "http://" Sites.home = None
  /\ @discoverLinks Sites.dead Sites.home "h"
       ([] ++ mkElement "a" [("href", "http://")] :: [mkElement "a" [("href", "/b")]])
     = ["http://h/b"]
  /\ @discoverLinks Sites.dead Sites.home "h"
       ([] ++ mkElement "a" [("href", "http://")] :: [mkElement "a" [("href", "/b")]])
     = @discoverLinks Sites.dead Sites.home "h" ([] ++ [mkElement "a" [("href", "/b")]]).
Proof.
  split; [ reflexivity | ]. split; [ reflexivity | ].
  exact (proj2 (proj1 (@malformed_link_skipped Sites.dead Sites.home
                         (mkElement "a" [("href", "http://")]) "http://"
                         eq_refl eq_refl eq_refl
                         (@Demo.boot Sites.dead 0) Sites.root Sites.home "h" []
                         Sites.root [] [mkElement "a" [("href", "/b")]])
                      "h")).
Defined.

(** ** More of the engine at work *)

(** X1 at work: after the home page, the queue holds its two links, once
    each. *)
Lemma queue_fresh_witness :
  exists st,
    @reaches Sites.two_pages Sites.home Sites.root 5 Sites.entered st
    /\ queue st = ["http://h/a"; "http://h/b"]
    /\ NoDup (queue st).
Proof.
  assert (Hr : exists st,
             @reaches Sites.two_pages Sites.home Sites.root 5 Sites.entered st
             /\ queue st = ["http://h/a"; "http://h/b"]).
  { exists (@loop_body Sites.two_pages Sites.home Sites.root Sites.entered).
    split.
    - iterate_once. apply reaches_here.
    - vm_compute. reflexivity. }
  destruct Hr as (st & Hr & Hq). exists st. repeat split; try assumption.
  exact (proj1 (@queue_fresh Sites.two_pages Sites.home Sites.root 5
                             (@Demo.boot Sites.two_pages 0) st Hr)).
Defined.

(** X2 at work: of the three fetches, the two that succeeded make the
    visited set. *)
Lemma visited_are_successes_witness :
  exists st,
    @reaches Sites.two_pages Sites.home Sites.root 5 Sites.entered st
    /\ fetchLog st = [("http://h/", true); ("http://h/a", false);
                      ("http://h/b", true)]
    /\ map fst (filter snd (fetchLog st)) = visited st.
Proof.
  assert (Hr : exists st,
             @reaches Sites.two_pages Sites.home Sites.root 5 Sites.entered st
             /\ fetchLog st = [("http://h/", true); ("http://h/a", false);
                               ("http://h/b", true)]).
  { exists (@loop_body Sites.two_pages Sites.home Sites.root
              (@loop_body Sites.two_pages Sites.home Sites.root
                 (@loop_body Sites.two_pages Sites.home Sites.root Sites.entered))).
    split.
    - iterate_once. iterate_once. iterate_once. apply reaches_here.
    - vm_compute. reflexivity. }
  destruct Hr as (st & Hr & Hlog). exists st. repeat split; try assumption.
  exact (proj1 (@visited_are_successes Sites.two_pages Sites.home Sites.root 5
                                       (@Demo.boot Sites.two_pages 0) st Hr)).
Defined.

(** X3 at work. *)
Lemma store_keys_are_visited_witness :
  exists st,
    @reaches Sites.two_pages Sites.home Sites.root 5 Sites.entered st
    /\ visited st = ["http://h/"; "http://h/b"]
    /\ map fst (pageDataMap st) = visited st.
Proof.
  assert (Hr : exists st,
             @reaches Sites.two_pages Sites.home Sites.root 5 Sites.entered st
             /\ visited st = ["http://h/"; "http://h/b"]).
  { exists (@loop_body Sites.two_pages Sites.home Sites.root
              (@loop_body Sites.two_pages Sites.home Sites.root
                 (@loop_body Sites.two_pages Sites.home Sites.root Sites.entered))).
    split.
    - iterate_once. iterate_once. iterate_once. apply reaches_here.
    - vm_compute. reflexivity. }
  destruct Hr as (st & Hr & Hv). exists st. repeat split; try assumption.
  exact (@store_keys_are_visited Sites.two_pages Sites.home Sites.root 5
                                 (@Demo.boot Sites.two_pages 0) st Hr).
Defined.

(** X4 at work: with a budget of one page. *)
Lemma loop_exit_witness :
  queue (@phase1 Sites.two_pages Sites.home Sites.root 1 Sites.entered) = []
  \/ Z.of_nat (length (visited (@phase1 Sites.two_pages Sites.home Sites.root 1
                                        Sites.entered))) = 1%Z.
Proof.
  apply (proj2 (@loop_exit Sites.two_pages Sites.home Sites.root 1
                           (@Demo.boot Sites.two_pages 0)
                           (Qle_bool_imp_le 0 1 eq_refl)) 1%Z).
  reflexivity.
Defined.

(** X5 at work: the session on the two-page site writes the home page and
    [/b]. *)
Lemma one_html_file_per_visited_page_witness :
  exists sess files,
    @startCrawl Sites.two_pages (@Demo.boot Sites.two_pages 0) Sites.home 5 = Some sess
    /\ html_files (disk (s_system sess)) = files
    /\ Forall2 (fun url file =>
                  @getLocalFilePathForPage Sites.two_pages url Sites.home (s_root sess)
                  = Some file)
               (visited (s_crawl sess)) files.
Proof.
  assert (Hs : exists sess,
             @startCrawl Sites.two_pages (@Demo.boot Sites.two_pages 0) Sites.home 5
             = Some sess)
    by (eexists; vm_compute; reflexivity).
  destruct Hs as (sess & Hs).
  destruct (@one_html_file_per_visited_page Sites.two_pages
              (@Demo.boot Sites.two_pages 0) Sites.home 5 sess Hs)
    as (files & Hfiles & Hall).
  exists sess, files. split; [ exact Hs | ]. split; [ exact Hfiles | exact Hall ].
Defined.

(** X6 at work: the home page answers, and the entry point is its file. *)
Lemma entrypoint_written_witness :
  exists sess entry doc,
    @startCrawl Sites.two_pages (@Demo.boot Sites.two_pages 0) Sites.home 5 = Some sess
    /\ m_entrypoint (s_manifest sess)
       = forward_slashes (@path_relative Sites.two_pages (s_root sess) entry)
    /\ In (WriteFile entry (Html doc)) (disk (s_system sess)).
Proof.
  assert (Hs : exists sess,
             @startCrawl Sites.two_pages (@Demo.boot Sites.two_pages 0) Sites.home 5
             = Some sess
             /\ s_root sess = Sites.root)
    by (eexists; split; [ vm_compute; reflexivity | reflexivity ]).
  destruct Hs as (sess & Hs & Hroot).
  destruct (@entrypoint_written Sites.two_pages (@Demo.boot Sites.two_pages 0)
              Sites.home 5 sess Hs) as (_ & _ & entry & doc & Hentry & Hin).
  - apply Qle_bool_imp_le. reflexivity.
  - rewrite Hroot. vm_compute. discriminate.
  - exists sess, entry, doc. split; [ exact Hs | ]. split; assumption.
Defined.

(** X7 at work: on the home page of the two-page site, pass 2 rewrites the
    link to [/b#f] and keeps its tag. *)
Lemma rewrite_changes_href_only_witness :
  exists el',
    nth_error (@rewrite_links Sites.two_pages Sites.home "h" Sites.root
                 ["http://h/"; "http://h/b"] Sites.home
                 (Sites.root ++ "/index.html")
                 [mkElement "a" [("href", "/b#f"); ("class", "nav")];
                  mkElement "p" []]) 0 = Some el'
    /\ tagName el' = "a"
    /\ Dom.attr "class" el' = Some "nav".
Proof.
  destruct (@rewrite_changes_href_only Sites.two_pages Sites.home "h" Sites.root
              ["http://h/"; "http://h/b"] Sites.home
              (Sites.root ++ "/index.html")
              [mkElement "a" [("href", "/b#f"); ("class", "nav")];
               mkElement "p" []]
              0 (mkElement "a" [("href", "/b#f"); ("class", "nav")]) eq_refl)
    as (_ & el' & Hnth & Htag & Hattrs & _).
  exists el'. split; [ exact Hnth | ]. split; [ exact Htag | ].
  apply Hattrs. discriminate.
Defined.

(** X8 at work: the fetch of the home page of the two-page site returns
    its first anchor as parsed. *)
Lemma fetch_changes_assets_only_witness :
  exists s' fr,
    @fetchPageAndAssets Sites.two_pages (@Demo.boot Sites.two_pages 0)
      Sites.home Sites.root Sites.home = (s', Some fr)
    /\ nth_error (fr_doc fr) 0 = Some (mkElement "a" [("href", "/a")]).
Proof.
  assert (Hf : exists s' fr,
             @fetchPageAndAssets Sites.two_pages (@Demo.boot Sites.two_pages 0)
               Sites.home Sites.root Sites.home = (s', Some fr))
    by (do 2 eexists; vm_compute; reflexivity).
  destruct Hf as (s' & fr & Hf). exists s', fr. split; [ exact Hf | ].
  destruct (@fetch_changes_assets_only Sites.two_pages _ _ _ _ _ _ Hf)
    as (w & html & Hget & _ & Hall).
  vm_compute in Hget. injection Hget as <- <-.
  destruct (Hall 0 (mkElement "a" [("href", "/a")]) eq_refl)
    as (el' & Hnth & _ & Hsame & _).
  rewrite Hnth. f_equal. now apply Hsame.
Defined.

(** X9 at work: the home page of the two-page site reports [/a] and [/b],
    the latter without its fragment. *)
Lemma discovered_links_characterised_witness :
  exists s' fr,
    @fetchPageAndAssets Sites.two_pages (@Demo.boot Sites.two_pages 0)
      Sites.home Sites.root Sites.home = (s', Some fr)
    /\ NoDup (discoveredLinks fr)
    /\ In "http://h/b" (discoveredLinks fr).
Proof.
  assert (Hf : exists s' fr,
             @fetchPageAndAssets Sites.two_pages (@Demo.boot Sites.two_pages 0)
               Sites.home Sites.root Sites.home = (s', Some fr))
    by (do 2 eexists; vm_compute; reflexivity).
  destruct Hf as (s' & fr & Hf). exists s', fr. split; [ exact Hf | ].
  destruct (@discovered_links_characterised Sites.two_pages _ _ _ _ _ _ Hf)
    as (w & html & Hget & Hnd & Hlinks).
  split; [ exact Hnd | ]. apply Hlinks.
  vm_compute in Hget. injection Hget as <- <-.
  exists (mkElement "a" [("href", "/b#f")]), "/b#f", (mkURL "http://h/b#f" "h" "/b").
  split; [ vm_compute; tauto | ]. split; [ reflexivity | ].
  split; [ reflexivity | ]. split; [ discriminate | ].
  split; [ vm_compute; reflexivity | ]. split; [ reflexivity | ].
  split; [ | vm_compute; reflexivity ].
  intros c Hc. vm_compute in Hc. 
  repeat (destruct Hc as [ <- | Hc ]; [ reflexivity | ]). contradiction.
Defined.

(** X10 at work: the inline image of the home page is neither requested
    nor stored. *)
Lemma inline_assets_fetch_nothing_witness :
  exists fr,
    @fetchPageAndAssets MoreSites.inline_image (@Demo.boot MoreSites.inline_image 0)
      Sites.home Sites.root Sites.home
    = (@mkSystem (@World MoreSites.inline_image) 1 [], Some fr)
    /\ fr_doc fr
       = [mkElement "img" [("src", "data:image/png;base64,AAAA")];
          mkElement "a" [("href", "/b")]].
Proof.
  assert (Hf : exists s' fr,
             @fetchPageAndAssets MoreSites.inline_image
               (@Demo.boot MoreSites.inline_image 0)
               Sites.home Sites.root Sites.home = (s', Some fr))
    by (do 2 eexists; vm_compute; reflexivity).
  destruct Hf as (s' & fr & Hf).
  destruct (@inline_assets_fetch_nothing MoreSites.inline_image
              (@Demo.boot MoreSites.inline_image 0) s' Sites.home Sites.root
              Sites.home fr 1
              "<img src='data:image/png;base64,AAAA'><a href='/b'>b</a>")
    as (Hs' & Hdoc).
  - reflexivity.
  - intros el Hin. vm_compute in Hin.
    destruct Hin as [ <- | [ <- | [] ] ]; [ reflexivity | discriminate ].
  - exact Hf.
  - exists fr. split; [ rewrite Hf, Hs'; reflexivity | ]. rewrite Hdoc. reflexivity.
Defined.

(** X11 at work: the image of the home page of the two-page site is
    stored, and the page points to the copy. *)
Lemma localised_assets_are_on_disk_witness :
  exists s' fr el',
    @fetchPageAndAssets Sites.two_pages (@Demo.boot Sites.two_pages 0)
      Sites.home Sites.root Sites.home = (s', Some fr)
    /\ nth_error (fr_doc fr) 2 = Some el'
    /\ el' = mkElement "img" [("src", "assets/index/image-1.png")]
    /\ exists w html el localPagePath pageUrlObject,
        @axios_get Sites.two_pages (net (@Demo.boot Sites.two_pages 0)) Sites.home
        = (w, Some html)
        /\ nth_error (@cheerio_load Sites.two_pages html) 2 = Some el
        /\ @getLocalFilePathForPage Sites.two_pages Sites.home Sites.home Sites.root
           = Some localPagePath
        /\ @URL_new Sites.two_pages Sites.home = Some pageUrlObject.
Proof.
  assert (Hf : exists s' fr el',
             @fetchPageAndAssets Sites.two_pages (@Demo.boot Sites.two_pages 0)
               Sites.home Sites.root Sites.home = (s', Some fr)
             /\ nth_error (fr_doc fr) 2 = Some el'
             /\ el' = mkElement "img" [("src", "assets/index/image-1.png")])
    by (do 3 eexists; split; [ vm_compute; reflexivity | split; reflexivity ]).
  destruct Hf as (s' & fr & el' & Hf & Hnth & Hel). exists s', fr, el'.
  split; [ exact Hf | ]. split; [ exact Hnth | ]. split; [ exact Hel | ].
  destruct (@localised_assets_are_on_disk Sites.two_pages _ _ _ _ _ _ _ _ Hf Hnth)
    as (w & html & el & lp & page & Hget & Hi & Hlp & Hpage & _).
  exists w, html, el, lp, page. auto.
Defined.

(** X12 at work: [/docs/guide/] is stored one folder below the session
    folder. *)
Lemma page_file_is_flat_witness :
  @getLocalFilePathForPage Sites.dead "http://h/docs/guide/" Sites.home "/arch"
  = Some "/arch/docs_guide/index.html"
  /\ ("/arch/docs_guide/index.html" = @path_join Sites.dead ["/arch"; "index.html"]
      \/ exists name,
          name <> EmptyString
          /\ free_of unsafe_path_char name
          /\ (@path_extname Sites.dead name = EmptyString
              /\ "/arch/docs_guide/index.html"
                 = @path_join Sites.dead
                     ["/arch"; @path_join Sites.dead [name; "index.html"]]
              \/ @path_extname Sites.dead name <> EmptyString
                 /\ "/arch/docs_guide/index.html"
                    = @path_join Sites.dead ["/arch"; name])).
Proof.
  split; [ reflexivity | ].
  apply (@page_file_is_flat Sites.dead "http://h/docs/guide/" Sites.home "/arch").
  reflexivity.
Defined.

(** On the concrete platform, [http://] resolves against no page. *)
Lemma load_with_host_drops (url html : string) :
  @drops MoreSites.hostless_link url (Demo.load html) (MoreSites.load_with_host html).
Proof.
  unfold MoreSites.load_with_host. generalize (Demo.load html). intros d.
  induction d as [ | el d IH ]; simpl; [ constructor | ].
  destruct (MoreSites.hostless el) eqn:Hel; simpl.
  - apply drops_skip; [ | assumption ].
    unfold MoreSites.hostless in Hel. unfold malformed.
    destruct (Dom.is_anchor el); [ simpl in * | discriminate ].
    destruct (Dom.attr "href" el) as [ h | ]; [ | discriminate ].
    apply String.eqb_eq in Hel. subst h. reflexivity.
  - now apply drops_keep.
Qed.

(** X13 at work: the session on the site whose home page holds a link
    without a host goes as the session that never sees that link. *)
Lemma startCrawl_as_if_absent_witness :
  same_session
    (@startCrawl MoreSites.hostless_link (@Demo.boot MoreSites.hostless_link 0)
                 Sites.home 5)
    (@startCrawl (with_parser MoreSites.hostless_link MoreSites.load_with_host)
                 (@Demo.boot MoreSites.hostless_link 0) Sites.home 5).
Proof.
  apply (@startCrawl_as_if_absent MoreSites.hostless_link MoreSites.load_with_host).
  intros w url w' html _. apply load_with_host_drops.
Defined.

(** X15 at work: a bare host name, with blanks around it. *)
Lemma page_request_is_accepted_witness :
  App.triggerArchive "  Example.com " = Some "https://Example.com"
  /\ App.has_http_scheme "https://Example.com" = true
  /\ h_response (post_api_archive (mkBody (Some "https://Example.com") (Some 0%Q)))
     = Json "Archiving process for https://Example.com has started.".
Proof.
  split; [ reflexivity | ].
  destruct (@page_request_is_accepted "  Example.com " "https://Example.com"
              (Some 0%Q) eq_refl) as (Hscheme & Hresponse & _).
  split; assumption.
Defined.

Ltac free_by_computation :=
  repeat (apply (proj2 (free_of_cons _ _ _)); split; [ reflexivity | ]);
  intros ? [].

(** X16 at work: the time of the sessions of the concrete platform. *)
Lemma version_id_reads_back_witness :
  @timestamp Sites.dead 0%nat = "2025-09-14T10-00-00.000Z"
  /\ App.parsableDateString (@timestamp Sites.dead 0%nat)
     = Some "2025-09-14T10:00:00.000Z".
Proof.
  split; [ reflexivity | ].
  refine (proj2 (@version_id_reads_back Sites.dead 0%nat "h"
                   "2025-09-14" "10:00:00.000Z" eq_refl _ _ _ _));
    free_by_computation.
Defined.

(** X17 at work: the two sessions of the host [h], the later first; the
    folder without a manifest is not listed. *)
Lemma versions_listed_witness :
  @get_api_archives_domain Sites.dead MoreSites.shelf "h"
  = Versions [mkVersion "2025-09-15T10-00-00.000Z" "http://h/b" "b/index.html"
                        ["http://h/b"];
              mkVersion "2025-09-14T10-00-00.000Z" "http://h/" "index.html"
                        ["http://h/"; "http://h/b"]]
  /\ Permutation
       ["2025-09-15T10-00-00.000Z"; "2025-09-14T10-00-00.000Z"]
       ["2025-09-14T10-00-00.000Z"; "2025-09-15T10-00-00.000Z"].
Proof.
  assert (Hlisted :
            @get_api_archives_domain Sites.dead MoreSites.shelf "h"
            = Versions [mkVersion "2025-09-15T10-00-00.000Z" "http://h/b"
                                  "b/index.html" ["http://h/b"];
                        mkVersion "2025-09-14T10-00-00.000Z" "http://h/"
                                  "index.html" ["http://h/"; "http://h/b"]])
    by (vm_compute; reflexivity).
  split; [ exact Hlisted | ].
  assert (Htotal : forall a b,
             (0 < @localeCompare MoreSites.shelf a b)%Z ->
             (@localeCompare MoreSites.shelf b a <= 0)%Z).
  { intros a b. simpl. rewrite (String.compare_antisym a b).
    destruct (String.compare b a); simpl; lia. }
  destruct (@versions_listed Sites.dead MoreSites.shelf "h" _ Htotal Hlisted)
    as (folders & Hread & Hperm & _).
  vm_compute in Hread. injection Hread as <-. exact Hperm.
Defined.

Lemma last_dot_head (l e : Demo.chars) :
  Demo.last_dot l = Some e -> exists r, e = "."%char :: r.
Proof.
  induction l as [ | c l IH ]; cbn [Demo.last_dot]; [ discriminate | ].
  destruct (Demo.last_dot l) as [ e' | ].
  - intros [= <-]. now apply IH.
  - destruct (Demo.one_of ["."%char] c) eqn:Hc; [ | discriminate ].
    intros [= <-]. unfold Demo.one_of in Hc. simpl in Hc.
    rewrite orb_false_r in Hc. apply Ascii.eqb_eq in Hc. subst c. now exists l.
Qed.

(** The [extname] of the concrete platform is nothing or starts with its
    dot. *)
Lemma demo_extname_dot (p : string) :
  Demo.extname p = EmptyString \/ exists r, Demo.extname p = String "." r.
Proof.
  unfold Demo.extname.
  destruct (Demo.lst (last (Demo.split_path p) EmptyString)) as [ | c rest ];
    [ now left | ].
  destruct (Demo.last_dot rest) as [ e | ] eqn:He; [ right | now left ].
  destruct (last_dot_head _ He) as (r & ->). now exists (Demo.str r).
Qed.

(** X19 at work: the two images of the gallery, one of them without an
    extension. *)
Lemma asset_names_are_distinct_witness :
  exists ts d d',
    @collect_assets Sites.dead Sites.home "/arch" "index" MoreSites.gallery
                    (mkCounters 0 0 0) = Some ts
    /\ nth_error ts 0 = Some (Some d)
    /\ nth_error ts 2 = Some (Some d')
    /\ d_savePath d = "/arch/assets/index/image-1.png"
    /\ d_savePath d' = "/arch/assets/index/image-2.jpg"
    /\ exists filename filename',
        d_savePath d = @path_join Sites.dead ["/arch"; "assets"; "index"; filename]
        /\ d_savePath d'
           = @path_join Sites.dead ["/arch"; "assets"; "index"; filename']
        /\ filename <> filename'.
Proof.
  assert (Hts : exists ts d d',
             @collect_assets Sites.dead Sites.home "/arch" "index" MoreSites.gallery
                             (mkCounters 0 0 0) = Some ts
             /\ nth_error ts 0 = Some (Some d)
             /\ nth_error ts 2 = Some (Some d')
             /\ d_savePath d = "/arch/assets/index/image-1.png"
             /\ d_savePath d' = "/arch/assets/index/image-2.jpg").
  { do 3 eexists. split; [ vm_compute; reflexivity | ]. repeat split. }
  destruct Hts as (ts & d & d' & Hts & Hi & Hj & Hd & Hd').
  exists ts, d, d'. repeat split; try assumption.
  apply (@asset_names_are_distinct Sites.dead demo_extname_dot Sites.home "/arch"
           "index" MoreSites.gallery ts 0 2 d d' Hts); [ discriminate | | ];
    assumption.
Defined.

(** X20 at work: [/b] is visited, and the home page links to it. *)
Lemma visited_pages_are_linked_witness :
  exists st,
    @reaches Sites.two_pages Sites.home Sites.root 5 Sites.entered st
    /\ In "http://h/b" (visited st)
    /\ ("http://h/b" = Sites.home
        \/ exists start page doc,
            @URL_new Sites.two_pages Sites.home = Some start
            /\ In page (visited st)
            /\ In (page, doc) (pageDataMap st)
            /\ In "http://h/b"
                  (@discoverLinks Sites.two_pages page (hostname start) doc)).
Proof.
  assert (Hr : exists st,
             @reaches Sites.two_pages Sites.home Sites.root 5 Sites.entered st
             /\ In "http://h/b" (visited st)).
  { exists (@loop_body Sites.two_pages Sites.home Sites.root
              (@loop_body Sites.two_pages Sites.home Sites.root
                 (@loop_body Sites.two_pages Sites.home Sites.root Sites.entered))).
    split.
    - iterate_once. iterate_once. iterate_once. apply reaches_here.
    - vm_compute. right. left. reflexivity. }
  destruct Hr as (st & Hr & Hin). exists st. repeat split; try assumption.
  exact (@visited_pages_are_linked Sites.two_pages Sites.home Sites.root 5
           (@Demo.boot Sites.two_pages 0) st "http://h/b" Hr (or_introl Hin)).
Defined.



(** X23 at work: [http://] has no host. *)
Lemma unparsable_url_is_accepted_witness :
  h_response (post_api_archive (mkBody (Some "http://") None))
  = Json "Archiving process for http:// has started."
  /\ exists maxPagesToCrawl,
      h_launched (post_api_archive (mkBody (Some "http://") None))
      = Some ("http://", maxPagesToCrawl)
      /\ @startCrawl Sites.dead (@Demo.boot Sites.dead 0) "http://" maxPagesToCrawl
         = None.
Proof.
  apply (@unparsable_url_is_accepted Sites.dead (@Demo.boot Sites.dead 0)
           "http://" None).
  - discriminate.
  - reflexivity.
Defined.

(** X24 at work: [/p?x=1] and [/p?x=2] are both written to [p/index.html]. *)
Lemma same_path_same_file_witness :
  exists sess file,
    @startCrawl MoreSites.queries (@Demo.boot MoreSites.queries 0) Sites.home 5
    = Some sess
    /\ @getLocalFilePathForPage MoreSites.queries "http://h/p?x=1" Sites.home
         (s_root sess) = Some file
    /\ @getLocalFilePathForPage MoreSites.queries "http://h/p?x=2" Sites.home
         (s_root sess) = Some file.
Proof.
  assert (Hs : exists sess,
             @startCrawl MoreSites.queries (@Demo.boot MoreSites.queries 0)
               Sites.home 5 = Some sess
             /\ In "http://h/p?x=1" (visited (s_crawl sess))
             /\ In "http://h/p?x=2" (visited (s_crawl sess))).
  { apply returned. vm_compute.
    split; [ right; left; reflexivity | right; right; left; reflexivity ]. }
  destruct Hs as (sess & Hs & Hv1 & Hv2).
  destruct (@same_path_same_file MoreSites.queries _ _ _ sess
              "http://h/p?x=1" "http://h/p?x=2"
              (mkURL "http://h/p?x=1" "h" "/p") (mkURL "http://h/p?x=2" "h" "/p")
              Hs Hv1 Hv2)
    as (file & doc1 & doc2 & Hf1 & Hf2 & _).
  - vm_compute. reflexivity.
  - vm_compute. reflexivity.
  - reflexivity.
  - exists sess, file. auto.
Defined.
